(** * durable-objects-sql-tag: the SQL template tag and the database wrapper

    A shallow embedding of [src/sql-tag.ts] (the [sql] template tag with its
    [join] / [list] helpers and [expandTemplate]) and of [src/db-wrapper.ts]
    (the query helpers, [getSchemaVersion], [getMigrationStatus] and
    [migrateDatabase]), followed by the properties of the specification that
    hold on them.

    Conventions of the embedding:
    - a JS [number] is a [Z]: the code only compares, increments and prints
      the numbers it touches (row counts, schema versions), doubles that are
      not integers are not represented;
    - a mutable closure variable ([query], [values] in [expandTemplate]) is
      an explicit state record threaded through the loop;
    - code that calls the storage engine or user callbacks runs in a small
      state-and-exception monad over a [World]; a call either returns or
      throws, and keeps the world it reached in both cases;
    - the wrapper is written against an arbitrary engine ([exec]); the
      migration properties are stated on a model of the engine's metadata
      relation ([memExec]), with hooks that are arbitrary functions on the
      storage. *)

From Stdlib Require Import ZArith Lia Ascii.
From stdpp Require Import gmap strings list pretty.


(** ** Values *)

(** [Primitive] of sql-tag.ts:
    [string | number | boolean | null | undefined | ArrayBuffer | Uint8Array].
    A [Uint8Array] is a view: a backing buffer, a byte offset and a length. *)
Inductive Primitive : Type :=
| PString (s : string)
| PNumber (n : Z)
| PBoolean (b : bool)
| PNull
| PUndefined
| PArrayBuffer (bytes : list Byte.byte)
| PUint8Array (buffer : list Byte.byte) (byteOffset byteLength : nat).

(** [PreparedStatement]: [values] is optional ([values?: Primitive[]]). *)
Record PreparedStatement : Type := MkStatement {
  query : string;
  values : option (list Primitive)
}.

(** [statement.values || []], as [queryCommon] and [run] read the
    parameters of a statement. *)
Definition valuesOrEmpty (statement : PreparedStatement) : list Primitive :=
  match values statement with
  | Some vs => vs
  | None => []
  end.

(** ** Fragments *)

(** [SqlQueryFragment]: an object with [build], [isEmpty], [templateStrings]
    and [templateValues]; a template value is a primitive or a fragment.
    ([map] is the same function in every fragment the module builds, it is
    [map_fragment] below.) *)
Inductive SqlQueryFragment : Type :=
| MkFragment (build : unit -> PreparedStatement)
             (isEmpty : unit -> bool)
             (templateStrings : list string)
             (templateValues : list TemplateValue)
with TemplateValue : Type :=
| Prim (p : Primitive)
| Frag (f : SqlQueryFragment).

Definition build (f : SqlQueryFragment) : PreparedStatement :=
  match f with MkFragment b _ _ _ => b tt end.
Definition isEmpty (f : SqlQueryFragment) : bool :=
  match f with MkFragment _ e _ _ => e tt end.
Definition templateStrings (f : SqlQueryFragment) : list string :=
  match f with MkFragment _ _ strs _ => strs end.
Definition templateValues (f : SqlQueryFragment) : list TemplateValue :=
  match f with MkFragment _ _ _ vals => vals end.

(** ** expandTemplate *)

(** The two variables [expand] closes over: [let query = ""] and
    [const values: Primitive[] = []]. *)
Record ExpandState : Type := MkExpandState {
  st_query : string;
  st_values : list Primitive
}.

(** [query += s] *)
Definition appendQuery (s : string) (st : ExpandState) : ExpandState :=
  MkExpandState (st_query st +:+ s) (st_values st).

(** The else branch of [expand]: [query += "?"; values.push(value)]. *)
Definition pushValue (value : Primitive) (st : ExpandState) : ExpandState :=
  MkExpandState (st_query st +:+ "?") (st_values st ++ [value]).

Section ExpandLoop.
(** What [expand] does with the value of one slot (the body of
    [if (i > 0)]); the knot is tied in [expandValue]. *)
Variable slot : TemplateValue -> ExpandState -> ExpandState.

(** Iterations [i >= 1] of the loop once [templateValues] is exhausted:
    [templateValues[i - 1]] is [undefined], which is not a fragment. *)
Fixpoint expandMissing (rest : list string) (st : ExpandState) : ExpandState :=
  match rest with
  | [] => st
  | s :: rest' => expandMissing rest' (appendQuery s (pushValue PUndefined st))
  end.

(** Iterations [i >= 1] of [for (let i = 0; i < templateStrings.length; i++)]:
    [rest] is [templateStrings] from index [i] on, [vals] is
    [templateValues] from index [i - 1] on. *)
Fixpoint expandSlots (vals : list TemplateValue) (rest : list string)
         (st : ExpandState) {struct vals} : ExpandState :=
  match rest with
  | [] => st
  | s :: rest' =>
      match vals with
      | [] => expandMissing rest st
      | value :: vals' => expandSlots vals' rest' (appendQuery s (slot value st))
      end
  end.

(** The whole loop: iteration [0] only appends [templateStrings[0]]. *)
Definition expandLoop (strs : list string) (vals : list TemplateValue)
           (st : ExpandState) : ExpandState :=
  match strs with
  | [] => st
  | s0 :: rest => expandSlots vals rest (appendQuery s0 st)
  end.
End ExpandLoop.

(** The body of [if (i > 0)] for one value: a fragment is expanded in place
    from its [templateStrings] and [templateValues], anything else becomes a
    placeholder and is pushed as it is. *)
Fixpoint expandValue (value : TemplateValue) (st : ExpandState) : ExpandState :=
  match value with
  | Prim p => pushValue p st
  | Frag (MkFragment _ _ strs vals) => expandLoop expandValue strs vals st
  end.

(** [expand(templateStrings, templateValues)] *)
Definition expand (strs : list string) (vals : list TemplateValue)
           (st : ExpandState) : ExpandState :=
  expandLoop expandValue strs vals st.

Definition expandTemplate (rootTemplateStrings : list string)
           (rootTemplateValues : list TemplateValue) : PreparedStatement :=
  let st := expand rootTemplateStrings rootTemplateValues (MkExpandState EmptyString []) in
  MkStatement (st_query st)
              (if (0 <? length (st_values st))%nat then Some (st_values st) else None).

Definition isTemplateEmpty (strs : list string) (vals : list TemplateValue) : bool :=
  (length strs =? 1)%nat
  && match strs with
     | s0 :: _ => (String.length s0 =? 0)%nat
     | [] => false
     end
  && (length vals =? 0)%nat.

(** The body of the loop of [expand] for the index [i], read off the
    source: [templateValues[i - 1]] is [undefined] past the end of the
    values, [templateStrings[i]] is within the strings. *)
Definition expandIteration (strs : list string) (vals : list TemplateValue)
           (st : ExpandState) (i : nat) : ExpandState :=
  let st' := if (0 <? i)%nat
             then expandValue (default (Prim PUndefined) (vals !! (i - 1)%nat)) st
             else st in
  appendQuery (default EmptyString (strs !! i)) st'.

(** ** The tag and its helpers *)

(** [sql`...`]: the tag receives the literal strings and the values. *)
Definition sql (strs : list string) (vals : list TemplateValue) : SqlQueryFragment :=
  MkFragment (fun _ => expandTemplate strs vals)
             (fun _ => isTemplateEmpty strs vals)
             strs vals.

(** [sql.join(values)] *)
Definition sql_join (vs : list Primitive) : SqlQueryFragment :=
  if (length vs =? 0)%nat then
    MkFragment (fun _ => MkStatement "NULL" None) (fun _ => false) ["NULL"] []
  else
    let strs := [EmptyString] ++ repeat ", " (length vs - 1) ++ [EmptyString] in
    let vals := Prim <$> vs in
    MkFragment (fun _ => expandTemplate strs vals)
               (fun _ => isTemplateEmpty strs vals)
               strs vals.

(** [sql.list(values)], the helper of the earlier revision of sql-tag.ts. *)
Definition sql_list (vs : list Primitive) : SqlQueryFragment :=
  if (length vs =? 0)%nat then
    MkFragment (fun _ => MkStatement "(NULL)" (Some [])) (fun _ => false) ["(NULL)"] []
  else
    let strs := ["("] ++ repeat ", " (length vs - 1) ++ [")"] in
    let vals := Prim <$> vs in
    MkFragment (fun _ => expandTemplate strs vals)
               (fun _ => isTemplateEmpty strs vals)
               strs vals.

(** ** What the specification says flattening produces

    The specification describes the flat statement by the shape of the
    fragment tree. These definitions follow its words; the theorems below
    compare them with [expandTemplate]. *)

(** The invariant of the data model, [segments.length == slots.length + 1],
    at every fragment of the tree. *)
Fixpoint wfValue (value : TemplateValue) : bool :=
  match value with
  | Prim _ => true
  | Frag (MkFragment _ _ strs vals) =>
      (length strs =? length vals + 1)%nat && forallb wfValue vals
  end.

Definition wfTemplate (strs : list string) (vals : list TemplateValue) : bool :=
  (length strs =? length vals + 1)%nat && forallb wfValue vals.

(** The scalar (non-fragment) slots of a tree, depth first, left to right. *)
Fixpoint scalarSlots (value : TemplateValue) : list Primitive :=
  match value with
  | Prim p => [p]
  | Frag (MkFragment _ _ _ vals) => flat_map scalarSlots vals
  end.

(** The literal segments of a tree, every level included. *)
Fixpoint literalSegments (value : TemplateValue) : list string :=
  match value with
  | Prim _ => []
  | Frag (MkFragment _ _ strs vals) => strs ++ flat_map literalSegments vals
  end.

(** A flat statement seen as a sequence of pieces: literal text, or the
    placeholder of a scalar. *)
Inductive Piece : Type :=
| Literal (s : string)
| Placeholder (p : Primitive).

Section Splice.
Variable piecesOf : TemplateValue -> list Piece.

(** Segments and slots walked in lockstep: the pieces of slot [i], then
    segment [i + 1]. *)
Fixpoint spliceSlots (vals : list TemplateValue) (rest : list string) : list Piece :=
  match vals, rest with
  | value :: vals', s :: rest' => piecesOf value ++ Literal s :: spliceSlots vals' rest'
  | _, _ => []
  end.

Definition spliceTemplate (strs : list string) (vals : list TemplateValue) : list Piece :=
  match strs with
  | [] => []
  | s0 :: rest => Literal s0 :: spliceSlots vals rest
  end.
End Splice.

(** A scalar is one placeholder; a nested fragment is its own segments and
    slots, in place. *)
Fixpoint piecesOf (value : TemplateValue) : list Piece :=
  match value with
  | Prim p => [Placeholder p]
  | Frag (MkFragment _ _ strs vals) => spliceTemplate piecesOf strs vals
  end.

(** The text of a sequence of pieces: literals verbatim, ["?"] for a
    placeholder. *)
Fixpoint render (pieces : list Piece) : string :=
  match pieces with
  | [] => EmptyString
  | Literal s :: pieces' => s +:+ render pieces'
  | Placeholder _ :: pieces' => "?" +:+ render pieces'
  end.

(** The scalars behind the placeholders of a sequence, in order. *)
Fixpoint placeholders (pieces : list Piece) : list Primitive :=
  match pieces with
  | [] => []
  | Literal _ :: pieces' => placeholders pieces'
  | Placeholder p :: pieces' => p :: placeholders pieces'
  end.

(** The literal texts of a sequence, in order. *)
Fixpoint literals (pieces : list Piece) : list string :=
  match pieces with
  | [] => []
  | Literal s :: pieces' => s :: literals pieces'
  | Placeholder _ :: pieces' => literals pieces'
  end.

(** What one state of [expand] looks like after more pieces were emitted. *)
Definition emitted (st : ExpandState) (pieces : list Piece) : ExpandState :=
  MkExpandState (st_query st +:+ render pieces) (st_values st ++ placeholders pieces).

(** Number of occurrences of the character [c] in [s]. *)
Fixpoint countChar (c : Ascii.ascii) (s : string) : nat :=
  match s with
  | EmptyString => 0
  | String c' s' => (if Ascii.eqb c c' then 1 else 0) + countChar c s'
  end.

Definition questionMark : Ascii.ascii := "?"%char.

(** Occurrences of [c] in a list of strings. *)
Definition countCharIn (c : Ascii.ascii) (l : list string) : nat :=
  list_sum (countChar c <$> l).

(** [k] placeholders separated by [", "]: ["?, ?, ?"] for [k = 3]. *)
Definition placeholderList (k : nat) : string :=
  String.concat ", " (repeat "?" k).

Definition comma : Ascii.ascii := ","%char.

(** ** Rows, thrown values, and the monad of effectful code *)

(** [SqlStorageValue], what the engine returns:
    [string | number | null | ArrayBuffer]. *)
Inductive SqlStorageValue : Type :=
| SVString (s : string)
| SVNumber (n : Z)
| SVNull
| SVArrayBuffer (bytes : list Byte.byte).

(** [SqlRow = Record<string, SqlStorageValue>]: the columns in order. *)
Definition SqlRow : Type := list (string * SqlStorageValue).

(** [row[column]]; [None] is [undefined]. *)
Fixpoint property (column : string) (row : SqlRow) : option SqlStorageValue :=
  match row with
  | [] => None
  | (key, value) :: row' => if String.eqb key column then Some value else property column row'
  end.

(** [typeof x] for a value read from a row. *)
Definition typeofValue (x : option SqlStorageValue) : string :=
  match x with
  | None => "undefined"
  | Some (SVString _) => "string"
  | Some (SVNumber _) => "number"
  | Some SVNull => "object"
  | Some (SVArrayBuffer _) => "object"
  end.

(** [`${x}`] for a value read from a row. *)
Definition templateText (x : option SqlStorageValue) : string :=
  match x with
  | None => "undefined"
  | Some (SVString s) => s
  | Some (SVNumber n) => pretty n
  | Some SVNull => "null"
  | Some (SVArrayBuffer _) => "[object ArrayBuffer]"
  end.

(** A thrown value: an error object with its class name, its message and
    its optional [cause]. *)
#[warnings="-register-all"]
Inductive JsError : Type :=
| MkError (name : string) (message : string) (cause : option JsError).

Definition errorMessage (e : JsError) : string :=
  match e with MkError _ message _ => message end.
Definition errorCause (e : JsError) : option JsError :=
  match e with MkError _ _ cause => cause end.

(** [new Error(message)] *)
Definition newError (message : string) : JsError := MkError "Error" message None.

(** The error of reading a property of [undefined]. *)
Definition undefinedPropertyError (prop : string) : JsError :=
  MkError "TypeError"
          ("Cannot read properties of undefined (reading '" +:+ prop +:+ "')") None.

(** A computation over a world [W]: it returns a value or throws, and in
    both cases leaves the world it reached. *)
Inductive Outcome (W A : Type) : Type :=
| Returned (a : A) (w : W)
| Threw (e : JsError) (w : W).
Arguments Returned {W A} a w.
Arguments Threw {W A} e w.

Definition M (W A : Type) : Type := W -> Outcome W A.

Definition ret {W A : Type} (a : A) : M W A := fun w => Returned a w.

Definition throw {W A : Type} (e : JsError) : M W A := fun w => Threw e w.

Definition bind {W A B : Type} (c : M W A) (k : A -> M W B) : M W B :=
  fun w =>
    match c w with
    | Returned a w' => k a w'
    | Threw e w' => Threw e w'
    end.

Notation "x <- c ;; k" := (bind c (fun x => k))
  (at level 100, c at next level, right associativity).
Notation "c ;;; k" := (bind c (fun _ => k))
  (at level 100, right associativity).

(** The world an outcome ends in. *)
Definition worldOf {W A : Type} (o : Outcome W A) : W :=
  match o with
  | Returned _ w => w
  | Threw _ w => w
  end.

(** The cursor [sql.exec] returns: [toArray()], [rowsRead], [rowsWritten]. *)
Record SqlStorageCursor : Type := MkCursor {
  toArray : list SqlRow;
  rowsRead : Z;
  rowsWritten : Z
}.

(** The result of [run]. *)
Record RunResult : Type := MkRunResult {
  resultRowsRead : Z;
  resultRowsWritten : Z
}.

(** The second argument of [afterQuery]:
    [SqlRow[] | { rowsRead: number; rowsWritten: number }]. *)
Inductive QueryResult : Type :=
| ResultRows (rows : list SqlRow)
| ResultRun (result : RunResult).

(** [QueryCallbacks]. A callback receives no database handle: it returns or
    throws ([Some e]). *)
Record QueryCallbacks : Type := MkCallbacks {
  beforeQuery : option (string -> option JsError);
  afterQuery : option (string -> QueryResult -> option JsError)
}.

(** [MappedSqlQueryFragment]: a fragment without [map], with a [mapper]. A
    mapper returns the mapped row or throws. *)
Record MappedSqlQueryFragment : Type := MkMapped {
  mapped_build : unit -> PreparedStatement;
  mapped_isEmpty : unit -> bool;
  mapped_templateStrings : list string;
  mapped_templateValues : list TemplateValue;
  mapper : SqlRow -> JsError + SqlRow
}.

(** [fragment.map(mapper)] *)
Definition map_fragment (fragment : SqlQueryFragment)
           (mapper : SqlRow -> JsError + SqlRow) : MappedSqlQueryFragment :=
  match fragment with
  | MkFragment b e strs vals => MkMapped b e strs vals mapper
  end.

(** [FragmentOrStatement] *)
Inductive FragmentOrStatement : Type :=
| Statement (statement : PreparedStatement)
| Fragment (fragment : SqlQueryFragment)
| MappedFragment (fragment : MappedSqlQueryFragment).

(** ["mapper" in statement ? statement.mapper : null] *)
Definition mapperOf (statement : FragmentOrStatement)
  : option (SqlRow -> JsError + SqlRow) :=
  match statement with
  | MappedFragment fragment => Some (mapper fragment)
  | _ => None
  end.

(** [if ("build" in statement) statement = statement.build()] *)
Definition built (statement : FragmentOrStatement) : PreparedStatement :=
  match statement with
  | Statement statement => statement
  | Fragment fragment => build fragment
  | MappedFragment fragment => mapped_build fragment tt
  end.

(** [array.slice(start, end)] on integers: a negative index counts from the
    end, both are clamped to the array. *)
Definition sliceIndex (len : nat) (i : Z) : nat :=
  if (i <? 0)%Z then Z.to_nat (Z.max (Z.of_nat len + i) 0)
  else Nat.min (Z.to_nat i) len.

Definition slice {A : Type} (l : list A) (start stop : Z) : list A :=
  let from := sliceIndex (length l) start in
  let to := sliceIndex (length l) stop in
  take (to - from) (drop from l).

(** [array.slice(start)]: the end is the length of the array. *)
Definition sliceFrom {A : Type} (l : list A) (start : Z) : list A :=
  slice l start (Z.of_nat (length l)).

(** [array[i]] for an integer [i]; [None] is [undefined]. *)
Definition at_index {A : Type} (l : list A) (i : Z) : option A :=
  if (i <? 0)%Z then None else l !! Z.to_nat i.

(** The statements of db-wrapper.ts. *)
Definition doubleQuote : string := String "034"%char EmptyString.
Definition newline : string := String "010"%char EmptyString.

Definition createMetadataSql : string :=
  "CREATE TABLE IF NOT EXISTS metadata (key TEXT PRIMARY KEY, value ANY) STRICT".

Definition selectVersionSql : string :=
  "SELECT value FROM metadata WHERE key = "
  +:+ doubleQuote +:+ "schema_version" +:+ doubleQuote.

(** The literal segments of the template in [migrateDatabase]. *)
Definition upsertStrings : list string :=
  [ "INSERT INTO metadata (key, value)" +:+ newline
    +:+ "               VALUES (" +:+ doubleQuote +:+ "schema_version" +:+ doubleQuote +:+ ", ";
    ")" +:+ newline +:+ "               ON CONFLICT(key) DO UPDATE SET value = ";
    EmptyString ].

(** The statement [migrateDatabase] runs after a step:
    [sql`INSERT INTO metadata ... ${targetVersion} ... ${targetVersion}`]. *)
Definition versionUpsert (targetVersion : Z) : FragmentOrStatement :=
  Fragment (sql upsertStrings
                [Prim (PNumber targetVersion); Prim (PNumber targetVersion)]).

(** ** db-wrapper.ts *)

Section Wrapper.
(** The state behind a [DurableObjectStorage]. *)
Context {Storage : Type}.

(** [storage.sql.exec(query, ...bindings)]: the engine returns a cursor or
    rejects the statement, and leaves a storage. *)
Variable exec : string -> list Primitive -> Storage -> (JsError + SqlStorageCursor) * Storage.

(** A function that receives the database handle ([(db) => void]): what it
    does to the storage is its own; it returns ([None]) or throws. *)
Definition Hook : Type := Storage -> option JsError * Storage.

(** [MigrationVersionDefinition] *)
Record MigrationVersionDefinition : Type := MkMigration {
  name : string;
  beforeMigrate : option Hook;
  migrate : Hook
}.

(** [Options extends QueryCallbacks] *)
Record Options : Type := MkOptions {
  callbacks : QueryCallbacks;
  beforeMigration : option (list MigrationVersionDefinition -> option JsError);
  migrations : option (list MigrationVersionDefinition)
}.

(** What the code of the wrapper does that is visible outside of it, in
    order: its calls to the engine, to [console.log] and to the functions
    it was given. The trace is not a variable of the source, it records
    these calls; what a hook does through the handle it receives shows in
    the storage, not in the trace. *)
Inductive Event : Type :=
| EvExec (query : string) (bindings : list Primitive)
| EvBeforeQuery (query : string)
| EvAfterQuery (query : string) (result : QueryResult)
| EvMapper (row : SqlRow)
| EvLog (message : string)
| EvBeforeMigration (migrationsToApply : list MigrationVersionDefinition)
| EvBeforeMigrate (version : Z)
| EvMigrate (version : Z).

Record World : Type := MkWorld {
  storage : Storage;
  trace : list Event
}.

Definition record (ev : Event) : M World unit :=
  fun w => Returned tt (MkWorld (storage w) (trace w ++ [ev])).

(** [sql.exec(query, ...bindings)] *)
Definition sqlExec (query : string) (bindings : list Primitive) : M World SqlStorageCursor :=
  fun w =>
    let answer := exec query bindings (storage w) in
    let w' := MkWorld answer.2 (trace w ++ [EvExec query bindings]) in
    match answer.1 with
    | inr cursor => Returned cursor w'
    | inl e => Threw e w'
    end.

(** A call of a function that gets no handle: recorded, then its outcome. *)
Definition observe (ev : Event) (outcome : option JsError) : M World unit :=
  record ev ;;;
  match outcome with
  | None => ret tt
  | Some e => throw e
  end.

(** A call [hook(db)]: recorded, then run on the storage. *)
Definition callHook (ev : Event) (hook : Hook) : M World unit :=
  record ev ;;;
  fun w =>
    let w' := MkWorld (hook (storage w)).2 (trace w) in
    match (hook (storage w)).1 with
    | None => Returned tt w'
    | Some e => Threw e w'
    end.

(** [console.log(message)] *)
Definition consoleLog (message : string) : M World unit := record (EvLog message).

(** A [RootDatabaseWrapper] is made by [createWrapper(storage, callbacks)]:
    the storage is the world's, the wrapper is its callbacks. *)
Record RootDatabaseWrapper : Type := MkWrapper {
  wrapperCallbacks : option QueryCallbacks
}.

Definition createWrapper (callbacks : option QueryCallbacks) : RootDatabaseWrapper :=
  MkWrapper callbacks.

(** [callbacks?.beforeQuery?.(query)] *)
Definition callBeforeQuery (db : RootDatabaseWrapper) (query : string) : M World unit :=
  match wrapperCallbacks db with
  | Some cb =>
      match beforeQuery cb with
      | Some f => observe (EvBeforeQuery query) (f query)
      | None => ret tt
      end
  | None => ret tt
  end.

(** [callbacks?.afterQuery?.(query, result)] *)
Definition callAfterQuery (db : RootDatabaseWrapper) (query : string)
           (result : QueryResult) : M World unit :=
  match wrapperCallbacks db with
  | Some cb =>
      match afterQuery cb with
      | Some f => observe (EvAfterQuery query result) (f query result)
      | None => ret tt
      end
  | None => ret tt
  end.

(** [rows.map(mapper)]: the mapper is called on each row in order. *)
Fixpoint mapRows (mapper : SqlRow -> JsError + SqlRow) (rows : list SqlRow)
  : M World (list SqlRow) :=
  match rows with
  | [] => ret []
  | row :: rows' =>
      record (EvMapper row) ;;;
      match mapper row with
      | inl e => throw e
      | inr mapped =>
          mappedRows <- mapRows mapper rows' ;;
          ret (mapped :: mappedRows)
      end
  end.

Definition queryCommon (db : RootDatabaseWrapper) (statement : FragmentOrStatement)
  : M World (list SqlRow) :=
  let mapper := mapperOf statement in
  let statement := built statement in
  callBeforeQuery db (query statement) ;;;
  cursor <- sqlExec (query statement) (valuesOrEmpty statement) ;;
  let rows := toArray cursor in
  callAfterQuery db (query statement) (ResultRows rows) ;;;
  match mapper with
  | Some mapper => mapRows mapper rows
  | None => ret rows
  end.

Definition run (db : RootDatabaseWrapper) (statement : FragmentOrStatement)
  : M World RunResult :=
  let statement := built statement in
  callBeforeQuery db (query statement) ;;;
  cursor <- sqlExec (query statement) (valuesOrEmpty statement) ;;
  let result := MkRunResult (rowsRead cursor) (rowsWritten cursor) in
  callAfterQuery db (query statement) (ResultRun result) ;;;
  ret result.

Definition queryNone (db : RootDatabaseWrapper) (statement : FragmentOrStatement)
  : M World unit :=
  rows <- queryCommon db statement ;;
  if (0 <? length rows)%nat
  then throw (newError ("Expected no rows, got " +:+ pretty (length rows)))
  else ret tt.

(** [null] is [None]. *)
Definition queryNoneOrOne (db : RootDatabaseWrapper) (statement : FragmentOrStatement)
  : M World (option SqlRow) :=
  rows <- queryCommon db statement ;;
  if (1 <? length rows)%nat
  then throw (newError ("Expected at most one row, got " +:+ pretty (length rows)))
  else ret (if (length rows =? 1)%nat then rows !! 0%nat else None).

(** [rows[0]!] is read only when [rows.length === 1]. *)
Definition queryOne (db : RootDatabaseWrapper) (statement : FragmentOrStatement)
  : M World SqlRow :=
  rows <- queryCommon db statement ;;
  if negb (length rows =? 1)%nat
  then throw (newError ("Expected one row, got " +:+ pretty (length rows)))
  else ret (rows !!! 0%nat).

Definition queryMany (db : RootDatabaseWrapper) (statement : FragmentOrStatement)
  : M World (list SqlRow) :=
  queryCommon db statement.

(** [getSchemaVersion(sql)]. After the check, [result[0]?.value ?? 0] is the
    number of the first row, or [0] when there is no row. *)
Definition getSchemaVersion : M World Z :=
  sqlExec createMetadataSql [] ;;;
  cursor <- sqlExec selectVersionSql [] ;;
  let result := toArray cursor in
  let value := result !! 0%nat ≫= property "value" in
  if (0 <? length result)%nat && negb (String.eqb (typeofValue value) "number")
  then throw (newError ("Invalid schema_version: " +:+ templateText value
                        +:+ " (" +:+ typeofValue value +:+ ")"))
  else ret (match value with
            | Some (SVNumber n) => n
            | _ => 0%Z
            end).

(** The value [getMigrationStatus] returns. *)
Record MigrationStatus : Type := MkStatus {
  currentVersion : Z;
  targetVersion : Z;
  migrationsToApply : list MigrationVersionDefinition
}.

Definition getMigrationStatus (migrations : list MigrationVersionDefinition)
  : M World MigrationStatus :=
  currentVersion <- getSchemaVersion ;;
  let targetVersion := Z.of_nat (length migrations) in
  let migrationsToApply := sliceFrom migrations currentVersion in
  ret (MkStatus currentVersion targetVersion migrationsToApply).

(** The body of the loop of [migrateDatabase] for one [version]. *)
Definition migrateStep (db : RootDatabaseWrapper)
           (versions : list MigrationVersionDefinition) (version : Z) : M World unit :=
  match at_index versions version with
  | None => throw (undefinedPropertyError "name")
  | Some definition =>
      let targetVersion := (version + 1)%Z in
      consoleLog ("Migrating database to version " +:+ pretty targetVersion
                  +:+ ": " +:+ name definition +:+ "...") ;;;
      match beforeMigrate definition with
      | Some hook => callHook (EvBeforeMigrate version) hook
      | None => ret tt
      end ;;;
      callHook (EvMigrate version) (migrate definition) ;;;
      run db (versionUpsert targetVersion) ;;;
      ret tt
  end.

(** [for (let version = ...; version < versions.length; version++)], by the
    number of iterations that are left. *)
Fixpoint migrateLoop (db : RootDatabaseWrapper)
         (versions : list MigrationVersionDefinition) (iterations : nat) (version : Z)
  : M World unit :=
  match iterations with
  | O => ret tt
  | S iterations' =>
      migrateStep db versions version ;;;
      migrateLoop db versions iterations' (version + 1)%Z
  end.

Definition migrateDatabase (db : RootDatabaseWrapper)
           (versions : list MigrationVersionDefinition) (options : Options) : M World unit :=
  initialVersion <- getSchemaVersion ;;
  let finalTargetVersion := Z.of_nat (length versions) in
  if (initialVersion =? finalTargetVersion)%Z then ret tt
  else
    let migrationsToApply := slice versions initialVersion finalTargetVersion in
    match beforeMigration options with
    | Some f => observe (EvBeforeMigration migrationsToApply) (f migrationsToApply)
    | None => ret tt
    end ;;;
    migrateLoop db versions (Z.to_nat (finalTargetVersion - initialVersion)) initialVersion.

Definition wrapDatabase (options : option Options) : M World RootDatabaseWrapper :=
  let wrapper := createWrapper (callbacks <$> options) in
  match options ≫= migrations with
  | Some versions =>
      match options with
      | Some options => migrateDatabase wrapper versions options ;;; ret wrapper
      | None => ret wrapper
      end
  | None => ret wrapper
  end.
End Wrapper.

(** ** The storage engine, as far as the metadata relation goes

    A model of the engine behind [sql.exec], for the three statements
    [getSchemaVersion] and [migrateDatabase] issue. The relation
    [metadata (key TEXT PRIMARY KEY, value ANY)] is a finite map from keys
    to values, absent until it is created; the rest of the database is
    [userData]. Every other statement is the business of [engine]. The row
    counts of the cursors are nominal. *)

Record MemStorage (U : Type) : Type := MkMem {
  metadata : option (gmap string SqlStorageValue);
  userData : U
}.
Arguments MkMem {U} metadata userData.
Arguments metadata {U} _.
Arguments userData {U} _.

(** The bytes a view addresses. *)
Definition addressedBytes (buffer : list Byte.byte) (byteOffset byteLength : nat)
  : list Byte.byte :=
  take byteLength (drop byteOffset buffer).

(** How the engine stores a bound parameter (the comment on [Primitive] in
    sql-tag.ts: booleans become ["true"] / ["false"], [undefined] becomes
    [null], a [Uint8Array] comes back as an [ArrayBuffer]). *)
Definition bindValue (p : Primitive) : SqlStorageValue :=
  match p with
  | PString s => SVString s
  | PNumber n => SVNumber n
  | PBoolean true => SVString "true"
  | PBoolean false => SVString "false"
  | PNull => SVNull
  | PUndefined => SVNull
  | PArrayBuffer bytes => SVArrayBuffer bytes
  | PUint8Array buffer byteOffset byteLength =>
      SVArrayBuffer (addressedBytes buffer byteOffset byteLength)
  end.

(** The text of the upsert, as the engine receives it. *)
Definition upsertSql : string :=
  query (build (sql upsertStrings [Prim PNull; Prim PNull])).

Definition schemaVersionKey : string := "schema_version".

(** The row stored under ["schema_version"], if any. *)
Definition persisted {U : Type} (s : MemStorage U) : option SqlStorageValue :=
  metadata s ≫= lookup schemaVersionKey.

(** [CREATE TABLE IF NOT EXISTS metadata ...] *)
Definition ensureMetadata {U : Type} (s : MemStorage U) : MemStorage U :=
  MkMem (Some (default ∅ (metadata s))) (userData s).

Definition noSuchTable : JsError := MkError "Error" "no such table: metadata: SQLITE_ERROR" None.
Definition wrongBindings : JsError :=
  MkError "Error" "Wrong number of parameter bindings for SQL query." None.

Section MemoryEngine.
Context {U : Type}.
Variable engine : string -> list Primitive -> MemStorage U
                  -> (JsError + SqlStorageCursor) * MemStorage U.

Definition memExec (query : string) (bindings : list Primitive) (s : MemStorage U)
  : (JsError + SqlStorageCursor) * MemStorage U :=
  if String.eqb query createMetadataSql then
    (inr (MkCursor [] 0 0), ensureMetadata s)
  else if String.eqb query selectVersionSql then
    match metadata s with
    | None => (inl noSuchTable, s)
    | Some m =>
        match m !! schemaVersionKey with
        | Some value => (inr (MkCursor [[("value", value)]] 1 0), s)
        | None => (inr (MkCursor [] 0 0), s)
        end
    end
  else if String.eqb query upsertSql then
    match metadata s, bindings with
    | None, _ => (inl noSuchTable, s)
    | Some m, [inserted; updated] =>
        let value := match m !! schemaVersionKey with
                     | None => bindValue inserted
                     | Some _ => bindValue updated
                     end in
        (inr (MkCursor [] 0 1), MkMem (Some (<[schemaVersionKey := value]> m)) (userData s))
    | Some _, _ => (inl wrongBindings, s)
    end
  else engine query bindings s.
End MemoryEngine.

(** The schema version a storage holds, as [getSchemaVersion] reads it:
    [0] without a row, the number of the row, nothing for a row that is not
    a number. *)
Definition schemaVersionOf {U : Type} (s : MemStorage U) : option Z :=
  match persisted s with
  | None => Some 0%Z
  | Some (SVNumber n) => Some n
  | Some _ => None
  end.

(** ** Notions the specification uses that the code has no name for *)

(** The coercion table of the specification (its ValueCoercer). *)
Definition specCoerce (p : Primitive) : Primitive :=
  match p with
  | PString s => PString s
  | PNumber n => PNumber n
  | PBoolean true => PString "true"
  | PBoolean false => PString "false"
  | PNull => PNull
  | PUndefined => PNull
  | PArrayBuffer bytes => PArrayBuffer bytes
  | PUint8Array buffer byteOffset byteLength =>
      PArrayBuffer (addressedBytes buffer byteOffset byteLength)
  end.

(** The inputs the table leaves as they are. *)
Definition coercionFree (p : Primitive) : bool :=
  match p with
  | PString _ | PNumber _ | PNull | PArrayBuffer _ => true
  | PBoolean _ | PUndefined | PUint8Array _ _ _ => false
  end.

(** [needle] occurs in [text]. *)
Definition mentions (needle text : string) : bool :=
  match String.index 0 needle text with
  | Some _ => true
  | None => false
  end.

(** The MigrationStepError of the specification: an error that wraps the
    original cause and names the failing step and its target version. *)
Definition annotatedStepError (e cause : JsError) (stepName : string)
           (targetVersion : Z) : bool :=
  match errorCause e with
  | Some (MkError n m c) =>
      match cause with
      | MkError n' m' _ => String.eqb n n' && String.eqb m m'
      end
  | None => false
  end
  && mentions stepName (errorMessage e)
  && mentions (pretty targetVersion) (errorMessage e).

(** ** Names for what the theorems talk about *)

(** The two statements [getSchemaVersion] runs. *)
Definition readEvents {Storage : Type} : list (@Event Storage) :=
  [EvExec createMetadataSql []; EvExec selectVersionSql []].

(** The error [getSchemaVersion] throws for a stored value. *)
Definition invalidVersionError (value : SqlStorageValue) : JsError :=
  newError ("Invalid schema_version: " +:+ templateText (Some value)
            +:+ " (" +:+ typeofValue (Some value) +:+ ")").

(** [typeof value === "number"] for a stored value. *)
Definition isNumber (value : SqlStorageValue) : bool :=
  match value with
  | SVNumber _ => true
  | _ => false
  end.

(** An engine that knows no statement beside the three of the model. *)
Definition noEngine {U : Type} (query : string) (bindings : list Primitive)
           (s : MemStorage U) : (JsError + SqlStorageCursor) * MemStorage U :=
  (inl (MkError "Error" ("unsupported statement: " +:+ query) None), s).

(** ** Reading a trace *)

Section Traces.
Context {Storage : Type}.

(** The call of a hook of a migration step. *)
Definition isHookEvent (ev : @Event Storage) : bool :=
  match ev with
  | EvBeforeMigrate _ | EvMigrate _ => true
  | _ => false
  end.

(** The call of the [beforeMigration] option. *)
Definition isObserverEvent (ev : @Event Storage) : bool :=
  match ev with
  | EvBeforeMigration _ => true
  | _ => false
  end.

(** The calls a migration run is about: the statements it sends to the
    engine, the [beforeMigration] option and the hooks of the steps. The
    query callbacks and [console.log] are left out. *)
Definition isCall (ev : @Event Storage) : bool :=
  match ev with
  | EvExec _ _ | EvBeforeMigration _ | EvBeforeMigrate _ | EvMigrate _ => true
  | _ => false
  end.

Definition calls (events : list (@Event Storage)) : list (@Event Storage) :=
  List.filter isCall events.

(** The last event of a trace is the call of a hook. *)
Definition endsInHook (events : list (@Event Storage)) : bool :=
  match last events with
  | Some ev => isHookEvent ev
  | None => false
  end.

(** The call of the optional [beforeMigrate] of a step. *)
Definition beforeCalls (definition : @MigrationVersionDefinition Storage) (version : Z)
  : list (@Event Storage) :=
  match beforeMigrate definition with
  | Some _ => [EvBeforeMigrate version]
  | None => []
  end.

(** The calls of one completed step: the optional [beforeMigrate], then
    [migrate], then the upsert of [version + 1]. *)
Definition stepCalls (definition : @MigrationVersionDefinition Storage) (version : Z)
  : list (@Event Storage) :=
  beforeCalls definition version
  ++ [EvMigrate version;
      EvExec upsertSql [PNumber (version + 1); PNumber (version + 1)]].

Definition stepCallsAt (versions : list (@MigrationVersionDefinition Storage)) (version : Z)
  : list (@Event Storage) :=
  match at_index versions version with
  | Some definition => stepCalls definition version
  | None => []
  end.

(** The calls of the completed steps [version], [version + 1], ...,
    [version + count - 1], in this order. *)
Definition pendingCalls (versions : list (@MigrationVersionDefinition Storage))
           (version : Z) (count : nat) : list (@Event Storage) :=
  flat_map (stepCallsAt versions) (seqZ version (Z.of_nat count)).

(** The call of [beforeMigration], when the option is there and the
    persisted version is not the number of migrations. *)
Definition observerCalls (options : @Options Storage)
           (versions : list (@MigrationVersionDefinition Storage)) (v : Z)
  : list (@Event Storage) :=
  match beforeMigration options with
  | Some _ =>
      if (v =? Z.of_nat (length versions))%Z then []
      else [EvBeforeMigration (slice versions v (Z.of_nat (length versions)))]
  | None => []
  end.
End Traces.

(** A computation that only adds events of the kind [P] to the trace,
    whatever its outcome. *)
Definition tracesOnly {Storage A : Type} (P : @Event Storage -> bool)
           (c : M (@World Storage) A) : Prop :=
  forall w, exists events,
      trace (worldOf (c w)) = trace w ++ events /\ forallb P events = true.

(** ** Hooks that fail, hooks that leave the version alone *)

Section HookFailures.
Context {U : Type}.

(** The storage a step's [migrate] starts from: the one its [beforeMigrate]
    left, if it has one. *)
Definition storageAfterBefore (definition : @MigrationVersionDefinition (MemStorage U))
           (s : MemStorage U) : MemStorage U :=
  match beforeMigrate definition with
  | Some hook => (hook s).2
  | None => s
  end.

(** The [beforeMigrate] of a step, if any, returns on [s]. *)
Definition beforeReturns (definition : @MigrationVersionDefinition (MemStorage U))
           (s : MemStorage U) : Prop :=
  match beforeMigrate definition with
  | Some hook => (hook s).1 = None
  | None => True
  end.

(** A hook of the step [version] throws [e] when the step starts on the
    storage [s]: the error, the storage the hook left and the hook calls of
    the step up to the failing one. *)
Inductive HookFailure (definition : @MigrationVersionDefinition (MemStorage U))
          (version : Z) (s : MemStorage U)
  : JsError -> MemStorage U -> list (@Event (MemStorage U)) -> Prop :=
| BeforeMigrateFailed (hook : Hook) (e : JsError) :
    beforeMigrate definition = Some hook ->
    (hook s).1 = Some e ->
    HookFailure definition version s e (hook s).2 [EvBeforeMigrate version]
| MigrateFailed (e : JsError) :
    beforeReturns definition s ->
    (migrate definition (storageAfterBefore definition s)).1 = Some e ->
    HookFailure definition version s e
                (migrate definition (storageAfterBefore definition s)).2
                (beforeCalls definition version ++ [EvMigrate version]).

(** A hook that does not touch the row of the schema version. *)
Definition keepsVersion (hook : @Hook (MemStorage U)) : Prop :=
  forall s, persisted (hook s).2 = persisted s.

Definition hooksKeepVersion (versions : list (@MigrationVersionDefinition (MemStorage U)))
  : Prop :=
  Forall (fun definition =>
            keepsVersion (migrate definition)
            /\ forall hook, beforeMigrate definition = Some hook -> keepsVersion hook)
         versions.
(** A hook that returns on every storage and does not drop the metadata
    relation. *)
Definition completes (hook : @Hook (MemStorage U)) : Prop :=
  forall s, (hook s).1 = None
            /\ (is_Some (metadata s) -> is_Some (metadata (hook s).2)).

Definition hooksComplete (versions : list (@MigrationVersionDefinition (MemStorage U)))
  : Prop :=
  Forall (fun definition =>
            completes (migrate definition)
            /\ forall hook, beforeMigrate definition = Some hook -> completes hook)
         versions.

(** Query callbacks that return on every call. *)
Definition callbacksReturn (db : RootDatabaseWrapper) : Prop :=
  forall cb, wrapperCallbacks db = Some cb ->
             (forall f, beforeQuery cb = Some f -> forall q, f q = None)
             /\ (forall f, afterQuery cb = Some f -> forall q result, f q result = None).

(** A [beforeMigration] option that returns on every call. *)
Definition observerReturns (options : @Options (MemStorage U)) : Prop :=
  forall f, beforeMigration options = Some f -> forall ms, f ms = None.
End HookFailures.

(** ** Sample data for the examples *)

Definition alice : SqlRow :=
  [("id", SVString "user1"); ("name", SVString "Alice")].
Definition bob : SqlRow :=
  [("id", SVString "user2"); ("name", SVString "Bob")].

(** An engine over a storage without state that answers every statement
    with the given rows. *)
Definition answering (rows : list SqlRow) (query : string) (bindings : list Primitive)
           (s : unit) : (JsError + SqlStorageCursor) * unit :=
  (inr (MkCursor rows (Z.of_nat (length rows)) 0), s).

Definition selectUsers : SqlQueryFragment := sql ["SELECT * FROM users"] [].

(** A mapper that keeps the [name] column only. *)
Definition nameOnly (row : SqlRow) : JsError + SqlRow :=
  inr (match property "name" row with
       | Some value => [("name", value)]
       | None => []
       end).

(** A mapper that throws on every row. *)
Definition mapperError : JsError := newError "mapper failed".
Definition failingMapper (row : SqlRow) : JsError + SqlRow := inl mapperError.

(** A database whose [userData] is the list of its tables. *)
Definition emptyStorage : MemStorage (list string) := MkMem None [].

Definition createTable (table : string) : @Hook (MemStorage (list string)) :=
  fun s => (None, MkMem (metadata s) (userData s ++ [table])).

Definition checkOnly : @Hook (MemStorage (list string)) := fun s => (None, s).

(** A hook that throws after it changed the database. *)
Definition tableExists : JsError := newError "table posts already exists".
Definition failingCreate : @Hook (MemStorage (list string)) :=
  fun s => (Some tableExists, MkMem (metadata s) (userData s ++ ["posts_tmp"])).

Definition createUsers : @MigrationVersionDefinition (MemStorage (list string)) :=
  MkMigration "Create users table" None (createTable "users").
Definition addPosts : @MigrationVersionDefinition (MemStorage (list string)) :=
  MkMigration "Add posts table" (Some checkOnly) (createTable "posts").
Definition addPostsFailing : @MigrationVersionDefinition (MemStorage (list string)) :=
  MkMigration "Add posts table" (Some checkOnly) failingCreate.

Definition noCallbacks : QueryCallbacks := MkCallbacks None None.

(** Options with a [beforeMigration] that returns. *)
Definition observedOptions (versions : list (@MigrationVersionDefinition (MemStorage (list string))))
  : @Options (MemStorage (list string)) :=
  MkOptions noCallbacks (Some (fun _ => None)) (Some versions).

(** A storage that holds the schema version [n]. *)
Definition storageAt (n : Z) (tables : list string) : MemStorage (list string) :=
  MkMem (Some {[ schemaVersionKey := SVNumber n ]}) tables.

(** ** More of sql-tag.ts: names for the properties of [expand] *)

(** [st] after what [d] holds was emitted behind it. *)
Definition extend (st d : ExpandState) : ExpandState :=
  MkExpandState (st_query st +:+ st_query d) (st_values st ++ st_values d).

(** The state [expandTemplate] starts from. *)
Definition emptyState : ExpandState := MkExpandState EmptyString [].

(** A tree with every scalar replaced by [null]: the shape of the tree and
    its literal segments, without the values. *)
Fixpoint eraseValue (value : TemplateValue) : TemplateValue :=
  match value with
  | Prim _ => Prim PNull
  | Frag (MkFragment b e strs vals) => Frag (MkFragment b e strs (List.map eraseValue vals))
  end.

(** A placeholder before each of the segments: ["?s1?s2..."]. *)
Fixpoint holes (rest : list string) : string :=
  match rest with
  | [] => EmptyString
  | s :: rest' => "?" +:+ s +:+ holes rest'
  end.

(** ** More of db-wrapper.ts: [pragma], [pragmaFull], [withCallbacks] *)

(** A value of a row as a [Primitive] ([... as Primitive]). *)
Definition toPrimitive (value : SqlStorageValue) : Primitive :=
  match value with
  | SVString s => PString s
  | SVNumber n => PNumber n
  | SVNull => PNull
  | SVArrayBuffer bytes => PArrayBuffer bytes
  end.

(** [rows[0] ? Object.values(rows[0])[0] : null]: a row is its values in
    the order [Object.values] lists them; a row without column gives
    [undefined]. *)
Definition firstValue (rows : list SqlRow) : Primitive :=
  match rows !! 0%nat with
  | Some row =>
      match row with
      | (_, value) :: _ => toPrimitive value
      | [] => PUndefined
      end
  | None => PNull
  end.

(** The argument of [withCallbacks], an object spread over the callbacks of
    the wrapper: a key is absent ([None]), or present with a function or
    with [undefined] ([Some None]). *)
Record CallbacksPatch : Type := MkPatch {
  patchBeforeQuery : option (option (string -> option JsError));
  patchAfterQuery : option (option (string -> QueryResult -> option JsError))
}.

(** [{ ...callbacks, ...newCallbacks }] *)
Definition spreadCallbacks (callbacks : option QueryCallbacks)
           (newCallbacks : CallbacksPatch) : QueryCallbacks :=
  MkCallbacks
    (match patchBeforeQuery newCallbacks with
     | Some f => f
     | None => callbacks ≫= beforeQuery
     end)
    (match patchAfterQuery newCallbacks with
     | Some f => f
     | None => callbacks ≫= afterQuery
     end).

(** [withCallbacks: (newCallbacks) => createWrapper(storage, {...})] *)
Definition withCallbacks (db : RootDatabaseWrapper) (newCallbacks : CallbacksPatch)
  : RootDatabaseWrapper :=
  createWrapper (Some (spreadCallbacks (wrapperCallbacks db) newCallbacks)).

Section WrapperRest.
Context {Storage : Type}.
Variable exec : string -> list Primitive -> Storage -> (JsError + SqlStorageCursor) * Storage.

(** [pragma: (pragma) => ...] *)
Definition pragma (db : RootDatabaseWrapper) (pragma : string)
  : M (@World Storage) Primitive :=
  let query := "PRAGMA " +:+ pragma in
  callBeforeQuery db query ;;;
  cursor <- sqlExec exec query [] ;;
  let rows := toArray cursor in
  let result := firstValue rows in
  callAfterQuery db query (ResultRows rows) ;;;
  ret result.

(** [pragmaFull: (pragma) => ...] *)
Definition pragmaFull (db : RootDatabaseWrapper) (pragma : string)
  : M (@World Storage) (list SqlRow) :=
  let query := "PRAGMA " +:+ pragma in
  callBeforeQuery db query ;;;
  cursor <- sqlExec exec query [] ;;
  let result := toArray cursor in
  callAfterQuery db query (ResultRows result) ;;;
  ret result.
End WrapperRest.

(** The outcome of a computation with its value changed by [f]. *)
Definition mapOutcome {W A B : Type} (f : A -> B) (o : Outcome W A) : Outcome W B :=
  match o with
  | Returned a w => Returned (f a) w
  | Threw e w => Threw e w
  end.

(** Two states of [expand] with the same text and as many values. *)
Definition sameText (st st' : ExpandState) : Prop :=
  st_query st = st_query st' /\ length (st_values st) = length (st_values st').

(** ** More sample data *)

(** Callbacks whose [beforeQuery] throws. *)
Definition notNow : JsError := newError "not now".
Definition refusing : QueryCallbacks := MkCallbacks (Some (fun _ => Some notNow)) None.

(** The row [nameOnly] returns. *)
Definition nameColumn (row : SqlRow) : SqlRow :=
  match property "name" row with
  | Some value => [("name", value)]
  | None => []
  end.

(** ** The storage a migration run leaves *)

Section StepStorages.
Context {U : Type}.

(** The row ["schema_version"] set to [t], as the upsert leaves it; a
    storage without the metadata relation is left as it is (the statement
    throws there). *)
Definition setVersion (t : Z) (s : MemStorage U) : MemStorage U :=
  match metadata s with
  | Some m => MkMem (Some (<[schemaVersionKey := SVNumber t]> m)) (userData s)
  | None => s
  end.

(** Both hooks of a step return when the step starts on [s]: its
    [beforeMigrate], if it has one, and then its [migrate], on the storage
    [beforeMigrate] left. *)
Definition hooksReturn (definition : @MigrationVersionDefinition (MemStorage U))
           (s : MemStorage U) : Prop :=
  beforeReturns definition s
  /\ (migrate definition (storageAfterBefore definition s)).1 = None.

(** The storage [migrate] leaves, run on what [beforeMigrate] left. *)
Definition storageAfterHooks (definition : @MigrationVersionDefinition (MemStorage U))
           (s : MemStorage U) : MemStorage U :=
  (migrate definition (storageAfterBefore definition s)).2.

(** The storage a completed step leaves: the hooks ran, then the row was
    set to [version + 1]. *)
Definition applyStep (definition : @MigrationVersionDefinition (MemStorage U))
           (version : Z) (s : MemStorage U) : MemStorage U :=
  setVersion (version + 1) (storageAfterHooks definition s).

(** The storage the completed steps [version], ..., [version + count - 1]
    leave, each one started on the storage the one before left. *)
Fixpoint applySteps (versions : list (@MigrationVersionDefinition (MemStorage U)))
         (count : nat) (version : Z) (s : MemStorage U) : MemStorage U :=
  match count with
  | O => s
  | S count' =>
      match at_index versions version with
      | Some definition =>
          applySteps versions count' (version + 1) (applyStep definition version s)
      | None => s
      end
  end.

(** The steps [version], ..., [version + count - 1] are there, and the
    hooks of each return on the storage the step starts from and leave the
    metadata relation in place. *)
Fixpoint stepsReturn (versions : list (@MigrationVersionDefinition (MemStorage U)))
         (count : nat) (version : Z) (s : MemStorage U) : Prop :=
  match count with
  | O => True
  | S count' =>
      match at_index versions version with
      | Some definition =>
          hooksReturn definition s
          /\ is_Some (metadata (storageAfterHooks definition s))
          /\ stepsReturn versions count' (version + 1) (applyStep definition version s)
      | None => False
      end
  end.
End StepStorages.

(** * Properties *)

(** ** Strings and lists *)

Lemma string_app_nil_l (a : string) : EmptyString +:+ a = a.
Proof. reflexivity. Qed.

Lemma string_app_cons (ch : ascii) (a b : string) :
  String ch a +:+ b = String ch (a +:+ b).
Proof. reflexivity. Qed.

Lemma string_app_assoc (a b c : string) : (a +:+ b) +:+ c = a +:+ (b +:+ c).
Proof.
  induction a as [|ch a IH]; [reflexivity|].
  rewrite !string_app_cons. now rewrite IH.
Qed.

Lemma string_app_nil_r (a : string) : a +:+ EmptyString = a.
Proof.
  induction a as [|ch a IH]; [reflexivity|].
  rewrite string_app_cons. now rewrite IH.
Qed.

Lemma countChar_app c (a b : string) :
  countChar c (a +:+ b) = (countChar c a + countChar c b)%nat.
Proof.
  induction a as [|ch a IH]; [reflexivity|].
  rewrite string_app_cons. simpl. rewrite IH. lia.
Qed.

Lemma countCharIn_app c (l1 l2 : list string) :
  countCharIn c (l1 ++ l2) = (countCharIn c l1 + countCharIn c l2)%nat.
Proof. unfold countCharIn. now rewrite fmap_app, list_sum_app. Qed.

Lemma countCharIn_cons c (s : string) (l : list string) :
  countCharIn c (s :: l) = (countChar c s + countCharIn c l)%nat.
Proof. reflexivity. Qed.

Lemma render_app (ps qs : list Piece) : render (ps ++ qs) = render ps +:+ render qs.
Proof.
  induction ps as [|[s|p] ps IH]; simpl; [reflexivity | |]; rewrite IH.
  - now rewrite string_app_assoc.
  - reflexivity.
Qed.

Lemma placeholders_app (ps qs : list Piece) :
  placeholders (ps ++ qs) = placeholders ps ++ placeholders qs.
Proof. induction ps as [|[s|p] ps IH]; simpl; [reflexivity | |]; now rewrite IH. Qed.

Lemma literals_app (ps qs : list Piece) :
  literals (ps ++ qs) = literals ps ++ literals qs.
Proof. induction ps as [|[s|p] ps IH]; simpl; [reflexivity | |]; now rewrite IH. Qed.

(** The ["?"] characters of a rendered text are its placeholders and the
    ones its literals already contain. *)
Lemma countChar_render (ps : list Piece) :
  countChar questionMark (render ps)
  = (length (placeholders ps) + countCharIn questionMark (literals ps))%nat.
Proof.
  induction ps as [|[s|p] ps IH]; simpl; [reflexivity | |].
  - rewrite countChar_app, IH, countCharIn_cons. lia.
  - rewrite ?string_app_cons, ?string_app_nil_l. simpl. rewrite IH. lia.
Qed.

(** ** Induction over fragment trees *)

(** The induction principle the nested type needs: a fragment's values all
    satisfy the predicate. *)
Lemma TemplateValue_tree_ind (P : TemplateValue -> Prop) :
  (forall p, P (Prim p)) ->
  (forall b e strs vals, Forall P vals -> P (Frag (MkFragment b e strs vals))) ->
  forall value, P value.
Proof.
  intros HP HF.
  fix IH 1.
  intros [p | [b e strs vals]].
  - apply HP.
  - apply HF.
    induction vals as [|v vals IHvals]; constructor.
    + apply IH.
    + apply IHvals.
Qed.

(** ** Flattening *)

Lemma emitted_nil st : emitted st [] = st.
Proof.
  destruct st as [q vs]. unfold emitted. simpl.
  now rewrite string_app_nil_r, app_nil_r.
Qed.

Lemma emitted_app st ps qs : emitted (emitted st ps) qs = emitted st (ps ++ qs).
Proof.
  unfold emitted. simpl.
  now rewrite render_app, placeholders_app, string_app_assoc, app_assoc.
Qed.

Lemma appendQuery_emitted s st : appendQuery s st = emitted st [Literal s].
Proof.
  unfold appendQuery, emitted. simpl.
  now rewrite string_app_nil_r, app_nil_r.
Qed.

Lemma pushValue_emitted p st : pushValue p st = emitted st [Placeholder p].
Proof. reflexivity. Qed.

(** The loop over the slots, given that each slot behaves as its pieces. *)
Lemma expandSlots_emitted (vals : list TemplateValue) :
  Forall (fun value => wfValue value = true ->
            forall st, expandValue value st = emitted st (piecesOf value)) vals ->
  forallb wfValue vals = true ->
  forall rest st, length rest = length vals ->
  expandSlots expandValue vals rest st = emitted st (spliceSlots piecesOf vals rest).
Proof.
  induction 1 as [|value vals Hvalue _ IH]; intros Hwf rest st Hlen.
  - destruct rest; [|discriminate]. simpl. now rewrite emitted_nil.
  - destruct rest as [|s rest]; [discriminate|].
    simpl in Hwf. apply andb_prop in Hwf as [Hv Hvs].
    simpl. rewrite IH by (auto; simpl in Hlen; lia).
    rewrite Hvalue by exact Hv.
    rewrite appendQuery_emitted, !emitted_app.
    reflexivity.
Qed.

Lemma expandValue_emitted (value : TemplateValue) :
  wfValue value = true ->
  forall st, expandValue value st = emitted st (piecesOf value).
Proof.
  induction value as [p | b e strs vals IH] using TemplateValue_tree_ind;
    intros Hwf st.
  - reflexivity.
  - simpl in Hwf. apply andb_prop in Hwf as [Hlen Hvs].
    apply Nat.eqb_eq in Hlen.
    destruct strs as [|s0 rest]; [simpl in Hlen; lia|].
    simpl. rewrite (expandSlots_emitted vals IH Hvs) by (simpl in Hlen; lia).
    rewrite appendQuery_emitted, emitted_app. reflexivity.
Qed.

(** *** The loop of [expand], index by index *)

Lemma expandSlots_no_values (rest : list string) (st : ExpandState) :
  expandSlots expandValue [] rest st = expandMissing rest st.
Proof. destruct rest; reflexivity. Qed.

Lemma expandMissing_by_index (rest : list string) :
  forall (st : ExpandState) (before : list string) (vals : list TemplateValue),
    (length vals < length before)%nat ->
    expandMissing rest st
    = foldl (expandIteration (before ++ rest) vals) st
            (seq (length before) (length rest)).
Proof.
  induction rest as [|s rest IH]; intros st before vals Hlen; [reflexivity|].
  cbn [length seq foldl expandMissing].
  assert (Hs : (before ++ s :: rest) !! length before = Some s).
  { rewrite lookup_app_r by reflexivity. now rewrite Nat.sub_diag. }
  assert (Hi : (0 <? length before)%nat = true) by (apply Nat.ltb_lt; lia).
  unfold expandIteration at 2. rewrite Hs, Hi.
  rewrite (lookup_ge_None_2 vals (length before - 1)) by lia.
  cbn [default from_option id expandValue].
  rewrite (IH _ (before ++ [s]) vals) by (rewrite length_app; cbn; lia).
  rewrite length_app, <- app_assoc. cbn [length app].
  now rewrite Nat.add_1_r.
Qed.

Lemma expandSlots_by_index (rest : list string) :
  forall (vals : list TemplateValue) (st : ExpandState)
         (before : list string) (used : list TemplateValue),
    length before = S (length used) ->
    expandSlots expandValue vals rest st
    = foldl (expandIteration (before ++ rest) (used ++ vals)) st
            (seq (length before) (length rest)).
Proof.
  induction rest as [|s rest IH]; intros vals st before used Hlen.
  - now destruct vals.
  - destruct vals as [|value vals].
    + rewrite expandSlots_no_values, app_nil_r.
      apply expandMissing_by_index. lia.
    + cbn [length seq foldl expandSlots].
      assert (Hs : (before ++ s :: rest) !! length before = Some s).
      { rewrite lookup_app_r by reflexivity. now rewrite Nat.sub_diag. }
      assert (Hi : (0 <? length before)%nat = true) by (apply Nat.ltb_lt; lia).
      unfold expandIteration at 2. rewrite Hs, Hi.
      replace (length before - 1)%nat with (length used) by lia.
      rewrite lookup_app_r by reflexivity. rewrite Nat.sub_diag.
      cbn [lookup list_lookup default from_option id].
      rewrite (IH vals _ (before ++ [s]) (used ++ [value]))
        by (rewrite !length_app; cbn; lia).
      rewrite length_app, <- !app_assoc. cbn [length app].
      now rewrite Nat.add_1_r.
Qed.

(** [expand] is the loop of the source:
    [for (let i = 0; i < templateStrings.length; i++)], with the body
    [expandIteration]. *)
Lemma expand_by_index (strs : list string) (vals : list TemplateValue)
      (st : ExpandState) :
  expand strs vals st = foldl (expandIteration strs vals) st (seq 0 (length strs)).
Proof.
  unfold expand, expandLoop. destruct strs as [|s0 rest]; [reflexivity|].
  cbn [length seq foldl].
  rewrite (expandSlots_by_index rest vals _ [s0] []) by reflexivity.
  reflexivity.
Qed.

Lemma placeholders_spliceSlots (vals : list TemplateValue) :
  Forall (fun value => wfValue value = true ->
            placeholders (piecesOf value) = scalarSlots value) vals ->
  forallb wfValue vals = true ->
  forall rest, length rest = length vals ->
  placeholders (spliceSlots piecesOf vals rest) = flat_map scalarSlots vals.
Proof.
  induction 1 as [|value vals Hvalue _ IH]; intros Hwf rest Hlen.
  - reflexivity.
  - destruct rest as [|s rest]; [discriminate|].
    simpl in Hwf. apply andb_prop in Hwf as [Hv Hvs].
    simpl. rewrite placeholders_app. simpl.
    rewrite Hvalue by exact Hv.
    rewrite IH by (auto; simpl in Hlen; lia). reflexivity.
Qed.

(** The placeholders of the flat statement are the scalar slots of the
    tree, depth first and left to right. *)
Lemma placeholders_piecesOf (value : TemplateValue) :
  wfValue value = true -> placeholders (piecesOf value) = scalarSlots value.
Proof.
  induction value as [p | b e strs vals IH] using TemplateValue_tree_ind; intros Hwf.
  - reflexivity.
  - simpl in Hwf. apply andb_prop in Hwf as [Hlen Hvs].
    apply Nat.eqb_eq in Hlen.
    destruct strs as [|s0 rest]; [simpl in Hlen; lia|].
    simpl. apply placeholders_spliceSlots; auto. simpl in Hlen. lia.
Qed.

Lemma literals_spliceSlots c (vals : list TemplateValue) :
  Forall (fun value => wfValue value = true ->
            countCharIn c (literals (piecesOf value))
            = countCharIn c (literalSegments value)) vals ->
  forallb wfValue vals = true ->
  forall rest, length rest = length vals ->
  countCharIn c (literals (spliceSlots piecesOf vals rest))
  = (countCharIn c rest + countCharIn c (flat_map literalSegments vals))%nat.
Proof.
  induction 1 as [|value vals Hvalue _ IH]; intros Hwf rest Hlen.
  - destruct rest; [reflexivity | discriminate].
  - destruct rest as [|s rest]; [discriminate|].
    simpl in Hwf. apply andb_prop in Hwf as [Hv Hvs].
    simpl. rewrite literals_app. simpl.
    rewrite !countCharIn_app, !countCharIn_cons.
    rewrite Hvalue by exact Hv.
    rewrite IH by (auto; simpl in Hlen; lia). lia.
Qed.

(** Every literal segment of the tree is in the flat text, and nothing else
    is literal there (counted per character). *)
Lemma literals_piecesOf c (value : TemplateValue) :
  wfValue value = true ->
  countCharIn c (literals (piecesOf value)) = countCharIn c (literalSegments value).
Proof.
  induction value as [p | b e strs vals IH] using TemplateValue_tree_ind; intros Hwf.
  - reflexivity.
  - simpl in Hwf. apply andb_prop in Hwf as [Hlen Hvs].
    apply Nat.eqb_eq in Hlen.
    destruct strs as [|s0 rest]; [simpl in Hlen; lia|].
    simpl. rewrite !countCharIn_cons, countCharIn_app.
    rewrite (literals_spliceSlots c vals IH Hvs) by (simpl in Hlen; lia). lia.
Qed.

(** [values.length > 0 ? values : undefined], read back with
    [statement.values || []]. *)
Lemma valuesOrEmpty_optional (q : string) (l : list Primitive) :
  valuesOrEmpty (MkStatement q (if (0 <? length l)%nat then Some l else None)) = l.
Proof. destruct l; reflexivity. Qed.

(** [expandTemplate] in terms of the pieces of the root fragment. *)
Lemma expandTemplate_pieces (strs : list string) (vals : list TemplateValue) :
  wfTemplate strs vals = true ->
  expandTemplate strs vals
  = MkStatement (render (piecesOf (Frag (sql strs vals))))
                (if (0 <? length (scalarSlots (Frag (sql strs vals))))%nat
                 then Some (scalarSlots (Frag (sql strs vals)))
                 else None).
Proof.
  intros Hwf. unfold expandTemplate, expand.
  pose proof (expandValue_emitted (Frag (sql strs vals)) Hwf
                (MkExpandState EmptyString [])) as Hexp.
  simpl in Hexp. rewrite Hexp. unfold emitted. simpl.
  rewrite string_app_nil_l.
  pose proof (placeholders_piecesOf (Frag (sql strs vals)) Hwf) as Hph.
  simpl in Hph. rewrite Hph. reflexivity.
Qed.

(** C1. For a fragment that satisfies the invariant of the data model and
    has [k] scalar slots in its tree, [build] returns the text made of the
    tree's literal segments spliced in place with one ["?"] per scalar slot:
    the text has exactly [k] placeholders (its ["?"] characters are these
    [k] and the ones literal segments contain), the parameter list has
    exactly [k] entries, and the i-th placeholder and the i-th parameter are
    the i-th scalar slot in depth-first, left-to-right order. *)
Theorem build_placeholders_match_scalar_slots
        (strs : list string) (vals : list TemplateValue) :
  wfTemplate strs vals = true ->
  let root := Frag (sql strs vals) in
  let statement := build (sql strs vals) in
  let k := length (scalarSlots root) in
  query statement = render (piecesOf root)
  /\ placeholders (piecesOf root) = scalarSlots root
  /\ length (placeholders (piecesOf root)) = k
  /\ valuesOrEmpty statement = scalarSlots root
  /\ length (valuesOrEmpty statement) = k
  /\ countChar questionMark (query statement)
     = (k + countCharIn questionMark (literalSegments root))%nat.
Proof.
  intros Hwf root statement k.
  assert (Hst : statement = expandTemplate strs vals) by reflexivity.
  rewrite Hst, (expandTemplate_pieces strs vals Hwf). clear Hst statement.
  fold root.
  pose proof (placeholders_piecesOf root Hwf) as Hph.
  rewrite valuesOrEmpty_optional.
  split; [reflexivity|].
  split; [exact Hph|].
  split; [exact (f_equal length Hph)|].
  split; [reflexivity|].
  split; [reflexivity|].
  cbn [query]. rewrite countChar_render, Hph.
  now rewrite (literals_piecesOf questionMark root Hwf).
Qed.

Lemma build_placeholders_match_scalar_slots_witness :
  let strs := ["SELECT * FROM posts WHERE user_id IN ("; ") AND draft = "; EmptyString] in
  let vals := [Frag (sql ["SELECT id FROM users WHERE name = "; EmptyString]
                         [Prim (PString "John")]);
               Prim (PBoolean false)] in
  wfTemplate strs vals = true
  /\ query (build (sql strs vals))
     = "SELECT * FROM posts WHERE user_id IN (SELECT id FROM users WHERE name = ?) AND draft = ?"
  /\ valuesOrEmpty (build (sql strs vals)) = [PString "John"; PBoolean false].
Proof.
  intros strs vals.
  assert (Hwf : wfTemplate strs vals = true) by reflexivity.
  destruct (build_placeholders_match_scalar_slots strs vals Hwf)
    as (Hq & _ & _ & Hv & _).
  split; [exact Hwf|]. split.
  - rewrite Hq. reflexivity.
  - rewrite Hv. reflexivity.
Defined.

(** ** Coercion *)

(** C4, as the code has it. [build] puts the value of every scalar slot in
    the parameter list as it is, in slot order: nothing is coerced when the
    statement is built, and a nested fragment contributes its own scalar
    slots, never itself. The list is the coerced one exactly as far as the
    slots are strings, numbers, [null] or [ArrayBuffer]s, which coercion
    leaves alone; a boolean, [undefined] or a [Uint8Array] view reaches the
    engine unchanged. *)
Theorem build_passes_values_unchanged (strs : list string) (vals : list TemplateValue) :
  wfTemplate strs vals = true ->
  let slots := scalarSlots (Frag (sql strs vals)) in
  valuesOrEmpty (build (sql strs vals)) = slots
  /\ (forallb coercionFree slots = true ->
      valuesOrEmpty (build (sql strs vals)) = specCoerce <$> slots)
  /\ (forall p, build (sql [EmptyString; EmptyString] [Prim p])
                = MkStatement "?" (Some [p])).
Proof.
  intros Hwf slots.
  assert (Hvals : valuesOrEmpty (build (sql strs vals)) = slots).
  { change (build (sql strs vals)) with (expandTemplate strs vals).
    rewrite (expandTemplate_pieces strs vals Hwf).
    apply valuesOrEmpty_optional. }
  split; [exact Hvals|]. split; [|reflexivity].
  intros Hfree. rewrite Hvals. clear Hvals.
  induction slots as [|p slots IH]; [reflexivity|].
  cbn [forallb] in Hfree. apply andb_prop in Hfree as [Hp Hslots].
  rewrite fmap_cons, <- (IH Hslots).
  destruct p; try discriminate; reflexivity.
Qed.

Lemma build_passes_values_unchanged_witness :
  let strs := ["INSERT INTO flags (id, enabled) VALUES ("; ", "; ")"] in
  let vals := [Prim (PNumber 7); Prim (PBoolean true)] in
  wfTemplate strs vals = true
  /\ valuesOrEmpty (build (sql strs vals)) = [PNumber 7; PBoolean true].
Proof.
  intros strs vals.
  assert (Hwf : wfTemplate strs vals = true) by reflexivity.
  split; [exact Hwf|].
  exact (proj1 (build_passes_values_unchanged strs vals Hwf)).
Defined.

(** The claim C4 makes fails here: the parameter of a boolean slot is the
    boolean, not the string ["true"]. *)
Lemma build_does_not_coerce_boolean :
  let statement := build (sql ["SELECT "; EmptyString] [Prim (PBoolean true)]) in
  values statement = Some [PBoolean true]
  /\ valuesOrEmpty statement <> specCoerce <$> [PBoolean true].
Proof. split; [reflexivity | discriminate]. Qed.

(** ** The list helpers *)

Lemma wfValue_prims (vs : list Primitive) : forallb wfValue (Prim <$> vs) = true.
Proof. induction vs as [|v vs IH]; [reflexivity | exact IH]. Qed.

Lemma scalarSlots_prims (vs : list Primitive) : flat_map scalarSlots (Prim <$> vs) = vs.
Proof. induction vs as [|v vs IH]; [reflexivity|]. cbn. now rewrite IH. Qed.

Lemma placeholderList_step (k : nat) :
  placeholderList (S (S k)) = "?" +:+ ", " +:+ placeholderList (S k).
Proof. reflexivity. Qed.

(** The text of a list of scalars between separators [", "], followed by
    the closing segment. *)
Lemma render_separated (v : Primitive) (vs : list Primitive) (close : string) :
  render (spliceSlots piecesOf (Prim <$> (v :: vs)) (repeat ", " (length vs) ++ [close]))
  = placeholderList (S (length vs)) +:+ close.
Proof.
  revert v. induction vs as [|v' vs IH]; intros v.
  - cbn. now rewrite string_app_nil_r.
  - specialize (IH v').
    change (render (Placeholder v :: Literal ", "
                      :: spliceSlots piecesOf (Prim <$> (v' :: vs))
                           (repeat ", " (length vs) ++ [close]))
            = placeholderList (S (S (length vs))) +:+ close).
    cbn [render]. rewrite IH.
    change (length (v' :: vs)) with (S (length vs)).
    rewrite (placeholderList_step (length vs)).
    now rewrite !string_app_assoc.
Qed.

Lemma countChar_placeholderList_succ (k : nat) :
  countChar questionMark (placeholderList (S k)) = S k
  /\ countChar comma (placeholderList (S k)) = k.
Proof.
  induction k as [|k [IHq IHc]]; [split; reflexivity|].
  rewrite placeholderList_step, !countChar_app, IHq, IHc.
  split; reflexivity.
Qed.

Lemma countChar_placeholderList (k : nat) :
  countChar questionMark (placeholderList k) = k
  /\ countChar comma (placeholderList k) = (k - 1)%nat.
Proof.
  destruct k as [|k]; [split; reflexivity|].
  rewrite Nat.sub_succ, Nat.sub_0_r. apply countChar_placeholderList_succ.
Qed.

(** The statement a helper builds for a non-empty list, for any opening and
    closing segment. *)
Lemma expandTemplate_separated (open close : string) (v : Primitive)
      (vs : list Primitive) :
  expandTemplate ([open] ++ repeat ", " (length (v :: vs) - 1) ++ [close])
                 (Prim <$> (v :: vs))
  = MkStatement (open +:+ placeholderList (length (v :: vs)) +:+ close)
                (Some (v :: vs)).
Proof.
  rewrite expandTemplate_pieces.
  - cbn [length Nat.sub]. rewrite Nat.sub_0_r.
    cbn [piecesOf sql app spliceTemplate render scalarSlots].
    rewrite render_separated, scalarSlots_prims. reflexivity.
  - unfold wfTemplate. rewrite wfValue_prims, andb_true_r.
    apply Nat.eqb_eq. rewrite !length_app, repeat_length, length_fmap. cbn. lia.
Qed.

(** C7. [sql.join([])] builds the text ["NULL"], without placeholder and
    without parameter, and [sql.list([])] builds ["(NULL)"]. For [k >= 1]
    values, [sql.join] builds [k] placeholders separated by [k - 1]
    separators [", "] (one value: one placeholder, no separator), and
    [sql.list] the same between parentheses; the parameters are the [k]
    values in the order of the list. *)
Theorem join_and_list_placeholders (vs : list Primitive) :
  let k := length vs in
  build (sql_join vs)
  = match vs with
    | [] => MkStatement "NULL" None
    | _ => MkStatement (placeholderList k) (Some vs)
    end
  /\ build (sql_list vs)
     = match vs with
       | [] => MkStatement "(NULL)" (Some [])
       | _ => MkStatement ("(" +:+ placeholderList k +:+ ")") (Some vs)
       end
  /\ valuesOrEmpty (build (sql_join vs)) = vs
  /\ valuesOrEmpty (build (sql_list vs)) = vs
  /\ countChar questionMark (placeholderList k) = k
  /\ countChar comma (placeholderList k) = (k - 1)%nat
  /\ placeholderList 1 = "?"
  /\ placeholderList 3 = "?, ?, ?"
  /\ countChar questionMark "NULL" = 0%nat
  /\ countChar questionMark "(NULL)" = 0%nat.
Proof.
  intros k.
  assert (Hjoin : build (sql_join vs)
                  = match vs with
                    | [] => MkStatement "NULL" None
                    | _ => MkStatement (placeholderList k) (Some vs)
                    end).
  { destruct vs as [|v vs]; [reflexivity|].
    change (build (sql_join (v :: vs)))
      with (expandTemplate ([EmptyString] ++ repeat ", " (length (v :: vs) - 1)
                              ++ [EmptyString]) (Prim <$> (v :: vs))).
    rewrite expandTemplate_separated.
    now rewrite string_app_nil_l, string_app_nil_r. }
  assert (Hlist : build (sql_list vs)
                  = match vs with
                    | [] => MkStatement "(NULL)" (Some [])
                    | _ => MkStatement ("(" +:+ placeholderList k +:+ ")") (Some vs)
                    end).
  { destruct vs as [|v vs]; [reflexivity|].
    change (build (sql_list (v :: vs)))
      with (expandTemplate (["("] ++ repeat ", " (length (v :: vs) - 1) ++ [")"])
                           (Prim <$> (v :: vs))).
    now rewrite expandTemplate_separated. }
  split; [exact Hjoin|]. split; [exact Hlist|].
  split; [rewrite Hjoin; now destruct vs|].
  split; [rewrite Hlist; now destruct vs|].
  split; [apply countChar_placeholderList|].
  split; [apply countChar_placeholderList|].
  repeat split; reflexivity.
Qed.

(** ** The engine model *)

Lemma select_is_not_create : String.eqb selectVersionSql createMetadataSql = false.
Proof. vm_compute. reflexivity. Qed.

Lemma upsert_is_not_create : String.eqb upsertSql createMetadataSql = false.
Proof. vm_compute. reflexivity. Qed.

Lemma upsert_is_not_select : String.eqb upsertSql selectVersionSql = false.
Proof. vm_compute. reflexivity. Qed.

(** The text [build] makes of the upsert does not depend on the version. *)
Lemma upsert_statement (targetVersion : Z) :
  build (sql upsertStrings [Prim (PNumber targetVersion); Prim (PNumber targetVersion)])
  = MkStatement upsertSql (Some [PNumber targetVersion; PNumber targetVersion]).
Proof. reflexivity. Qed.

Section EngineFacts.
Context {U : Type}.
Variable engine : string -> list Primitive -> MemStorage U
                  -> (JsError + SqlStorageCursor) * MemStorage U.

Lemma memExec_create bindings (s : MemStorage U) :
  memExec engine createMetadataSql bindings s
  = (inr (MkCursor [] 0 0), ensureMetadata s).
Proof. unfold memExec. now rewrite String.eqb_refl. Qed.

Lemma memExec_select bindings (s : MemStorage U) (m : gmap string SqlStorageValue) :
  metadata s = Some m ->
  memExec engine selectVersionSql bindings s
  = (inr (match m !! schemaVersionKey with
          | Some value => MkCursor [[("value", value)]] 1 0
          | None => MkCursor [] 0 0
          end), s).
Proof.
  intros Hm. unfold memExec.
  rewrite select_is_not_create, String.eqb_refl, Hm.
  destruct (m !! schemaVersionKey); reflexivity.
Qed.

Lemma memExec_upsert (s : MemStorage U) (m : gmap string SqlStorageValue) (n : Z) :
  metadata s = Some m ->
  memExec engine upsertSql [PNumber n; PNumber n] s
  = (inr (MkCursor [] 0 1),
     MkMem (Some (<[schemaVersionKey := SVNumber n]> m)) (userData s)).
Proof.
  intros Hm. unfold memExec.
  rewrite upsert_is_not_create, upsert_is_not_select, String.eqb_refl, Hm.
  destruct (m !! schemaVersionKey); reflexivity.
Qed.

Lemma memExec_upsert_no_table bindings (s : MemStorage U) :
  metadata s = None ->
  memExec engine upsertSql bindings s = (inl noSuchTable, s).
Proof.
  intros Hm. unfold memExec.
  now rewrite upsert_is_not_create, upsert_is_not_select, String.eqb_refl, Hm.
Qed.

Lemma persisted_ensureMetadata (s : MemStorage U) :
  persisted (ensureMetadata s) = persisted s.
Proof.
  unfold persisted, ensureMetadata. simpl.
  destruct (metadata s); reflexivity.
Qed.

Lemma schemaVersionOf_ensureMetadata (s : MemStorage U) :
  schemaVersionOf (ensureMetadata s) = schemaVersionOf s.
Proof. unfold schemaVersionOf. now rewrite persisted_ensureMetadata. Qed.

(** [getSchemaVersion] on the engine model, in full. *)
Lemma getSchemaVersion_run (w : @World (MemStorage U)) :
  getSchemaVersion (memExec engine) w
  = let w' := MkWorld (ensureMetadata (storage w)) (trace w ++ readEvents) in
    match persisted (storage w) with
    | None => Returned 0%Z w'
    | Some (SVNumber n) => Returned n w'
    | Some value => Threw (invalidVersionError value) w'
    end.
Proof.
  unfold getSchemaVersion, bind, sqlExec.
  rewrite memExec_create. cbn [fst snd storage trace].
  unfold persisted.
  destruct (metadata (storage w)) as [m|] eqn:Hm; cbn [mbind option_bind].
  - rewrite (memExec_select [] (ensureMetadata (storage w)) m)
      by (unfold ensureMetadata; now rewrite Hm).
    cbn [fst snd]. rewrite <- app_assoc.
    destruct (m !! schemaVersionKey) as [[s|n| |bytes]|]; reflexivity.
  - rewrite (memExec_select [] (ensureMetadata (storage w)) ∅)
      by (unfold ensureMetadata; now rewrite Hm).
    cbn [fst snd]. rewrite <- app_assoc, lookup_empty. reflexivity.
Qed.
End EngineFacts.

(** ** Reading the schema version *)

Section StatusRead.
Context {U : Type}.
Variable engine : string -> list Primitive -> MemStorage U
                  -> (JsError + SqlStorageCursor) * MemStorage U.

(** C10. When the row stored under ["schema_version"] holds a value that is
    not a number, [getSchemaVersion] throws an error whose message shows the
    value and its type, and so do [getMigrationStatus] and
    [migrateDatabase]; no version is made up for it. [getSchemaVersion]
    returns [0] only when there is no row, or when the row holds [0]. *)
Theorem invalid_schema_version_is_rejected
        (w : @World (MemStorage U)) (value : SqlStorageValue)
        (db : RootDatabaseWrapper) (versions : list MigrationVersionDefinition)
        (options : Options) :
  persisted (storage w) = Some value ->
  isNumber value = false ->
  let e := invalidVersionError value in
  let w' := MkWorld (ensureMetadata (storage w)) (trace w ++ readEvents) in
  getSchemaVersion (memExec engine) w = Threw e w'
  /\ getMigrationStatus (memExec engine) versions w = Threw e w'
  /\ migrateDatabase (memExec engine) db versions options w = Threw e w'
  /\ errorMessage e
     = "Invalid schema_version: " +:+ templateText (Some value)
       +:+ " (" +:+ typeofValue (Some value) +:+ ")"
  /\ (forall (w0 wr : @World (MemStorage U)),
        getSchemaVersion (memExec engine) w0 = Returned 0%Z wr ->
        persisted (storage w0) = None \/ persisted (storage w0) = Some (SVNumber 0)).
Proof.
  intros Hrow Hnum e w'.
  assert (Hread : getSchemaVersion (memExec engine) w = Threw e w').
  { rewrite getSchemaVersion_run, Hrow. destruct value; try reflexivity. discriminate. }
  split; [exact Hread|].
  split; [unfold getMigrationStatus, bind; now rewrite Hread|].
  split; [unfold migrateDatabase, bind; now rewrite Hread|].
  split; [reflexivity|].
  intros w0 wr H0. rewrite getSchemaVersion_run in H0.
  destruct (persisted (storage w0)) as [[s|n| |bytes]|]; try discriminate.
  - right. inversion H0. reflexivity.
  - now left.
Qed.

(** [getMigrationStatus] on a storage whose version is readable. The
    metadata relation exists afterwards; nothing else has changed. *)
Lemma getMigrationStatus_run (w : @World (MemStorage U))
      (migrations : list MigrationVersionDefinition) (v : Z) :
  schemaVersionOf (storage w) = Some v ->
  getMigrationStatus (memExec engine) migrations w
  = Returned (MkStatus v (Z.of_nat (length migrations)) (sliceFrom migrations v))
             (MkWorld (ensureMetadata (storage w)) (trace w ++ readEvents)).
Proof.
  intros Hv. unfold getMigrationStatus, bind. rewrite getSchemaVersion_run.
  unfold schemaVersionOf in Hv.
  destruct (persisted (storage w)) as [[s|n| |bytes]|]; try discriminate;
    inversion Hv; reflexivity.
Qed.

(** C9, as the code has it. On a storage whose version is readable,
    [getMigrationStatus] returns the persisted version ([0] without a row),
    the number of migrations and the slice of the migrations from the
    persisted version. It runs [CREATE TABLE IF NOT EXISTS]: the metadata
    relation exists afterwards, empty if it was absent. The rows of the
    relation, the persisted version and the rest of the database are
    unchanged, and a storage that had the relation is unchanged. *)
Theorem getMigrationStatus_only_creates_metadata
        (w : @World (MemStorage U))
        (migrations : list MigrationVersionDefinition) (v : Z) :
  schemaVersionOf (storage w) = Some v ->
  exists w' : @World (MemStorage U),
    getMigrationStatus (memExec engine) migrations w
    = Returned (MkStatus v (Z.of_nat (length migrations)) (sliceFrom migrations v)) w'
    /\ ((0 <= v)%Z -> sliceFrom migrations v = drop (Z.to_nat v) migrations)
    /\ metadata (storage w') = Some (default ∅ (metadata (storage w)))
    /\ persisted (storage w') = persisted (storage w)
    /\ userData (storage w') = userData (storage w)
    /\ (is_Some (metadata (storage w)) -> storage w' = storage w).
Proof.
  intros Hv. eexists. split; [apply getMigrationStatus_run; exact Hv|].
  cbn [storage].
  split.
  { intros Hpos. unfold sliceFrom, slice, sliceIndex.
    rewrite (proj2 (Z.ltb_ge v 0)) by lia.
    rewrite (proj2 (Z.ltb_ge (Z.of_nat (length migrations)) 0)) by lia.
    rewrite Nat2Z.id, Nat.min_id.
    rewrite take_ge by (rewrite length_drop; lia).
    destruct (Nat.le_gt_cases (Z.to_nat v) (length migrations)) as [Hle|Hgt].
    - now rewrite Nat.min_l by lia.
    - rewrite Nat.min_r by lia.
      rewrite !drop_ge by lia. reflexivity. }
  split; [reflexivity|].
  split; [apply persisted_ensureMetadata|].
  split; [reflexivity|].
  intros [m Hm]. unfold ensureMetadata. rewrite Hm.
  destruct (storage w) as [meta u]. simpl in *. now subst.
Qed.
End StatusRead.

Lemma invalid_schema_version_is_rejected_witness :
  let s := MkMem (Some {[ schemaVersionKey := SVString "two" ]}) tt in
  let w := MkWorld s [] in
  persisted s = Some (SVString "two")
  /\ getSchemaVersion (memExec noEngine) w
     = Threw (newError "Invalid schema_version: two (string)")
             (MkWorld (ensureMetadata s) readEvents).
Proof.
  intros s w.
  assert (Hrow : persisted (storage w) = Some (SVString "two")) by reflexivity.
  split; [exact Hrow|].
  exact (proj1 (invalid_schema_version_is_rejected
                  noEngine w (SVString "two") (createWrapper None) []
                  (MkOptions (MkCallbacks None None) None None)
                  Hrow eq_refl)).
Defined.

Lemma getMigrationStatus_only_creates_metadata_witness :
  let s := MkMem (U := unit) None tt in
  let w := MkWorld s [] in
  schemaVersionOf s = Some 0%Z
  /\ exists w', getMigrationStatus (memExec noEngine) [] w
                = Returned (MkStatus 0 0 []) w'
                /\ metadata (storage w') = Some ∅.
Proof.
  intros s w.
  assert (Hv : schemaVersionOf (storage w) = Some 0%Z) by reflexivity.
  split; [exact Hv|].
  destruct (getMigrationStatus_only_creates_metadata noEngine w [] 0%Z Hv)
    as (w' & Hrun & _ & Hmeta & _).
  exists w'. split; [exact Hrun | exact Hmeta].
Defined.

(** The status read changes a storage that has no metadata relation. *)
Lemma getMigrationStatus_changes_storage :
  let s := MkMem (U := unit) None tt in
  storage (worldOf (getMigrationStatus (memExec noEngine) [] (MkWorld s []))) <> s.
Proof.
  intros s.
  rewrite (getMigrationStatus_run noEngine (MkWorld s []) [] 0%Z eq_refl).
  cbn. discriminate.
Qed.

(** ** The query helpers *)

Section Queries.
Context {Storage : Type}.
Variable exec : string -> list Primitive -> Storage -> (JsError + SqlStorageCursor) * Storage.

(** With a mapper, [queryCommon] is [queryCommon] on the built statement
    followed by the mapping of the rows. *)
Lemma queryCommon_mapped db (statement : FragmentOrStatement)
      (f : SqlRow -> JsError + SqlRow) (w : @World Storage) :
  mapperOf statement = Some f ->
  queryCommon exec db statement w
  = (rows <- queryCommon exec db (Statement (built statement)) ;; mapRows f rows) w.
Proof.
  intros Hf. unfold queryCommon. rewrite Hf. cbn [mapperOf built].
  unfold bind.
  destruct (callBeforeQuery db (query (built statement)) w) as [[] w1|e w1];
    [|reflexivity].
  destruct (sqlExec exec (query (built statement))
              (valuesOrEmpty (built statement)) w1) as [cursor w2|e w2];
    [|reflexivity].
  destruct (callAfterQuery db (query (built statement))
              (ResultRows (toArray cursor)) w2) as [[] w3|e w3]; reflexivity.
Qed.

(** Without a mapper, the rows [queryCommon] returns are the rows of the
    cursor the engine returned for the built statement. *)
Lemma queryCommon_unmapped_rows db (statement : FragmentOrStatement)
      (w w' : @World Storage) (R : list SqlRow) :
  mapperOf statement = None ->
  queryCommon exec db statement w = Returned R w' ->
  exists cursor,
    (exec (query (built statement)) (valuesOrEmpty (built statement)) (storage w)).1
    = inr cursor
    /\ toArray cursor = R.
Proof.
  intros Hf. unfold queryCommon. rewrite Hf. unfold bind.
  assert (Hbefore : forall w1 u, callBeforeQuery db (query (built statement)) w
                                 = Returned u w1 -> storage w1 = storage w).
  { intros w1 u. unfold callBeforeQuery, observe, bind, record, ret, throw.
    destruct (wrapperCallbacks db) as [cb|]; [|now inversion 1].
    destruct (beforeQuery cb) as [g|]; [|now inversion 1].
    destruct (g _); now inversion 1. }
  destruct (callBeforeQuery db (query (built statement)) w) as [[] w1|e w1] eqn:Hb;
    [|discriminate].
  rewrite <- (Hbefore w1 tt eq_refl).
  unfold sqlExec.
  destruct (exec (query (built statement)) (valuesOrEmpty (built statement))
              (storage w1)) as [[e|cursor] s2]; cbn [fst snd]; [discriminate|].
  destruct (callAfterQuery db _ _ _) as [[] w3|e w3]; [|discriminate].
  unfold ret. inversion 1. eauto.
Qed.

(** Mapping rows with a mapper that returns on each of them: every row is
    mapped, in order. *)
Lemma mapRows_total (f : SqlRow -> JsError + SqlRow) (g : SqlRow -> SqlRow)
      (R : list SqlRow) (w : @World Storage) :
  Forall (fun row => f row = inr (g row)) R ->
  mapRows f R w
  = Returned (g <$> R) (MkWorld (storage w) (trace w ++ (EvMapper <$> R))).
Proof.
  intros HR. revert w. induction HR as [|row R Hrow _ IH]; intros w.
  - cbn. unfold ret. destruct w. cbn. now rewrite app_nil_r.
  - cbn [mapRows]. unfold bind at 1. unfold record at 1. rewrite Hrow.
    unfold bind. rewrite IH. unfold ret. cbn [storage trace].
    rewrite fmap_cons. now rewrite <- app_assoc.
Qed.

(** The mapper throws on the first row it rejects; the rows before it were
    mapped, the rows after it are not looked at. *)
Lemma mapRows_throws (f : SqlRow -> JsError + SqlRow) (g : SqlRow -> SqlRow)
      (R1 : list SqlRow) (row : SqlRow) (R2 : list SqlRow) (e : JsError)
      (w : @World Storage) :
  Forall (fun row => f row = inr (g row)) R1 ->
  f row = inl e ->
  mapRows f (R1 ++ row :: R2) w
  = Threw e (MkWorld (storage w) (trace w ++ (EvMapper <$> R1) ++ [EvMapper row])).
Proof.
  intros HR He. revert w. induction HR as [|row1 R1 Hrow _ IH]; intros w.
  - cbn [app mapRows]. unfold bind, record. rewrite He. reflexivity.
  - cbn [app mapRows]. unfold bind at 1. unfold record at 1. rewrite Hrow.
    unfold bind. rewrite IH. cbn [storage trace].
    rewrite fmap_cons. now rewrite <- !app_assoc.
Qed.

(** Mapped rows are as many as the rows. *)
Lemma mapRows_length (f : SqlRow -> JsError + SqlRow) (R R' : list SqlRow)
      (w w' : @World Storage) :
  mapRows f R w = Returned R' w' -> length R' = length R.
Proof.
  revert R' w w'. induction R as [|row R IH]; intros R' w w'.
  - cbn. unfold ret. now inversion 1.
  - cbn [mapRows]. unfold bind at 1. unfold record at 1.
    destruct (f row) as [e|mapped]; [discriminate|].
    unfold bind.
    destruct (mapRows f R _) as [R0 w0|e w0] eqn:Hrec; [|discriminate].
    unfold ret. inversion 1. cbn. f_equal. eapply IH. exact Hrec.
Qed.
(** C6. For the rows [R] the engine returned for a statement (no mapper):
    [queryOne] returns [R[0]] when [R] has one row and throws
    ["Expected one row, got |R|"] otherwise; [queryNoneOrOne] returns
    [null] for no row, [R[0]] for one row and throws
    ["Expected at most one row, got |R|"] for more; [queryNone] returns
    nothing and throws ["Expected no rows, got |R|"] when [R] has a row;
    [queryMany] returns [R] as it is, empty or not. *)
Theorem query_shapes_check_cardinality db (statement : FragmentOrStatement)
        (w w' : @World Storage) (R : list SqlRow) :
  mapperOf statement = None ->
  queryCommon exec db statement w = Returned R w' ->
  (exists cursor,
      (exec (query (built statement)) (valuesOrEmpty (built statement)) (storage w)).1
      = inr cursor
      /\ toArray cursor = R)
  /\ queryOne exec db statement w
     = match R with
       | [row] => Returned row w'
       | _ => Threw (newError ("Expected one row, got " +:+ pretty (length R))) w'
       end
  /\ queryNoneOrOne exec db statement w
     = match R with
       | [] => Returned None w'
       | [row] => Returned (Some row) w'
       | _ => Threw (newError ("Expected at most one row, got " +:+ pretty (length R))) w'
       end
  /\ queryNone exec db statement w
     = match R with
       | [] => Returned tt w'
       | _ => Threw (newError ("Expected no rows, got " +:+ pretty (length R))) w'
       end
  /\ queryMany exec db statement w = Returned R w'.
Proof.
  intros Hf HR.
  split; [exact (queryCommon_unmapped_rows db statement w w' R Hf HR)|].
  unfold queryOne, queryNoneOrOne, queryNone, queryMany, bind.
  rewrite HR.
  destruct R as [|row [|row' R]]; repeat split; reflexivity.
Qed.

(** C5, as the code has it. With a mapper, [queryCommon] maps the rows [R]
    it fetched before it returns, so before any check of their number: the
    helpers see what the mapping left. A mapper that throws on some row
    makes every helper throw that error, whatever the number of rows. When
    the mapper returns on every row, the mapped rows are as many as [R],
    the checks are the ones of the raw number of rows, and on a failed
    check every row has been mapped all the same. *)
Theorem mapper_is_applied_before_cardinality_check db
        (statement : FragmentOrStatement) (f : SqlRow -> JsError + SqlRow)
        (w w1 : @World Storage) (R : list SqlRow) :
  mapperOf statement = Some f ->
  queryCommon exec db (Statement (built statement)) w = Returned R w1 ->
  queryCommon exec db statement w = mapRows f R w1
  /\ (forall e w2, mapRows f R w1 = Threw e w2 ->
        queryOne exec db statement w = Threw e w2
        /\ queryNoneOrOne exec db statement w = Threw e w2
        /\ queryNone exec db statement w = Threw e w2
        /\ queryMany exec db statement w = Threw e w2)
  /\ (forall g, Forall (fun row => f row = inr (g row)) R ->
        let w2 := MkWorld (storage w1) (trace w1 ++ (EvMapper <$> R)) in
        length (g <$> R) = length R
        /\ queryMany exec db statement w = Returned (g <$> R) w2
        /\ queryOne exec db statement w
           = match R with
             | [row] => Returned (g row) w2
             | _ => Threw (newError ("Expected one row, got " +:+ pretty (length R))) w2
             end
        /\ queryNoneOrOne exec db statement w
           = match R with
             | [] => Returned None w2
             | [row] => Returned (Some (g row)) w2
             | _ => Threw (newError ("Expected at most one row, got "
                                     +:+ pretty (length R))) w2
             end
        /\ queryNone exec db statement w
           = match R with
             | [] => Returned tt w2
             | _ => Threw (newError ("Expected no rows, got " +:+ pretty (length R))) w2
             end).
Proof.
  intros Hf HR.
  assert (Hcommon : queryCommon exec db statement w = mapRows f R w1).
  { rewrite (queryCommon_mapped db statement f w Hf). unfold bind. now rewrite HR. }
  split; [exact Hcommon|]. split.
  - intros e w2 He.
    unfold queryOne, queryNoneOrOne, queryNone, queryMany, bind.
    rewrite Hcommon, He. repeat split; reflexivity.
  - intros g Hg w2.
    pose proof (mapRows_total f g R w1 Hg) as Hmap. fold w2 in Hmap.
    split; [apply length_fmap|].
    unfold queryOne, queryNoneOrOne, queryNone, queryMany, bind.
    rewrite Hcommon, Hmap, !length_fmap.
    destruct R as [|row [|row' R]]; repeat split; reflexivity.
Qed.
End Queries.

Lemma query_shapes_check_cardinality_witness :
  let db := createWrapper None in
  let w := MkWorld tt [] in
  let w' := MkWorld tt [EvExec "SELECT * FROM users" []] in
  mapperOf (Fragment selectUsers) = None
  /\ queryCommon (answering [alice]) db (Fragment selectUsers) w = Returned [alice] w'
  /\ queryOne (answering [alice]) db (Fragment selectUsers) w = Returned alice w'.
Proof.
  intros db w w'.
  assert (Hf : mapperOf (Fragment selectUsers) = None) by reflexivity.
  assert (HR : queryCommon (answering [alice]) db (Fragment selectUsers) w
               = Returned [alice] w') by reflexivity.
  split; [exact Hf|]. split; [exact HR|].
  exact (proj1 (proj2 (query_shapes_check_cardinality
                         (answering [alice]) db (Fragment selectUsers) w w' [alice]
                         Hf HR))).
Defined.

Lemma mapper_is_applied_before_cardinality_check_witness :
  let db := createWrapper None in
  let statement := MappedFragment (map_fragment selectUsers nameOnly) in
  let w := MkWorld tt [] in
  let w1 := MkWorld tt [EvExec "SELECT * FROM users" []] in
  mapperOf statement = Some nameOnly
  /\ queryCommon (answering [alice; bob]) db (Statement (built statement)) w
     = Returned [alice; bob] w1
  /\ queryCommon (answering [alice; bob]) db statement w
     = mapRows nameOnly [alice; bob] w1.
Proof.
  intros db statement w w1.
  assert (Hf : mapperOf statement = Some nameOnly) by reflexivity.
  assert (HR : queryCommon (answering [alice; bob]) db (Statement (built statement)) w
               = Returned [alice; bob] w1) by reflexivity.
  split; [exact Hf|]. split; [exact HR|].
  exact (proj1 (mapper_is_applied_before_cardinality_check
                  (answering [alice; bob]) db statement nameOnly w w1 [alice; bob]
                  Hf HR)).
Defined.

(** The claim C5 makes fails here: the engine returns two rows for a
    [queryOne], the mapper is called on the first of them and its error is
    what [queryOne] throws, not the error of the row count. *)
Lemma mapper_error_hides_cardinality_error :
  let db := createWrapper None in
  let statement := MappedFragment (map_fragment selectUsers failingMapper) in
  let w := MkWorld tt [] in
  queryOne (answering [alice; bob]) db statement w
  = Threw mapperError
          (MkWorld tt [EvExec "SELECT * FROM users" []; EvMapper alice])
  /\ ~ (exists w', queryOne (answering [alice; bob]) db statement w
                   = Threw (newError "Expected one row, got 2") w'
                   /\ Forall (fun ev => forall row, ev <> EvMapper row) (trace w')).
Proof.
  intros db statement w.
  assert (H : queryOne (answering [alice; bob]) db statement w
              = Threw mapperError
                      (MkWorld tt [EvExec "SELECT * FROM users" []; EvMapper alice]))
    by reflexivity.
  split; [exact H|].
  intros (w' & Hq & _). rewrite H in Hq. discriminate.
Qed.

(** ** What a computation adds to the trace *)

Section TraceKinds.
Context {Storage : Type}.
Variable exec : string -> list Primitive -> Storage -> (JsError + SqlStorageCursor) * Storage.
Variable P : @Event Storage -> bool.

Lemma tracesOnly_ret {A : Type} (a : A) : tracesOnly P (ret a).
Proof. intros w. exists []. cbn. now rewrite app_nil_r. Qed.

Lemma tracesOnly_throw {A : Type} (e : JsError) : tracesOnly P (throw (A := A) e).
Proof. intros w. exists []. cbn. now rewrite app_nil_r. Qed.

Lemma tracesOnly_bind {A B : Type} (c : M World A) (k : A -> M World B) :
  tracesOnly P c -> (forall a, tracesOnly P (k a)) -> tracesOnly P (bind c k).
Proof.
  intros Hc Hk w. unfold bind.
  destruct (Hc w) as (evs1 & Htr1 & HP1).
  destruct (c w) as [a w1|e w1]; cbn [worldOf] in *.
  - destruct (Hk a w1) as (evs2 & Htr2 & HP2).
    exists (evs1 ++ evs2). rewrite Htr2, Htr1, <- app_assoc.
    split; [reflexivity|]. rewrite forallb_app, HP1, HP2. reflexivity.
  - exists evs1. split; assumption.
Qed.

Lemma tracesOnly_record (ev : Event) : P ev = true -> tracesOnly P (record ev).
Proof. intros HP w. exists [ev]. cbn. now rewrite HP. Qed.

Lemma tracesOnly_observe (ev : Event) (outcome : option JsError) :
  P ev = true -> tracesOnly P (observe ev outcome).
Proof.
  intros HP. unfold observe. apply tracesOnly_bind.
  - now apply tracesOnly_record.
  - intros _. destruct outcome; [apply tracesOnly_throw | apply tracesOnly_ret].
Qed.

Lemma tracesOnly_callHook (ev : Event) (hook : Hook) :
  P ev = true -> tracesOnly P (callHook ev hook).
Proof.
  intros HP. unfold callHook. apply tracesOnly_bind.
  - now apply tracesOnly_record.
  - intros _ w. exists []. rewrite app_nil_r.
    destruct (hook (storage w)).1; split; reflexivity.
Qed.

Lemma tracesOnly_sqlExec (query : string) (bindings : list Primitive) :
  P (EvExec query bindings) = true -> tracesOnly P (sqlExec exec query bindings).
Proof.
  intros HP w. exists [EvExec query bindings]. unfold sqlExec.
  destruct (exec query bindings (storage w)).1; cbn; now rewrite HP.
Qed.

Lemma tracesOnly_callBeforeQuery db (query : string) :
  P (EvBeforeQuery query) = true -> tracesOnly P (callBeforeQuery db query).
Proof.
  intros HP. unfold callBeforeQuery.
  destruct (wrapperCallbacks db) as [cb|]; [|apply tracesOnly_ret].
  destruct (beforeQuery cb); [now apply tracesOnly_observe | apply tracesOnly_ret].
Qed.

Lemma tracesOnly_callAfterQuery db (query : string) (result : QueryResult) :
  P (EvAfterQuery query result) = true -> tracesOnly P (callAfterQuery db query result).
Proof.
  intros HP. unfold callAfterQuery.
  destruct (wrapperCallbacks db) as [cb|]; [|apply tracesOnly_ret].
  destruct (afterQuery cb); [now apply tracesOnly_observe | apply tracesOnly_ret].
Qed.
End TraceKinds.

Section StepTraces.
Context {Storage : Type}.
Variable exec : string -> list Primitive -> Storage -> (JsError + SqlStorageCursor) * Storage.

(** The events of the loop of [migrateDatabase]: everything but the call of
    [beforeMigration]. *)
Lemma migrateStep_no_observer db (versions : list MigrationVersionDefinition)
      (version : Z) :
  tracesOnly (fun ev => negb (isObserverEvent ev)) (migrateStep exec db versions version).
Proof.
  unfold migrateStep.
  destruct (at_index versions version) as [definition|]; [|apply tracesOnly_throw].
  apply tracesOnly_bind; [now apply tracesOnly_record|]. intros _.
  apply tracesOnly_bind.
  { destruct (beforeMigrate definition);
      [now apply tracesOnly_callHook | apply tracesOnly_ret]. }
  intros _. apply tracesOnly_bind; [now apply tracesOnly_callHook|]. intros _.
  apply tracesOnly_bind; [|intros _; apply tracesOnly_ret].
  unfold run.
  apply tracesOnly_bind; [now apply tracesOnly_callBeforeQuery|]. intros _.
  apply tracesOnly_bind; [now apply tracesOnly_sqlExec|]. intros cursor.
  apply tracesOnly_bind; [now apply tracesOnly_callAfterQuery|]. intros _.
  apply tracesOnly_ret.
Qed.

Lemma migrateLoop_no_observer db (versions : list MigrationVersionDefinition)
      (iterations : nat) (version : Z) :
  tracesOnly (fun ev => negb (isObserverEvent ev))
             (migrateLoop exec db versions iterations version).
Proof.
  revert version. induction iterations as [|n IH]; intros version.
  - apply tracesOnly_ret.
  - cbn [migrateLoop]. apply tracesOnly_bind.
    + apply migrateStep_no_observer.
    + intros _. apply IH.
Qed.
(** The count of [migrateLoop] is the condition of the source's loop:
    from [version], the loop runs its body and goes on from [version + 1]
    when [version < versions.length], and is over otherwise. *)
Lemma migrateLoop_condition db (versions : list MigrationVersionDefinition)
      (version : Z) (w : @World Storage) :
  let N := Z.of_nat (length versions) in
  migrateLoop exec db versions (Z.to_nat (N - version)) version w
  = if (version <? N)%Z
    then (migrateStep exec db versions version ;;;
          migrateLoop exec db versions (Z.to_nat (N - (version + 1))) (version + 1)%Z) w
    else Returned tt w.
Proof.
  intros N. destruct (Z.ltb_spec version N) as [Hlt|Hge].
  - replace (Z.to_nat (N - version)) with (S (Z.to_nat (N - (version + 1)))) by lia.
    reflexivity.
  - replace (Z.to_nat (N - version)) with 0%nat by lia. reflexivity.
Qed.
End StepTraces.

(** ** Migration runs on the engine model *)

Section TraceFacts.
Context {Storage : Type}.

Lemma endsInHook_snoc (events : list (@Event Storage)) (ev : Event) :
  endsInHook (events ++ [ev]) = isHookEvent ev.
Proof. unfold endsInHook. now rewrite last_snoc. Qed.

Lemma calls_app (l1 l2 : list (@Event Storage)) : calls (l1 ++ l2) = calls l1 ++ calls l2.
Proof. apply List.filter_app. Qed.

Lemma observe_outcome (ev : Event) (outcome : option JsError) (w : @World Storage) :
  observe ev outcome w
  = match outcome with
    | None => Returned tt (MkWorld (storage w) (trace w ++ [ev]))
    | Some e => Threw e (MkWorld (storage w) (trace w ++ [ev]))
    end.
Proof. destruct outcome; reflexivity. Qed.

Lemma callBeforeQuery_returned db (q : string) (w w1 : @World Storage) u :
  callBeforeQuery db q w = Returned u w1 ->
  storage w1 = storage w /\ calls (trace w1) = calls (trace w).
Proof.
  unfold callBeforeQuery, observe, bind, record, ret, throw.
  destruct (wrapperCallbacks db) as [cb|]; [|now inversion 1].
  destruct (beforeQuery cb) as [g|]; [|now inversion 1].
  destruct (g q); inversion 1. cbn [storage trace].
  split; [reflexivity|]. rewrite calls_app. cbn. apply app_nil_r.
Qed.

Lemma callBeforeQuery_threw db (q : string) (w w1 : @World Storage) e :
  callBeforeQuery db q w = Threw e w1 ->
  storage w1 = storage w /\ trace w1 = trace w ++ [EvBeforeQuery q].
Proof.
  unfold callBeforeQuery, observe, bind, record, ret, throw.
  destruct (wrapperCallbacks db) as [cb|]; [|now inversion 1].
  destruct (beforeQuery cb) as [g|]; [|now inversion 1].
  destruct (g q); inversion 1. now cbn.
Qed.

Lemma callAfterQuery_returned db (q : string) result (w w1 : @World Storage) u :
  callAfterQuery db q result w = Returned u w1 ->
  storage w1 = storage w
  /\ (trace w1 = trace w \/ trace w1 = trace w ++ [EvAfterQuery q result]).
Proof.
  unfold callAfterQuery, observe, bind, record, ret, throw.
  destruct (wrapperCallbacks db) as [cb|]; [|inversion 1; auto].
  destruct (afterQuery cb) as [g|]; [|inversion 1; auto].
  destruct (g q result); inversion 1. cbn. auto.
Qed.

Lemma callAfterQuery_threw db (q : string) result (w w1 : @World Storage) e :
  callAfterQuery db q result w = Threw e w1 ->
  storage w1 = storage w /\ trace w1 = trace w ++ [EvAfterQuery q result].
Proof.
  unfold callAfterQuery, observe, bind, record, ret, throw.
  destruct (wrapperCallbacks db) as [cb|]; [|now inversion 1].
  destruct (afterQuery cb) as [g|]; [|now inversion 1].
  destruct (g q result); inversion 1. now cbn.
Qed.
End TraceFacts.

Section MigrationRuns.
Context {U : Type}.
Variable engine : string -> list Primitive -> MemStorage U
                  -> (JsError + SqlStorageCursor) * MemStorage U.
Variable db : RootDatabaseWrapper.

(** The upsert, when [run] returns: the row holds the version, and the
    statement is the one call of the run. *)
Lemma run_upsert_returned (t : Z) (w w' : @World (MemStorage U)) (r : RunResult) :
  run (memExec engine) db (versionUpsert t) w = Returned r w' ->
  persisted (storage w') = Some (SVNumber t)
  /\ calls (trace w') = calls (trace w) ++ [EvExec upsertSql [PNumber t; PNumber t]]
  /\ endsInHook (trace w') = false.
Proof.
  unfold run, versionUpsert. cbn [built]. rewrite upsert_statement.
  cbn [query valuesOrEmpty values]. unfold bind.
  destruct (callBeforeQuery db upsertSql w) as [[] w1|e w1] eqn:Hb; [|discriminate].
  apply callBeforeQuery_returned in Hb as [Hs1 Hc1].
  unfold sqlExec.
  destruct (metadata (storage w1)) as [m|] eqn:Hm.
  - rewrite (memExec_upsert engine (storage w1) m t Hm). cbn [fst snd].
    destruct (callAfterQuery db _ _ _) as [[] w2|e w2] eqn:Ha; [|discriminate].
    apply callAfterQuery_returned in Ha as [Hs2 Htr2]. cbn [storage trace] in *.
    unfold ret. inversion 1. subst w'.
    split.
    { rewrite Hs2. unfold persisted. cbn. apply lookup_insert_eq. }
    destruct Htr2 as [-> | ->].
    + rewrite calls_app, endsInHook_snoc, Hc1. split; reflexivity.
    + rewrite !calls_app, endsInHook_snoc, Hc1. cbn. rewrite app_nil_r.
      split; reflexivity.
  - rewrite (memExec_upsert_no_table engine _ (storage w1) Hm). discriminate.
Qed.

(** The upsert, when [run] throws: it is no hook that threw. *)
Lemma run_upsert_threw (t : Z) (w w' : @World (MemStorage U)) (e : JsError) :
  run (memExec engine) db (versionUpsert t) w = Threw e w' ->
  endsInHook (trace w') = false.
Proof.
  unfold run, versionUpsert. cbn [built]. rewrite upsert_statement.
  cbn [query valuesOrEmpty values]. unfold bind.
  destruct (callBeforeQuery db upsertSql w) as [[] w1|e1 w1] eqn:Hb.
  - unfold sqlExec.
    destruct (metadata (storage w1)) as [m|] eqn:Hm.
    + rewrite (memExec_upsert engine (storage w1) m t Hm). cbn [fst snd].
      destruct (callAfterQuery db _ _ _) as [[] w2|e2 w2] eqn:Ha; [discriminate|].
      apply callAfterQuery_threw in Ha as [_ Htr2].
      inversion 1. subst. rewrite Htr2. apply endsInHook_snoc.
    + rewrite (memExec_upsert_no_table engine _ (storage w1) Hm). cbn [fst snd].
      inversion 1. cbn. apply endsInHook_snoc.
  - apply callBeforeQuery_threw in Hb as [_ Htr1].
    inversion 1. subst. rewrite Htr1. apply endsInHook_snoc.
Qed.
(** One step that returns: its calls are the hooks and the upsert, and the
    row holds [version + 1]. *)
Lemma migrateStep_returned (versions : list MigrationVersionDefinition) (version : Z)
      (definition : MigrationVersionDefinition) (w w' : @World (MemStorage U)) :
  at_index versions version = Some definition ->
  migrateStep (memExec engine) db versions version w = Returned tt w' ->
  calls (trace w') = calls (trace w) ++ stepCalls definition version
  /\ persisted (storage w') = Some (SVNumber (version + 1))
  /\ endsInHook (trace w') = false.
Proof.
  intros Hat. unfold migrateStep. rewrite Hat.
  unfold stepCalls, beforeCalls, consoleLog, callHook, bind, record, ret.
  cbn [storage trace].
  destruct (beforeMigrate definition) as [hook|].
  - cbn [storage trace].
    destruct (hook (storage w)).1; [discriminate|].
    destruct (migrate definition _).1; [discriminate|].
    destruct (run _ _ _ _) as [r w1|e w1] eqn:Hrun; [|discriminate].
    apply run_upsert_returned in Hrun as (Hp & Hc & Hend).
    inversion 1. subst w'. rewrite Hc. cbn [trace].
    rewrite !calls_app. cbn. rewrite app_nil_r, <- !app_assoc. auto.
  - cbn [storage trace].
    destruct (migrate definition _).1; [discriminate|].
    destruct (run _ _ _ _) as [r w1|e w1] eqn:Hrun; [|discriminate].
    apply run_upsert_returned in Hrun as (Hp & Hc & Hend).
    inversion 1. subst w'. rewrite Hc. cbn [trace].
    rewrite !calls_app. cbn. rewrite app_nil_r, <- !app_assoc. auto.
Qed.

(** One step that throws right after the call of a hook: the hook threw,
    and the error of the step is the error of the hook. *)
Lemma migrateStep_threw (versions : list MigrationVersionDefinition) (version : Z)
      (definition : MigrationVersionDefinition) (w w' : @World (MemStorage U))
      (e : JsError) :
  at_index versions version = Some definition ->
  migrateStep (memExec engine) db versions version w = Threw e w' ->
  endsInHook (trace w') = true ->
  exists partial,
    HookFailure definition version (storage w) e (storage w') partial
    /\ calls (trace w') = calls (trace w) ++ partial.
Proof.
  intros Hat. unfold migrateStep. rewrite Hat.
  unfold consoleLog, callHook, bind, record, ret.
  cbn [storage trace].
  destruct (beforeMigrate definition) as [hook|] eqn:Hbefore.
  - cbn [storage trace].
    destruct (hook (storage w)).1 as [e1|] eqn:Hhook.
    + inversion 1. subst. intros _. cbn [storage trace].
      exists [EvBeforeMigrate version]. split.
      * now apply BeforeMigrateFailed.
      * rewrite !calls_app. cbn. now rewrite app_nil_r.
    + cbn [storage trace].
      destruct (migrate definition (hook (storage w)).2).1 as [e2|] eqn:Hmig.
      * inversion 1. subst. intros _. cbn [storage trace].
        exists (beforeCalls definition version ++ [EvMigrate version]). split.
        -- pose proof (MigrateFailed definition version (storage w) e) as HF.
           unfold beforeReturns, storageAfterBefore in HF. rewrite Hbefore in HF.
           apply HF; assumption.
        -- unfold beforeCalls. rewrite Hbefore, !calls_app. cbn.
           now rewrite app_nil_r, <- !app_assoc.
      * destruct (run _ _ _ _) as [r w1|e3 w1] eqn:Hrun; [discriminate|].
        apply run_upsert_threw in Hrun.
        inversion 1. subst. congruence.
  - cbn [storage trace].
    destruct (migrate definition (storage w)).1 as [e2|] eqn:Hmig.
    + inversion 1. subst. intros _. cbn [storage trace].
      exists (beforeCalls definition version ++ [EvMigrate version]). split.
      * pose proof (MigrateFailed definition version (storage w) e) as HF.
        unfold beforeReturns, storageAfterBefore in HF. rewrite Hbefore in HF.
        apply HF; [exact I | assumption].
      * unfold beforeCalls. rewrite Hbefore, !calls_app. cbn.
        now rewrite app_nil_r.
    + destruct (run _ _ _ _) as [r w1|e3 w1] eqn:Hrun; [discriminate|].
      apply run_upsert_threw in Hrun.
      inversion 1. subst. congruence.
Qed.
Lemma at_index_Some {A : Type} (l : list A) (i : Z) :
  (0 <= i < Z.of_nat (length l))%Z -> exists x, at_index l i = Some x.
Proof.
  intros Hi. unfold at_index.
  rewrite (proj2 (Z.ltb_ge i 0)) by lia.
  apply lookup_lt_is_Some. lia.
Qed.

Lemma at_index_In {A : Type} (l : list A) (i : Z) (x : A) :
  at_index l i = Some x -> In x l.
Proof.
  unfold at_index. destruct (i <? 0)%Z; [discriminate|].
  intros H. apply list_elem_of_In. eapply list_elem_of_lookup_2. exact H.
Qed.

Lemma pendingCalls_succ (versions : list (@MigrationVersionDefinition (MemStorage U)))
      (version : Z) (n : nat) :
  pendingCalls versions version (S n)
  = stepCallsAt versions version ++ pendingCalls versions (version + 1) n.
Proof.
  unfold pendingCalls. rewrite seqZ_cons by lia. cbn [flat_map].
  do 3 f_equal; lia.
Qed.

Lemma pendingCalls_snoc (versions : list (@MigrationVersionDefinition (MemStorage U)))
      (version : Z) (n : nat) :
  pendingCalls versions version (S n)
  = pendingCalls versions version n ++ stepCallsAt versions (version + Z.of_nat n).
Proof.
  unfold pendingCalls.
  rewrite seqZ_S, flat_map_app. cbn [flat_map]. now rewrite app_nil_r.
Qed.

(** The loop, when it returns: every step from [version] on has completed,
    in ascending order, and the row holds the last target version. *)
Lemma migrateLoop_returned (versions : list MigrationVersionDefinition) (n : nat) :
  forall (version : Z) (w w' : @World (MemStorage U)),
    (0 <= version)%Z ->
    (version + Z.of_nat n <= Z.of_nat (length versions))%Z ->
    migrateLoop (memExec engine) db versions n version w = Returned tt w' ->
    calls (trace w') = calls (trace w) ++ pendingCalls versions version n
    /\ (n = 0%nat -> w' = w)
    /\ ((0 < n)%nat ->
        persisted (storage w') = Some (SVNumber (version + Z.of_nat n))
        /\ endsInHook (trace w') = false).
Proof.
  induction n as [|n IH]; intros version w w' Hpos Hle.
  - cbn. unfold ret. inversion 1. subst.
    split; [now rewrite app_nil_r|]. split; [reflexivity | lia].
  - cbn [migrateLoop]. unfold bind.
    destruct (at_index_Some versions version) as [definition Hat]; [lia|].
    destruct (migrateStep _ _ _ _ w) as [[] w1|e w1] eqn:Hstep; [|discriminate].
    apply (migrateStep_returned versions version definition w w1 Hat) in Hstep
      as (Hc1 & Hp1 & Hend1).
    intros Hloop.
    apply IH in Hloop as (Hc & H0 & Hn); [|lia|lia].
    split.
    { rewrite Hc, Hc1, pendingCalls_succ, <- app_assoc.
      unfold stepCallsAt. now rewrite Hat. }
    split; [discriminate|]. intros _.
    destruct n as [|n].
    + rewrite (H0 eq_refl). split; [|exact Hend1].
      rewrite Hp1; do 2 f_equal; lia.
    + destruct Hn as [Hp Hend]; [lia|]. split; [|exact Hend].
      rewrite Hp; do 2 f_equal; lia.
Qed.

Lemma hookFailure_keeps_version (definition : MigrationVersionDefinition) (j : Z)
      (s s' : MemStorage U) (e : JsError) partial :
  keepsVersion (migrate definition) ->
  (forall hook, beforeMigrate definition = Some hook -> keepsVersion hook) ->
  HookFailure definition j s e s' partial ->
  persisted s' = persisted s.
Proof.
  intros Hmig Hbefore HF. destruct HF as [hook e Hb Hthrow | e Hret Hthrow].
  - apply (Hbefore hook Hb).
  - rewrite Hmig. unfold storageAfterBefore.
    destruct (beforeMigrate definition) as [hook|] eqn:Hb; [|reflexivity].
    apply (Hbefore hook eq_refl).
Qed.

(** The loop, when it throws right after the call of a hook: the steps
    before the failing one have completed, the hook of step [j] threw the
    error of the loop, and the row holds what the last completed step
    left. *)
Lemma migrateLoop_hook_failure (versions : list MigrationVersionDefinition) (n : nat) :
  hooksKeepVersion versions ->
  forall (version : Z) (w w' : @World (MemStorage U)) (e : JsError),
    (0 <= version)%Z ->
    (version + Z.of_nat n <= Z.of_nat (length versions))%Z ->
    migrateLoop (memExec engine) db versions n version w = Threw e w' ->
    endsInHook (trace w') = true ->
    exists (j : Z) definition s partial,
      (version <= j < version + Z.of_nat n)%Z
      /\ at_index versions j = Some definition
      /\ HookFailure definition j s e (storage w') partial
      /\ calls (trace w')
         = calls (trace w) ++ pendingCalls versions version (Z.to_nat (j - version))
           ++ partial
      /\ persisted (storage w')
         = (if (j =? version)%Z then persisted (storage w) else Some (SVNumber j)).
Proof.
  intros Hkeep.
  induction n as [|n IH]; intros version w w' e Hpos Hle.
  - cbn. discriminate.
  - cbn [migrateLoop]. unfold bind.
    destruct (at_index_Some versions version) as [definition Hat]; [lia|].
    destruct (migrateStep _ _ _ _ w) as [[] w1|e1 w1] eqn:Hstep.
    + apply (migrateStep_returned versions version definition w w1 Hat) in Hstep
        as (Hc1 & Hp1 & Hend1).
      intros Hloop Hend.
      destruct (IH (version + 1)%Z w1 w' e) as
        (j & dj & s & partial & Hj & Hatj & HF & Hc & Hp);
        [lia | lia | exact Hloop | exact Hend |].
      exists j, dj, s, partial.
      split; [lia|]. split; [exact Hatj|]. split; [exact HF|]. split.
      * rewrite Hc, Hc1.
        replace (Z.to_nat (j - version)) with (S (Z.to_nat (j - (version + 1)))) by lia.
        rewrite pendingCalls_succ, <- !app_assoc.
        unfold stepCallsAt. now rewrite Hat.
      * rewrite Hp. destruct (Z.eqb_spec j (version + 1)) as [->|Hne].
        -- rewrite Hp1. destruct (Z.eqb_spec (version + 1) version); [lia|reflexivity].
        -- destruct (Z.eqb_spec j version); [lia|reflexivity].
    + inversion 1. subst e1 w1. intros Hend.
      destruct (migrateStep_threw versions version definition w w' e Hat Hstep Hend)
        as (partial & HF & Hc).
      exists version, definition, (storage w), partial.
      split; [lia|]. split; [exact Hat|]. split; [exact HF|]. split.
      * rewrite Z.sub_diag. cbn. exact Hc.
      * rewrite Z.eqb_refl.
        apply at_index_In in Hat.
        unfold hooksKeepVersion in Hkeep. rewrite Forall_forall in Hkeep.
        destruct (Hkeep definition) as [Hmig Hbefore];
          [now apply list_elem_of_In|].
        eapply hookFailure_keeps_version; eauto.
Qed.
(** The upsert returns when the callbacks return and the metadata relation
    is there. *)
Lemma run_upsert_returns (t : Z) (w : @World (MemStorage U)) :
  callbacksReturn db ->
  is_Some (metadata (storage w)) ->
  exists r w',
    run (memExec engine) db (versionUpsert t) w = Returned r w'
    /\ is_Some (metadata (storage w')).
Proof.
  intros Hcb [m Hm].
  unfold run, versionUpsert. cbn [built]. rewrite upsert_statement.
  cbn [query valuesOrEmpty values]. unfold bind.
  assert (Hbefore : exists w1, callBeforeQuery db upsertSql w = Returned tt w1
                               /\ storage w1 = storage w).
  { unfold callBeforeQuery.
    destruct (wrapperCallbacks db) as [cb|] eqn:Hdb; [|eexists; split; reflexivity].
    destruct (beforeQuery cb) as [f|] eqn:Hf; [|eexists; split; reflexivity].
    rewrite observe_outcome.
    rewrite (proj1 (Hcb cb Hdb) f Hf). eexists; split; reflexivity. }
  destruct Hbefore as (w1 & -> & Hs1).
  unfold sqlExec. rewrite Hs1, (memExec_upsert engine (storage w) m t Hm).
  cbn [fst snd].
  match goal with
  | |- context [callAfterQuery db ?q ?result ?w2] =>
      assert (Hafter : exists w3, callAfterQuery db q result w2 = Returned tt w3
                                  /\ storage w3 = storage w2)
  end.
  { unfold callAfterQuery.
    destruct (wrapperCallbacks db) as [cb|] eqn:Hdb; [|eexists; split; reflexivity].
    destruct (afterQuery cb) as [f|] eqn:Hf; [|eexists; split; reflexivity].
    rewrite observe_outcome.
    rewrite (proj2 (Hcb cb Hdb) f Hf). eexists; split; reflexivity. }
  destruct Hafter as (w3 & -> & Hs3).
  eexists _, w3. split; [reflexivity|]. rewrite Hs3. cbn. eauto.
Qed.

(** The loop returns when the hooks complete and the callbacks return. *)
Lemma migrateLoop_returns (versions : list MigrationVersionDefinition) (n : nat) :
  hooksComplete versions ->
  callbacksReturn db ->
  forall (version : Z) (w : @World (MemStorage U)),
    (0 <= version)%Z ->
    (version + Z.of_nat n <= Z.of_nat (length versions))%Z ->
    is_Some (metadata (storage w)) ->
    exists w', migrateLoop (memExec engine) db versions n version w = Returned tt w'.
Proof.
  intros Hhooks Hcb.
  induction n as [|n IH]; intros version w Hpos Hle Hmeta.
  - eexists. reflexivity.
  - cbn [migrateLoop]. unfold bind at 1.
    destruct (at_index_Some versions version) as [definition Hat]; [lia|].
    assert (Hdef : completes (migrate definition)
                   /\ forall hook, beforeMigrate definition = Some hook -> completes hook).
    { unfold hooksComplete in Hhooks. rewrite Forall_forall in Hhooks.
      apply Hhooks, list_elem_of_In. eapply at_index_In. exact Hat. }
    destruct Hdef as [Hmigrate Hbefore].
    assert (Hstep : exists w1, migrateStep (memExec engine) db versions version w
                               = Returned tt w1
                               /\ is_Some (metadata (storage w1))).
    { unfold migrateStep. rewrite Hat.
      unfold consoleLog, callHook, bind, record, ret. cbn [storage trace].
      destruct (beforeMigrate definition) as [hook|] eqn:Hb.
      - destruct (Hbefore hook eq_refl (storage w)) as [Hret Hkeep].
        cbn [storage trace]. rewrite Hret. cbn [storage trace].
        destruct (Hmigrate (hook (storage w)).2) as [Hret2 Hkeep2]. rewrite Hret2.
        match goal with
        | |- context [run _ _ _ ?w2] =>
            destruct (run_upsert_returns (version + 1) w2 Hcb) as (r & w3 & Hrun & Hm3)
        end.
        { cbn [storage]. auto. }
        rewrite Hrun. eauto.
      - cbn [storage trace].
        destruct (Hmigrate (storage w)) as [Hret2 Hkeep2]. rewrite Hret2.
        match goal with
        | |- context [run _ _ _ ?w2] =>
            destruct (run_upsert_returns (version + 1) w2 Hcb) as (r & w3 & Hrun & Hm3)
        end.
        { cbn [storage]. auto. }
        rewrite Hrun. eauto. }
    destruct Hstep as (w1 & -> & Hm1).
    apply IH; [lia | lia | exact Hm1].
Qed.

(** A run returns when the version is readable and within the migrations,
    the hooks complete, and the callbacks and the observer return. *)
Lemma migrateDatabase_returns (versions : list MigrationVersionDefinition)
      (options : Options) (w : @World (MemStorage U)) (v : Z) :
  schemaVersionOf (storage w) = Some v ->
  (0 <= v <= Z.of_nat (length versions))%Z ->
  hooksComplete versions ->
  callbacksReturn db ->
  observerReturns options ->
  exists w', migrateDatabase (memExec engine) db versions options w = Returned tt w'.
Proof.
  intros Hv Hrange Hhooks Hcb Hobs.
  unfold migrateDatabase, bind at 1.
  rewrite getSchemaVersion_run. unfold schemaVersionOf in Hv.
  assert (Hread : match persisted (storage w) with
                  | Some (SVNumber n) => n = v
                  | None => v = 0%Z
                  | Some _ => False
                  end).
  { destruct (persisted (storage w)) as [[s|n| |bytes]|]; try discriminate;
      now inversion Hv. }
  set (w0 := MkWorld (ensureMetadata (storage w)) (trace w ++ readEvents)).
  assert (Hgo : exists w', (if (v =? Z.of_nat (length versions))%Z then ret tt
                            else
                              match beforeMigration options with
                              | Some f =>
                                  observe (EvBeforeMigration
                                             (slice versions v (Z.of_nat (length versions))))
                                          (f (slice versions v (Z.of_nat (length versions))))
                              | None => ret tt
                              end ;;;
                              migrateLoop (memExec engine) db versions
                                (Z.to_nat (Z.of_nat (length versions) - v)) v) w0
                           = Returned tt w').
  { destruct (v =? Z.of_nat (length versions))%Z; [eexists; reflexivity|].
    unfold bind.
    destruct (beforeMigration options) as [f|] eqn:Hf.
    - rewrite observe_outcome, (Hobs f Hf).
      apply (migrateLoop_returns versions _ Hhooks Hcb); [lia | lia |].
      cbn. eauto.
    - unfold ret.
      apply (migrateLoop_returns versions _ Hhooks Hcb); [lia | lia |].
      cbn. eauto. }
  destruct (persisted (storage w)) as [[s|n| |bytes]|]; try contradiction;
    subst; exact Hgo.
Qed.

(** [getSchemaVersion] on a storage whose version is readable. *)
Lemma getSchemaVersion_readable (w : @World (MemStorage U)) (v : Z) :
  schemaVersionOf (storage w) = Some v ->
  getSchemaVersion (memExec engine) w
  = Returned v (MkWorld (ensureMetadata (storage w)) (trace w ++ readEvents)).
Proof.
  intros Hv. rewrite getSchemaVersion_run. unfold schemaVersionOf in Hv.
  destruct (persisted (storage w)) as [[s|n| |bytes]|]; try discriminate;
    inversion Hv; reflexivity.
Qed.

(** [migrateDatabase] after the version was read. *)
Lemma migrateDatabase_run (versions : list MigrationVersionDefinition)
      (options : Options) (w : @World (MemStorage U)) (v : Z) :
  schemaVersionOf (storage w) = Some v ->
  let N := Z.of_nat (length versions) in
  let w0 := MkWorld (ensureMetadata (storage w)) (trace w ++ readEvents) in
  migrateDatabase (memExec engine) db versions options w
  = if (v =? N)%Z then Returned tt w0
    else (match beforeMigration options with
          | Some f => observe (EvBeforeMigration (slice versions v N)) (f (slice versions v N))
          | None => ret tt
          end ;;;
          migrateLoop (memExec engine) db versions (Z.to_nat (N - v)) v) w0.
Proof.
  intros Hv N w0. unfold migrateDatabase, bind at 1.
  rewrite (getSchemaVersion_readable w v Hv). fold N w0.
  destruct (v =? N)%Z; reflexivity.
Qed.

(** A run stops at the first step when the persisted version is negative:
    [versions[version]] is [undefined]. *)
Lemma migrateLoop_negative (versions : list MigrationVersionDefinition) (n : nat)
      (version : Z) (w : @World (MemStorage U)) :
  (version < 0)%Z ->
  migrateLoop (memExec engine) db versions (S n) version w
  = Threw (undefinedPropertyError "name") w.
Proof.
  intros Hneg. cbn [migrateLoop]. unfold bind, migrateStep, at_index.
  rewrite (proj2 (Z.ltb_lt version 0) Hneg). reflexivity.
Qed.

Lemma calls_readEvents : calls (@readEvents (MemStorage U)) = readEvents.
Proof. reflexivity. Qed.

Lemma endsInHook_readEvents (events : list (@Event (MemStorage U))) :
  endsInHook (events ++ readEvents) = false.
Proof.
  unfold readEvents.
  change [EvExec createMetadataSql []; EvExec selectVersionSql []]
    with ([@EvExec (MemStorage U) createMetadataSql []] ++ [EvExec selectVersionSql []]).
  rewrite app_assoc. apply endsInHook_snoc.
Qed.

(** The calls of a run that returned. With [N] migrations and a persisted
    version [v], [0 <= v <= N], the run has made these calls, in this
    order: the two statements that read the version, [beforeMigration] if
    there is one and [v < N], then for each step [v], [v + 1], ..., [N - 1]
    its [beforeMigrate] if it has one, its [migrate], and the upsert of
    [index + 1] under ["schema_version"]; the statement is an insert that
    updates on conflict, and the row holds the value it binds. The storage
    then holds version [N]. When [v = N] the run only reads the version. *)
Lemma migrateDatabase_returned_calls
        (versions : list MigrationVersionDefinition) (options : Options)
        (w w' : @World (MemStorage U)) (v : Z) :
  schemaVersionOf (storage w) = Some v ->
  (0 <= v <= Z.of_nat (length versions))%Z ->
  migrateDatabase (memExec engine) db versions options w = Returned tt w' ->
  let N := Z.of_nat (length versions) in
  calls (trace w')
  = calls (trace w) ++ readEvents ++ observerCalls options versions v
    ++ flat_map (stepCallsAt versions) (seqZ v (N - v))
  /\ schemaVersionOf (storage w') = Some N
  /\ (v = N -> w' = MkWorld (ensureMetadata (storage w)) (trace w ++ readEvents))
  /\ mentions "ON CONFLICT(key) DO UPDATE SET value = ?" upsertSql = true
  /\ (forall (s : MemStorage U) m (t : Z),
        metadata s = Some m ->
        memExec engine upsertSql [PNumber t; PNumber t] s
        = (inr (MkCursor [] 0 1),
           MkMem (Some (<[schemaVersionKey := SVNumber t]> m)) (userData s))).
Proof.
  intros Hv Hrange Hrun N.
  rewrite (migrateDatabase_run versions options w v Hv) in Hrun. fold N in Hrun.
  replace (seqZ v (N - v)) with (seqZ v (Z.of_nat (Z.to_nat (N - v))))
    by (now rewrite Z2Nat.id by lia).
  change (flat_map (stepCallsAt versions) (seqZ v (Z.of_nat (Z.to_nat (N - v)))))
    with (pendingCalls versions v (Z.to_nat (N - v))).
  split.
  - destruct (Z.eqb_spec v N) as [->|Hne].
    + inversion Hrun. subst w'. cbn [trace].
      unfold observerCalls. fold N. rewrite Z.eqb_refl, Z.sub_diag.
      rewrite calls_app, calls_readEvents.
      destruct (beforeMigration options); cbn; now rewrite ?app_nil_r.
    + unfold bind in Hrun at 1.
      unfold observerCalls. fold N. rewrite (proj2 (Z.eqb_neq v N) Hne).
      destruct (beforeMigration options) as [f|].
      * rewrite observe_outcome in Hrun. cbn [storage trace] in Hrun.
        destruct (f (slice versions v N)); [discriminate|].
        apply migrateLoop_returned in Hrun as (Hc & _); [|lia|lia].
        rewrite Hc. cbn [trace]. rewrite !calls_app, calls_readEvents. cbn.
        now rewrite <- !app_assoc.
      * unfold ret in Hrun at 1.
        apply migrateLoop_returned in Hrun as (Hc & _); [|lia|lia].
        rewrite Hc. cbn [trace]. rewrite !calls_app, calls_readEvents. cbn.
        now rewrite <- !app_assoc.
  - split; [|split; [|split; [reflexivity|]]].
    + destruct (Z.eqb_spec v N) as [->|Hne].
      * inversion Hrun. subst w'. cbn [storage].
        now rewrite schemaVersionOf_ensureMetadata.
      * assert (Hloop : exists w1, migrateLoop (memExec engine) db versions
                                     (Z.to_nat (N - v)) v w1 = Returned tt w').
        { unfold bind in Hrun at 1.
          destruct (beforeMigration options) as [f|].
          - rewrite observe_outcome in Hrun.
            destruct (f (slice versions v N)); [discriminate|]. eauto.
          - unfold ret in Hrun at 1. eauto. }
        destruct Hloop as (w1 & Hloop).
        apply migrateLoop_returned in Hloop as (_ & _ & Hn); [|lia|lia].
        destruct Hn as [Hp _]; [lia|].
        unfold schemaVersionOf. rewrite Hp. do 2 f_equal. lia.
    + intros ->. rewrite Z.eqb_refl in Hrun. now inversion Hrun.
    + intros s m t Hm. now apply memExec_upsert.
Qed.

(** A run that throws right after it called a hook of a step, that is,
    when a [beforeMigrate] or a [migrate] raised: the step is some [j] with
    [v <= j < N]; the steps before [j] have completed in order, nothing was
    called after the failing hook (no later hook, no upsert); the storage is
    the one the hook left and, the hooks not touching the row themselves, it
    holds version [j]. The error of the run is the error the hook raised. *)
Lemma abort_after_hook_is_hook_failure
        (versions : list MigrationVersionDefinition) (options : Options)
        (w w' : @World (MemStorage U)) (v : Z) (e : JsError) :
  schemaVersionOf (storage w) = Some v ->
  hooksKeepVersion versions ->
  migrateDatabase (memExec engine) db versions options w = Threw e w' ->
  endsInHook (trace w') = true ->
  exists (j : Z) definition s partial,
    (0 <= v <= j)%Z /\ (j < Z.of_nat (length versions))%Z
    /\ at_index versions j = Some definition
    /\ HookFailure definition j s e (storage w') partial
    /\ calls (trace w')
       = calls (trace w) ++ readEvents ++ observerCalls options versions v
         ++ flat_map (stepCallsAt versions) (seqZ v (j - v)) ++ partial
    /\ schemaVersionOf (storage w') = Some j.
Proof.
  intros Hv Hkeep Hrun Hend.
  rewrite (migrateDatabase_run versions options w v Hv) in Hrun.
  set (N := Z.of_nat (length versions)) in *.
  set (w0 := MkWorld (ensureMetadata (storage w)) (trace w ++ readEvents)) in *.
  destruct (Z.eqb_spec v N) as [Heq|Hne]; [discriminate|].
  unfold bind in Hrun at 1.
  assert (Hloop : exists w1,
             migrateLoop (memExec engine) db versions (Z.to_nat (N - v)) v w1 = Threw e w'
             /\ storage w1 = storage w0
             /\ calls (trace w1)
                = calls (trace w) ++ readEvents ++ observerCalls options versions v
             /\ endsInHook (trace w1) = false).
  { unfold observerCalls. fold N. rewrite (proj2 (Z.eqb_neq v N) Hne).
    destruct (beforeMigration options) as [f|].
    - rewrite observe_outcome in Hrun.
      cbn [storage trace] in Hrun.
      destruct (f (slice versions v N)).
      + inversion Hrun. subst. cbn [trace] in Hend.
        rewrite endsInHook_snoc in Hend. discriminate.
      + eexists. split; [exact Hrun|]. cbn [storage trace].
        split; [reflexivity|]. split.
        * unfold w0. cbn [trace]. rewrite !calls_app, calls_readEvents.
          now rewrite <- app_assoc.
        * apply endsInHook_snoc.
    - unfold ret in Hrun at 1. exists w0. split; [exact Hrun|].
      split; [reflexivity|]. split.
      + unfold w0. cbn [trace]. rewrite calls_app, calls_readEvents.
        now rewrite app_nil_r.
      + apply endsInHook_readEvents. }
  destruct Hloop as (w1 & Hloop & Hs1 & Hc1 & Hend1).
  destruct (Z.lt_ge_cases v 0) as [Hneg|Hpos].
  { replace (Z.to_nat (N - v)) with (S (Z.to_nat (N - v - 1))) in Hloop by lia.
    rewrite migrateLoop_negative in Hloop by exact Hneg.
    inversion Hloop. subst. congruence. }
  destruct (Z.lt_ge_cases N v) as [Hover|Hle].
  { replace (Z.to_nat (N - v)) with 0%nat in Hloop by lia. discriminate. }
  destruct (migrateLoop_hook_failure versions (Z.to_nat (N - v)) Hkeep v w1 w' e)
    as (j & definition & s & partial & Hj & Hat & HF & Hc & Hp);
    [lia | lia | exact Hloop | exact Hend |].
  exists j, definition, s, partial.
  split; [lia|]. split; [lia|]. split; [exact Hat|]. split; [exact HF|]. split.
  - rewrite Hc, Hc1. unfold pendingCalls.
    rewrite Z2Nat.id by lia. now rewrite <- !app_assoc.
  - unfold schemaVersionOf. rewrite Hp.
    destruct (Z.eqb_spec j v) as [->|Hjv]; [|reflexivity].
    rewrite Hs1. unfold w0. cbn [storage]. rewrite persisted_ensureMetadata.
    exact Hv.
Qed.

(** C8, as the code has it. In every run on a storage whose version [v] is
    readable, whatever the outcome, the trace is the two statements that
    read the version, then at most one call of [beforeMigration], then the
    events of the steps. [beforeMigration] is called with
    [versions.slice(v, N)], and only when the option is there and [v] is not
    [N]; no hook is called before it and it is not called again. When
    [v = N] the run returns after it read the version: no call of
    [beforeMigration], no hook, no upsert, and the row is as it was. *)
Theorem observer_called_once_before_steps
        (versions : list MigrationVersionDefinition) (options : Options)
        (w : @World (MemStorage U)) (v : Z) :
  schemaVersionOf (storage w) = Some v ->
  let N := Z.of_nat (length versions) in
  let outcome := migrateDatabase (memExec engine) db versions options w in
  exists steps,
    trace (worldOf outcome)
    = trace w ++ readEvents ++ observerCalls options versions v ++ steps
    /\ forallb (fun ev => negb (isObserverEvent ev)) steps = true
    /\ forallb (fun ev => negb (isHookEvent ev))
               (readEvents ++ observerCalls options versions v) = true
    /\ (length (observerCalls options versions v) <= 1)%nat
    /\ (forall ev, In ev (observerCalls options versions v) ->
          ev = EvBeforeMigration (slice versions v N))
    /\ (v = N ->
        steps = []
        /\ observerCalls options versions v = []
        /\ outcome = Returned tt (MkWorld (ensureMetadata (storage w))
                                          (trace w ++ readEvents))
        /\ persisted (ensureMetadata (storage w)) = persisted (storage w)).
Proof.
  intros Hv N outcome.
  assert (Hobs : forallb (fun ev => negb (isHookEvent ev))
                         (@readEvents (MemStorage U) ++ observerCalls options versions v) = true
                 /\ (length (observerCalls options versions v) <= 1)%nat
                 /\ (forall ev, In ev (observerCalls options versions v) ->
                       ev = EvBeforeMigration (slice versions v N))).
  { unfold observerCalls. fold N.
    destruct (beforeMigration options); [destruct (v =? N)%Z|]; cbn;
      (split; [reflexivity|]); (split; [lia|]); intros ev; intuition. }
  destruct Hobs as (Hhooks & Hlen & Hslice).
  unfold outcome. rewrite (migrateDatabase_run versions options w v Hv). fold N.
  destruct (Z.eqb_spec v N) as [Heq|Hne].
  - exists []. cbn [worldOf trace].
    assert (Hnone : observerCalls options versions v = []).
    { unfold observerCalls. fold N. rewrite (proj2 (Z.eqb_eq v N) Heq).
      now destruct (beforeMigration options). }
    rewrite Hnone in *. rewrite !app_nil_r.
    split; [reflexivity|]. split; [reflexivity|]. split; [exact Hhooks|].
    split; [exact Hlen|]. split; [exact Hslice|].
    intros _. split; [reflexivity|]. split; [reflexivity|].
    split; [reflexivity | apply persisted_ensureMetadata].
  - set (w0 := MkWorld (ensureMetadata (storage w)) (trace w ++ readEvents)).
    assert (Hsteps : forall w1,
               trace w1 = trace w ++ readEvents ++ observerCalls options versions v ->
               exists steps,
                 trace (worldOf (migrateLoop (memExec engine) db versions
                                   (Z.to_nat (N - v)) v w1))
                 = trace w ++ readEvents ++ observerCalls options versions v ++ steps
                 /\ forallb (fun ev => negb (isObserverEvent ev)) steps = true).
    { intros w1 Hw1.
      destruct (migrateLoop_no_observer (memExec engine) db versions
                  (Z.to_nat (N - v)) v w1) as (steps & Htr & Hno).
      exists steps. rewrite Htr, Hw1, <- !app_assoc. auto. }
    assert (Hcalls : observerCalls options versions v
                     = match beforeMigration options with
                       | Some _ => [EvBeforeMigration (slice versions v N)]
                       | None => []
                       end).
    { unfold observerCalls. fold N. now rewrite (proj2 (Z.eqb_neq v N) Hne). }
    unfold bind at 1.
    destruct (beforeMigration options) as [f|] eqn:Hf; rewrite Hcalls in *.
    + rewrite observe_outcome. unfold w0. cbn [storage trace].
      destruct (f (slice versions v N)) as [e|].
      * exists []. cbn [worldOf trace]. rewrite app_nil_r, <- app_assoc.
        split; [reflexivity|]. split; [reflexivity|]. split; [exact Hhooks|].
        split; [exact Hlen|]. split; [exact Hslice|]. intros Heq. contradiction.
      * destruct (Hsteps (MkWorld (ensureMetadata (storage w))
                            ((trace w ++ readEvents)
                               ++ [EvBeforeMigration (slice versions v N)])))
          as (steps & Htr & Hno).
        { cbn [trace]. now rewrite <- app_assoc. }
        exists steps. split; [exact Htr|]. split; [exact Hno|].
        split; [exact Hhooks|]. split; [exact Hlen|]. split; [exact Hslice|].
        intros Heq. contradiction.
    + unfold ret.
      destruct (Hsteps w0) as (steps & Htr & Hno).
      { unfold w0. cbn [trace]. now rewrite app_nil_r. }
      exists steps. split; [exact Htr|]. split; [exact Hno|].
      split; [exact Hhooks|]. split; [exact Hlen|]. split; [exact Hslice|].
      intros Heq. contradiction.
Qed.
End MigrationRuns.

(** ** The runs of the examples *)

(** The claim C3 makes fails here: the second step's [migrate] throws, the
    storage holds version [1], and the error of the run is the error of the
    hook, which has no cause and names neither the step nor its target
    version. *)
Lemma hook_error_is_not_annotated :
  let versions := [createUsers; addPostsFailing] in
  let run := migrateDatabase (memExec noEngine) (createWrapper None) versions
                             (observedOptions versions) (MkWorld emptyStorage []) in
  run = Threw tableExists (worldOf run)
  /\ schemaVersionOf (storage (worldOf run)) = Some 1%Z
  /\ errorCause tableExists = None
  /\ mentions "Add posts table" (errorMessage tableExists) = false
  /\ annotatedStepError tableExists tableExists "Add posts table" 2 = false.
Proof. vm_compute. repeat split; reflexivity. Qed.

Lemma observer_called_once_before_steps_witness :
  let versions := [createUsers; addPosts] in
  let w := MkWorld (storageAt 2 ["users"; "posts"]) [] in
  schemaVersionOf (storage w) = Some 2%Z
  /\ trace (worldOf (migrateDatabase (memExec noEngine) (createWrapper None) versions
                                     (observedOptions versions) w))
     = readEvents.
Proof.
  intros versions w.
  assert (Hv : schemaVersionOf (storage w) = Some 2%Z) by reflexivity.
  split; [exact Hv|].
  destruct (observer_called_once_before_steps
              noEngine (createWrapper None) versions (observedOptions versions)
              w 2%Z Hv) as (steps & Htrace & _ & _ & _ & _ & Hnoop).
  destruct (Hnoop eq_refl) as (Hsteps & Hnone & _ & _).
  rewrite Htrace, Hsteps, Hnone. reflexivity.
Defined.

(** The claim C8 makes fails here: the storage holds version [3], there are
    two migrations, the slice is empty, and [beforeMigration] is called,
    with the empty slice. *)
Lemma observer_called_with_empty_slice :
  let versions := [createUsers; addPosts] in
  let w := MkWorld (storageAt 3 ["users"; "posts"; "tags"]) [] in
  slice versions 3 (Z.of_nat (length versions)) = []
  /\ trace (worldOf (migrateDatabase (memExec noEngine) (createWrapper None) versions
                                     (observedOptions versions) w))
     = readEvents ++ [EvBeforeMigration []].
Proof. split; vm_compute; reflexivity. Qed.

(** Two migrations on a fresh storage, then the same call again: the second
    run only reads the version. *)
Example second_run_is_a_no_op :
  let versions := [createUsers; addPosts] in
  let run w := worldOf (migrateDatabase (memExec noEngine) (createWrapper None) versions
                                        (observedOptions versions) w) in
  let first := run (MkWorld emptyStorage []) in
  let second := run (MkWorld (storage first) []) in
  schemaVersionOf (storage first) = Some 2%Z
  /\ userData (storage first) = ["users"; "posts"]
  /\ trace second = readEvents
  /\ storage second = storage first.
Proof. vm_compute. repeat split; reflexivity. Qed.

(** After the failure of the second step, a run with a second step that
    works starts from the persisted version [1]: it calls [beforeMigration]
    with the second step alone and runs that step. *)
Example rerun_resumes_after_failure :
  let failed := worldOf (migrateDatabase (memExec noEngine) (createWrapper None)
                           [createUsers; addPostsFailing]
                           (observedOptions [createUsers; addPostsFailing])
                           (MkWorld emptyStorage [])) in
  let versions := [createUsers; addPosts] in
  let resumed := worldOf (migrateDatabase (memExec noEngine) (createWrapper None) versions
                            (observedOptions versions) (MkWorld (storage failed) [])) in
  schemaVersionOf (storage failed) = Some 1%Z
  /\ calls (trace resumed)
     = readEvents ++ [EvBeforeMigration [addPosts]; EvBeforeMigrate 1; EvMigrate 1;
                      EvExec upsertSql [PNumber 2; PNumber 2]]
  /\ schemaVersionOf (storage resumed) = Some 2%Z.
Proof. vm_compute. repeat split; reflexivity. Qed.

(** ** The examples of the specification and of the tests *)

Example nested_fragment_is_spliced :
  build (sql ["A "; " C"] [Frag (sql ["B "; EmptyString] [Prim (PNumber 1)])])
  = MkStatement "A B ? C" (Some [PNumber 1]).
Proof. reflexivity. Qed.

Example no_values_is_undefined :
  build (sql ["SELECT * FROM hello"] []) = MkStatement "SELECT * FROM hello" None.
Proof. reflexivity. Qed.

Example join_in_parentheses :
  build (sql ["SELECT * FROM users WHERE id IN ("; ")"]
             [Frag (sql_join [PNumber 1; PNumber 2; PNumber 3])])
  = MkStatement "SELECT * FROM users WHERE id IN (?, ?, ?)"
                (Some [PNumber 1; PNumber 2; PNumber 3]).
Proof. reflexivity. Qed.

Example join_of_nothing :
  build (sql ["SELECT * FROM users WHERE id IN ("; ")"] [Frag (sql_join [])])
  = MkStatement "SELECT * FROM users WHERE id IN (NULL)" None.
Proof. reflexivity. Qed.

Example list_of_two :
  build (sql ["SELECT * WHERE id IN "; EmptyString]
             [Frag (sql_list [PNumber 1; PNumber 2])])
  = MkStatement "SELECT * WHERE id IN (?, ?)" (Some [PNumber 1; PNumber 2]).
Proof. reflexivity. Qed.

Example empty_template_is_empty :
  isEmpty (sql [EmptyString] []) = true
  /\ isEmpty (sql ["DEFAULT"] []) = false
  /\ isEmpty (sql ["SELECT * FROM hello WHERE id = "; EmptyString] [Prim (PNumber 1)]) = false
  /\ isEmpty (sql_join []) = false.
Proof. repeat split; reflexivity. Qed.

(** A slot that is missing is [undefined]: a template with more segments
    than values gets a placeholder for each. *)
Example missing_value_is_undefined :
  build (sql ["a "; " b "; " c"] [Prim (PNumber 1)])
  = MkStatement "a ? b ? c" (Some [PNumber 1; PUndefined]).
Proof. reflexivity. Qed.

(** What the engine stores for a bound parameter is what the coercion table
    of the specification makes of it. *)
Lemma bindValue_specCoerce (p : Primitive) : bindValue (specCoerce p) = bindValue p.
Proof. destruct p as [s|n|[|]| | |bytes|buffer off len]; reflexivity. Qed.

(** * More properties of sql-tag.ts *)

(** ** [expand] appends to the state it is given *)

Lemma extend_emptyState_l (d : ExpandState) : extend emptyState d = d.
Proof. destruct d. reflexivity. Qed.

Lemma extend_emptyState_r (st : ExpandState) : extend st emptyState = st.
Proof.
  destruct st. unfold extend. cbn. now rewrite string_app_nil_r, app_nil_r.
Qed.

Lemma extend_assoc (a b c : ExpandState) :
  extend (extend a b) c = extend a (extend b c).
Proof. unfold extend. cbn. now rewrite string_app_assoc, app_assoc. Qed.

Lemma appendQuery_extend (s : string) (a b : ExpandState) :
  appendQuery s (extend a b) = extend a (appendQuery s b).
Proof. unfold appendQuery, extend. cbn. now rewrite string_app_assoc. Qed.

Lemma pushValue_extend (p : Primitive) (a b : ExpandState) :
  pushValue p (extend a b) = extend a (pushValue p b).
Proof. unfold pushValue, extend. cbn. now rewrite string_app_assoc, app_assoc. Qed.

Lemma expandMissing_extend (rest : list string) (st : ExpandState) :
  expandMissing rest st = extend st (expandMissing rest emptyState).
Proof.
  revert st. induction rest as [|s rest IH]; intros st.
  - cbn. now rewrite extend_emptyState_r.
  - cbn [expandMissing]. rewrite IH.
    rewrite (IH (appendQuery s (pushValue PUndefined emptyState))).
    rewrite <- extend_assoc, <- appendQuery_extend.
    rewrite <- (pushValue_extend PUndefined st emptyState).
    now rewrite extend_emptyState_r.
Qed.

Lemma expandSlots_extend (vals : list TemplateValue) :
  Forall (fun value => forall st,
              expandValue value st = extend st (expandValue value emptyState)) vals ->
  forall rest st,
    expandSlots expandValue vals rest st
    = extend st (expandSlots expandValue vals rest emptyState).
Proof.
  induction 1 as [|value vals Hvalue _ IH]; intros rest st.
  - rewrite !expandSlots_no_values. apply expandMissing_extend.
  - destruct rest as [|s rest]; [cbn; now rewrite extend_emptyState_r|].
    cbn [expandSlots]. rewrite IH.
    rewrite (IH rest (appendQuery s (expandValue value emptyState))).
    rewrite <- extend_assoc, <- appendQuery_extend, <- Hvalue. reflexivity.
Qed.

(** What a value adds to the state does not depend on the state. *)
Lemma expandValue_extend (value : TemplateValue) (st : ExpandState) :
  expandValue value st = extend st (expandValue value emptyState).
Proof.
  revert st.
  induction value as [p | b e strs vals IH] using TemplateValue_tree_ind; intros st.
  - cbn [expandValue]. rewrite <- pushValue_extend. now rewrite extend_emptyState_r.
  - cbn [expandValue]. unfold expandLoop.
    destruct strs as [|s0 rest]; [now rewrite extend_emptyState_r|].
    rewrite (expandSlots_extend vals IH).
    rewrite (expandSlots_extend vals IH rest (appendQuery s0 emptyState)).
    rewrite <- extend_assoc, <- appendQuery_extend.
    now rewrite extend_emptyState_r.
Qed.

(** The statement built around one nested fragment, in terms of what the
    template of the fragment expands to. *)
Lemma nested_template_in_place (before after : string) (f : SqlQueryFragment) :
  let inner := expandTemplate (templateStrings f) (templateValues f) in
  let outer := build (sql [before; after] [Frag f]) in
  query outer = before +:+ query inner +:+ after
  /\ valuesOrEmpty outer = valuesOrEmpty inner.
Proof.
  intros inner outer. unfold outer, inner.
  change (build (sql [before; after] [Frag f]))
    with (expandTemplate [before; after] [Frag f]).
  unfold expandTemplate. rewrite !valuesOrEmpty_optional. cbn [query].
  unfold expand at 1 3. cbn [expandLoop expandSlots].
  rewrite expandValue_extend.
  destruct f as [b e strs vals]. cbn [expandValue templateStrings templateValues].
  fold (expand strs vals emptyState).
  unfold appendQuery, extend. cbn [st_query st_values].
  rewrite !string_app_nil_l, string_app_assoc. split; reflexivity.
Qed.

(** X1. A fragment made by [sql], [sql.join] or [sql.list] and nested in a
    template contributes exactly what its own [build] returns: its text
    stands between the surrounding literals, its parameters are the
    parameters. *)
Theorem library_fragments_nest_as_they_build (before after : string) :
  let nests f :=
    query (build (sql [before; after] [Frag f])) = before +:+ query (build f) +:+ after
    /\ valuesOrEmpty (build (sql [before; after] [Frag f])) = valuesOrEmpty (build f) in
  (forall strs vals, nests (sql strs vals))
  /\ (forall vs, nests (sql_join vs))
  /\ (forall vs, nests (sql_list vs)).
Proof.
  intros nests. unfold nests. split; [|split].
  - intros strs vals. apply (nested_template_in_place before after (sql strs vals)).
  - intros [|v vs].
    + apply (nested_template_in_place before after (sql_join [])).
    + apply (nested_template_in_place before after (sql_join (v :: vs))).
  - intros [|v vs].
    + apply (nested_template_in_place before after (sql_list [])).
    + apply (nested_template_in_place before after (sql_list (v :: vs))).
Qed.

(** ** The text does not depend on the values *)

Lemma sameText_appendQuery (s : string) (st st' : ExpandState) :
  sameText st st' -> sameText (appendQuery s st) (appendQuery s st').
Proof. intros [Hq Hl]. split; cbn; [now rewrite Hq | exact Hl]. Qed.

Lemma sameText_pushValue (p p' : Primitive) (st st' : ExpandState) :
  sameText st st' -> sameText (pushValue p st) (pushValue p' st').
Proof.
  intros [Hq Hl]. split; cbn; [now rewrite Hq|].
  rewrite !length_app. cbn. now rewrite Hl.
Qed.

Lemma sameText_expandMissing (rest : list string) (st st' : ExpandState) :
  sameText st st' -> sameText (expandMissing rest st) (expandMissing rest st').
Proof.
  revert st st'. induction rest as [|s rest IH]; intros st st' Hst; [exact Hst|].
  cbn [expandMissing]. apply IH.
  now apply sameText_appendQuery, sameText_pushValue.
Qed.

Lemma sameText_expandSlots (vals : list TemplateValue) :
  Forall (fun value => forall st st', sameText st st' ->
              sameText (expandValue value st) (expandValue (eraseValue value) st')) vals ->
  forall rest st st',
    sameText st st' ->
    sameText (expandSlots expandValue vals rest st)
             (expandSlots expandValue (List.map eraseValue vals) rest st').
Proof.
  induction 1 as [|value vals Hvalue _ IH]; intros rest st st' Hst.
  - cbn [List.map]. rewrite !expandSlots_no_values.
    now apply sameText_expandMissing.
  - destruct rest as [|s rest]; [exact Hst|].
    cbn [List.map expandSlots]. apply IH.
    now apply sameText_appendQuery, Hvalue.
Qed.

Lemma sameText_expandValue (value : TemplateValue) :
  forall st st', sameText st st' ->
                 sameText (expandValue value st) (expandValue (eraseValue value) st').
Proof.
  induction value as [p | b e strs vals IH] using TemplateValue_tree_ind;
    intros st st' Hst.
  - now apply sameText_pushValue.
  - cbn [eraseValue expandValue]. unfold expandLoop.
    destruct strs as [|s0 rest]; [exact Hst|].
    apply (sameText_expandSlots vals IH). now apply sameText_appendQuery.
Qed.

(** X2. The text [build] returns does not depend on the scalar values of
    the template, at any depth: with every scalar replaced by [null] the
    text is the same, character for character, and the parameters are as
    many. No value reaches the text. *)
Theorem query_text_ignores_scalar_values (strs : list string)
        (vals : list TemplateValue) :
  query (build (sql strs vals))
  = query (build (sql strs (List.map eraseValue vals)))
  /\ length (valuesOrEmpty (build (sql strs vals)))
     = length (valuesOrEmpty (build (sql strs (List.map eraseValue vals)))).
Proof.
  pose proof (sameText_expandValue (Frag (sql strs vals)) emptyState emptyState
                (conj eq_refl eq_refl)) as [Hq Hl].
  change (build (sql strs vals)) with (expandTemplate strs vals).
  change (build (sql strs (List.map eraseValue vals)))
    with (expandTemplate strs (List.map eraseValue vals)).
  unfold expandTemplate. rewrite !valuesOrEmpty_optional. cbn [query].
  split; [exact Hq | exact Hl].
Qed.

(** ** Templates whose strings and values do not match *)

Lemma expandSlots_flat (rest : list string) :
  forall (ps : list Primitive) (st : ExpandState),
    expandSlots expandValue (Prim <$> ps) rest st
    = MkExpandState (st_query st +:+ holes rest)
                    (st_values st ++ resize (length rest) PUndefined ps).
Proof.
  induction rest as [|s rest IH]; intros ps st.
  - destruct st, ps; cbn; now rewrite string_app_nil_r, app_nil_r.
  - destruct ps as [|p ps].
    + cbn [fmap list_fmap expandSlots expandMissing].
      rewrite <- expandSlots_no_values.
      change (@nil TemplateValue) with (Prim <$> @nil Primitive).
      rewrite IH. cbn [appendQuery pushValue st_query st_values holes length].
      rewrite !resize_nil. cbn [replicate].
      rewrite !string_app_assoc, <- app_assoc. reflexivity.
    + cbn [fmap list_fmap expandSlots expandValue].
      change (list_fmap Primitive TemplateValue Prim ps) with (Prim <$> ps).
      rewrite IH. cbn [appendQuery pushValue st_query st_values holes length resize].
      rewrite !string_app_assoc, <- app_assoc. reflexivity.
Qed.

(** X3. For a template of scalars, the number of placeholders is the number
    of strings minus one, whatever the number of values: a value that is
    missing is bound as [undefined], values beyond the last string are
    dropped, and each string is in the text behind its placeholder. A
    template without strings builds the empty text and no parameter. *)
Theorem flat_template_has_one_slot_per_gap (s0 : string) (rest : list string)
        (ps : list Primitive) (vals : list TemplateValue) :
  let statement := build (sql (s0 :: rest) (Prim <$> ps)) in
  query statement = s0 +:+ holes rest
  /\ valuesOrEmpty statement = resize (length rest) PUndefined ps
  /\ length (valuesOrEmpty statement) = length rest
  /\ ((length ps <= length rest)%nat ->
      valuesOrEmpty statement = ps ++ replicate (length rest - length ps) PUndefined)
  /\ ((length rest <= length ps)%nat ->
      valuesOrEmpty statement = take (length rest) ps)
  /\ build (sql [] vals) = MkStatement EmptyString None.
Proof.
  intros statement.
  assert (Hst : statement
                = MkStatement (s0 +:+ holes rest)
                    (if (0 <? length (resize (length rest) PUndefined ps))%nat
                     then Some (resize (length rest) PUndefined ps) else None)).
  { unfold statement.
    change (build (sql (s0 :: rest) (Prim <$> ps)))
      with (expandTemplate (s0 :: rest) (Prim <$> ps)).
    unfold expandTemplate, expand, expandLoop. rewrite expandSlots_flat.
    cbn [appendQuery st_query st_values app]. now rewrite string_app_nil_l. }
  rewrite Hst, valuesOrEmpty_optional. cbn [query].
  split; [reflexivity|]. split; [reflexivity|].
  split; [apply length_resize|].
  split; [intros Hle; now apply resize_ge|].
  split; [intros Hle; now apply resize_le | reflexivity].
Qed.

(** ** [isEmpty] *)

(** X4. [isEmpty()] of a fragment made by [sql] is true exactly for the
    template of one empty string and no value, which builds the empty
    statement. A fragment made by [sql.join] or [sql.list] is never empty,
    the one of the empty list included. *)
Theorem isEmpty_only_for_the_empty_template :
  (forall strs vals,
      isEmpty (sql strs vals) = true <-> strs = [EmptyString] /\ vals = [])
  /\ (forall strs vals,
         isEmpty (sql strs vals) = true ->
         build (sql strs vals) = MkStatement EmptyString None)
  /\ (forall vs, isEmpty (sql_join vs) = false)
  /\ (forall vs, isEmpty (sql_list vs) = false).
Proof.
  assert (Hiff : forall strs vals,
             isEmpty (sql strs vals) = true <-> strs = [EmptyString] /\ vals = []).
  { intros strs vals. cbn [isEmpty sql]. unfold isTemplateEmpty. split.
    - intros H. apply andb_prop in H as [H Hvals]. apply andb_prop in H as [Hlen Hs0].
      destruct strs as [|s0 [|s1 strs]]; try discriminate.
      destruct s0; [|discriminate]. destruct vals; [|discriminate]. auto.
    - intros [-> ->]. reflexivity. }
  split; [exact Hiff|]. split; [|split].
  - intros strs vals H. apply Hiff in H as [-> ->]. reflexivity.
  - intros [|v vs]; [reflexivity|].
    cbn [sql_join length Nat.eqb isEmpty]. unfold isTemplateEmpty.
    cbn [fmap list_fmap length Nat.eqb]. apply andb_false_r.
  - intros [|v vs]; [reflexivity|].
    cbn [sql_list length Nat.eqb isEmpty]. unfold isTemplateEmpty.
    cbn [fmap list_fmap length Nat.eqb]. apply andb_false_r.
Qed.

(** * More properties of db-wrapper.ts *)

Section QueryErrors.
Context {Storage : Type}.
Variable exec : string -> list Primitive -> Storage -> (JsError + SqlStorageCursor) * Storage.

(** X5. When the [beforeQuery] callback throws, the statement is not sent:
    [run] and the four query helpers throw the error of the callback, the
    storage is untouched and the engine was not called. *)
Theorem beforeQuery_error_prevents_the_statement db (cb : QueryCallbacks)
        (f : string -> option JsError) (statement : FragmentOrStatement)
        (e : JsError) (w : @World Storage) :
  wrapperCallbacks db = Some cb ->
  beforeQuery cb = Some f ->
  f (query (built statement)) = Some e ->
  let w' := MkWorld (storage w) (trace w ++ [EvBeforeQuery (query (built statement))]) in
  run exec db statement w = Threw e w'
  /\ queryMany exec db statement w = Threw e w'
  /\ queryOne exec db statement w = Threw e w'
  /\ queryNoneOrOne exec db statement w = Threw e w'
  /\ queryNone exec db statement w = Threw e w'.
Proof.
  intros Hdb Hf He w'.
  assert (Hbefore : callBeforeQuery db (query (built statement)) w = Threw e w').
  { unfold callBeforeQuery. rewrite Hdb, Hf, observe_outcome, He. reflexivity. }
  assert (Hcommon : queryCommon exec db statement w = Threw e w').
  { unfold queryCommon, bind. now rewrite Hbefore. }
  split; [unfold run, bind; now rewrite Hbefore|].
  unfold queryMany, queryOne, queryNoneOrOne, queryNone, bind.
  rewrite Hcommon. repeat split; reflexivity.
Qed.

(** X6. When the engine rejects the statement, its error reaches the caller
    of [run] and of the four query helpers as it is; [afterQuery] and the
    mapper are not called: the call of the engine is the last event. *)
Theorem engine_rejection_propagates_unchanged db (statement : FragmentOrStatement)
        (e : JsError) (w w1 : @World Storage) :
  let q := query (built statement) in
  let bindings := valuesOrEmpty (built statement) in
  callBeforeQuery db q w = Returned tt w1 ->
  (exec q bindings (storage w)).1 = inl e ->
  let w' := MkWorld (exec q bindings (storage w)).2 (trace w1 ++ [EvExec q bindings]) in
  run exec db statement w = Threw e w'
  /\ queryMany exec db statement w = Threw e w'
  /\ queryOne exec db statement w = Threw e w'
  /\ queryNoneOrOne exec db statement w = Threw e w'
  /\ queryNone exec db statement w = Threw e w'.
Proof.
  intros q bindings Hbefore Hexec w'.
  pose proof (callBeforeQuery_returned db q w w1 tt Hbefore) as [Hs1 _].
  assert (Hsql : sqlExec exec q bindings w1 = Threw e w').
  { unfold sqlExec. rewrite Hs1, Hexec. reflexivity. }
  assert (Hcommon : queryCommon exec db statement w = Threw e w').
  { unfold queryCommon, bind. fold q bindings. now rewrite Hbefore, Hsql. }
  split; [unfold run, bind; fold q bindings; now rewrite Hbefore, Hsql|].
  unfold queryMany, queryOne, queryNoneOrOne, queryNone, bind.
  rewrite Hcommon. repeat split; reflexivity.
Qed.

(** X7. The four query helpers agree on every statement: [queryOne] returns
    a row exactly when [queryNoneOrOne] returns that row; [queryNoneOrOne]
    returns [null] exactly when [queryMany] returns no row, and so does
    [queryNone] return; an error of [queryMany] is the error of the three
    others. *)
Theorem query_helpers_agree db (statement : FragmentOrStatement) (w : @World Storage) :
  (forall row w',
      queryOne exec db statement w = Returned row w'
      <-> queryNoneOrOne exec db statement w = Returned (Some row) w')
  /\ (forall w',
         queryNoneOrOne exec db statement w = Returned None w'
         <-> queryMany exec db statement w = Returned [] w')
  /\ (forall w',
         queryNone exec db statement w = Returned tt w'
         <-> queryMany exec db statement w = Returned [] w')
  /\ (forall e w',
         queryMany exec db statement w = Threw e w' ->
         queryOne exec db statement w = Threw e w'
         /\ queryNoneOrOne exec db statement w = Threw e w'
         /\ queryNone exec db statement w = Threw e w').
Proof.
  unfold queryMany, queryOne, queryNoneOrOne, queryNone, bind.
  destruct (queryCommon exec db statement w) as [[|r [|r' R]] w1|e1 w1];
    cbn [length Nat.ltb Nat.leb Nat.eqb negb lookup list_lookup lookup_total
         list_lookup_total];
    unfold ret, throw;
    (split; [|split; [|split]]);
    intros; try split; intros;
    try discriminate;
    try match goal with
        | Hx : _ = _ |- _ => inversion Hx; subst; clear Hx
        end;
    repeat split; reflexivity.
Qed.

(** X8. [fragment.map(mapper)] keeps the statement of the fragment and
    changes the rows only: with a mapper that returns on every row,
    [queryMany] of the mapped fragment returns the mapped rows of
    [queryMany] of the fragment, in the same order. *)
Theorem queryMany_of_map db (fragment : SqlQueryFragment)
        (m : SqlRow -> JsError + SqlRow) (g : SqlRow -> SqlRow)
        (w w1 : @World Storage) (R : list SqlRow) :
  queryMany exec db (Fragment fragment) w = Returned R w1 ->
  Forall (fun row => m row = inr (g row)) R ->
  built (MappedFragment (map_fragment fragment m)) = build fragment
  /\ queryMany exec db (MappedFragment (map_fragment fragment m)) w
     = Returned (g <$> R) (MkWorld (storage w1) (trace w1 ++ (EvMapper <$> R))).
Proof.
  intros HR Hg.
  assert (Hbuilt : built (MappedFragment (map_fragment fragment m)) = build fragment)
    by (destruct fragment; reflexivity).
  split; [exact Hbuilt|].
  unfold queryMany in *.
  rewrite (queryCommon_mapped exec db (MappedFragment (map_fragment fragment m)) m w)
    by (destruct fragment; reflexivity).
  rewrite Hbuilt. unfold bind.
  change (queryCommon exec db (Statement (build fragment)) w)
    with (queryCommon exec db (Fragment fragment) w).
  rewrite HR. now apply mapRows_total.
Qed.

(** X9. [pragma] and [pragmaFull] send the same statement, ["PRAGMA "]
    followed by the argument, without parameter: [pragmaFull] is
    [queryMany] of that statement, and [pragma] has the effects and the
    errors of [pragmaFull] and returns, of the rows [pragmaFull] returns,
    the value of the first column of the first row as it is stored;
    [undefined] when the first row has no column, [null] when there is no
    row. *)
Theorem pragma_is_first_value_of_pragmaFull db (p : string) (w : @World Storage) :
  pragmaFull exec db p w
  = queryMany exec db (Statement (MkStatement ("PRAGMA " +:+ p) None)) w
  /\ pragma exec db p w
     = match pragmaFull exec db p w with
       | Returned [] w' => Returned PNull w'
       | Returned ([] :: _) w' => Returned PUndefined w'
       | Returned (((_, SVString s) :: _) :: _) w' => Returned (PString s) w'
       | Returned (((_, SVNumber n) :: _) :: _) w' => Returned (PNumber n) w'
       | Returned (((_, SVNull) :: _) :: _) w' => Returned PNull w'
       | Returned (((_, SVArrayBuffer bytes) :: _) :: _) w' =>
           Returned (PArrayBuffer bytes) w'
       | Threw e w' => Threw e w'
       end.
Proof.
  split; [reflexivity|].
  unfold pragma, pragmaFull, bind.
  destruct (callBeforeQuery db _ w) as [[] w1|e w1]; [|reflexivity].
  destruct (sqlExec exec _ [] w1) as [cursor w2|e w2]; [|reflexivity].
  destruct (callAfterQuery db _ _ w2) as [[] w3|e w3]; [|reflexivity].
  unfold ret.
  destruct (toArray cursor) as [|[|[column [text|n| |bytes]] columns] rows];
    reflexivity.
Qed.

(** The wrapper is used by [run], the four queries and the two pragmas
    through its two callbacks only. *)
Lemma wrappers_with_the_same_callbacks db1 db2 :
  (forall q (w : @World Storage), callBeforeQuery db1 q w = callBeforeQuery db2 q w) ->
  (forall q result (w : @World Storage),
      callAfterQuery db1 q result w = callAfterQuery db2 q result w) ->
  forall (statement : FragmentOrStatement) (p : string) (w : @World Storage),
    run exec db1 statement w = run exec db2 statement w
    /\ queryNone exec db1 statement w = queryNone exec db2 statement w
    /\ queryNoneOrOne exec db1 statement w = queryNoneOrOne exec db2 statement w
    /\ queryOne exec db1 statement w = queryOne exec db2 statement w
    /\ queryMany exec db1 statement w = queryMany exec db2 statement w
    /\ pragma exec db1 p w = pragma exec db2 p w
    /\ pragmaFull exec db1 p w = pragmaFull exec db2 p w.
Proof.
  intros Hbefore Hafter statement p w.
  assert (Hcommon : queryCommon exec db1 statement w = queryCommon exec db2 statement w).
  { unfold queryCommon, bind. rewrite Hbefore.
    destruct (callBeforeQuery db2 _ w) as [[] w1|e w1]; [|reflexivity].
    destruct (sqlExec exec _ _ w1) as [cursor w2|e w2]; [|reflexivity].
    now rewrite Hafter. }
  split; [|split; [|split; [|split; [|split; [|split]]]]].
  - unfold run, bind. rewrite Hbefore.
    destruct (callBeforeQuery db2 _ w) as [[] w1|e w1]; [|reflexivity].
    destruct (sqlExec exec _ _ w1) as [cursor w2|e w2]; [|reflexivity].
    now rewrite Hafter.
  - unfold queryNone, bind. now rewrite Hcommon.
  - unfold queryNoneOrOne, bind. now rewrite Hcommon.
  - unfold queryOne, bind. now rewrite Hcommon.
  - exact Hcommon.
  - unfold pragma, bind. rewrite Hbefore.
    destruct (callBeforeQuery db2 _ w) as [[] w1|e w1]; [|reflexivity].
    destruct (sqlExec exec _ _ w1) as [cursor w2|e w2]; [|reflexivity].
    now rewrite Hafter.
  - unfold pragmaFull, bind. rewrite Hbefore.
    destruct (callBeforeQuery db2 _ w) as [[] w1|e w1]; [|reflexivity].
    destruct (sqlExec exec _ _ w1) as [cursor w2|e w2]; [|reflexivity].
    now rewrite Hafter.
Qed.

(** X10. [withCallbacks] replaces the callbacks key by key, each key on its
    own. For [beforeQuery] as for [afterQuery]: a key that is absent keeps
    the callback of the wrapper, a key present with [undefined] silences
    it, a key present with a function has that function called instead,
    with the arguments of the call, and its error is the error of the
    call. An empty object gives a wrapper that does what the wrapper did,
    for [run], for the four queries and for the two pragmas; both keys
    present with [undefined] give a wrapper without callbacks; and two
    calls in a row are one call with the second object spread over the
    first. *)
Theorem withCallbacks_spreads_over_the_callbacks db (p1 p2 : CallbacksPatch)
        (statement : FragmentOrStatement) (text : string) (result : QueryResult)
        (w : @World Storage) :
  callBeforeQuery (withCallbacks db p1) text w
  = match patchBeforeQuery p1 with
    | None => callBeforeQuery db text w
    | Some None => Returned tt w
    | Some (Some f) =>
        match f text with
        | None => Returned tt (MkWorld (storage w) (trace w ++ [EvBeforeQuery text]))
        | Some e => Threw e (MkWorld (storage w) (trace w ++ [EvBeforeQuery text]))
        end
    end
  /\ callAfterQuery (withCallbacks db p1) text result w
     = match patchAfterQuery p1 with
       | None => callAfterQuery db text result w
       | Some None => Returned tt w
       | Some (Some f) =>
           match f text result with
           | None =>
               Returned tt (MkWorld (storage w) (trace w ++ [EvAfterQuery text result]))
           | Some e =>
               Threw e (MkWorld (storage w) (trace w ++ [EvAfterQuery text result]))
           end
       end
  /\ (let db' := withCallbacks db (MkPatch None None) in
      run exec db' statement w = run exec db statement w
      /\ queryNone exec db' statement w = queryNone exec db statement w
      /\ queryNoneOrOne exec db' statement w = queryNoneOrOne exec db statement w
      /\ queryOne exec db' statement w = queryOne exec db statement w
      /\ queryMany exec db' statement w = queryMany exec db statement w
      /\ pragma exec db' text w = pragma exec db text w
      /\ pragmaFull exec db' text w = pragmaFull exec db text w)
  /\ (let db' := withCallbacks db (MkPatch (Some None) (Some None)) in
      let bare := createWrapper None in
      run exec db' statement w = run exec bare statement w
      /\ queryNone exec db' statement w = queryNone exec bare statement w
      /\ queryNoneOrOne exec db' statement w = queryNoneOrOne exec bare statement w
      /\ queryOne exec db' statement w = queryOne exec bare statement w
      /\ queryMany exec db' statement w = queryMany exec bare statement w
      /\ pragma exec db' text w = pragma exec bare text w
      /\ pragmaFull exec db' text w = pragmaFull exec bare text w)
  /\ withCallbacks (withCallbacks db p1) p2
     = withCallbacks db
         (MkPatch (match patchBeforeQuery p2 with
                   | Some f => Some f
                   | None => patchBeforeQuery p1
                   end)
                  (match patchAfterQuery p2 with
                   | Some f => Some f
                   | None => patchAfterQuery p1
                   end)).
Proof.
  split; [|split; [|split; [|split]]].
  - unfold callBeforeQuery, withCallbacks, spreadCallbacks. cbn.
    destruct (patchBeforeQuery p1) as [[f|]|].
    + apply observe_outcome.
    + reflexivity.
    + destruct (wrapperCallbacks db) as [cb|]; reflexivity.
  - unfold callAfterQuery, withCallbacks, spreadCallbacks. cbn.
    destruct (patchAfterQuery p1) as [[f|]|].
    + apply observe_outcome.
    + reflexivity.
    + destruct (wrapperCallbacks db) as [cb|]; reflexivity.
  - apply wrappers_with_the_same_callbacks.
    + intros q w0. unfold callBeforeQuery, withCallbacks, spreadCallbacks. cbn.
      destruct (wrapperCallbacks db) as [cb|]; reflexivity.
    + intros q r w0. unfold callAfterQuery, withCallbacks, spreadCallbacks. cbn.
      destruct (wrapperCallbacks db) as [cb|]; reflexivity.
  - apply wrappers_with_the_same_callbacks; reflexivity.
  - unfold withCallbacks, spreadCallbacks, createWrapper. cbn.
    destruct (patchBeforeQuery p2), (patchAfterQuery p2); reflexivity.
Qed.
End QueryErrors.

Section MoreMigrations.
Context {U : Type}.
Variable engine : string -> list Primitive -> MemStorage U
                  -> (JsError + SqlStorageCursor) * MemStorage U.

Lemma ensureMetadata_present (s : MemStorage U) :
  is_Some (metadata s) -> ensureMetadata s = s.
Proof. intros [m Hm]. destruct s as [meta u]. cbn in *. now subst. Qed.

Lemma persisted_metadata (s : MemStorage U) (value : SqlStorageValue) :
  persisted s = Some value -> is_Some (metadata s).
Proof. unfold persisted. destruct (metadata s); [eauto | discriminate]. Qed.

(** The storage a run that returns leaves: it holds the number of
    migrations, in a metadata relation that exists. *)
Lemma migrateDatabase_returned_storage db (versions : list MigrationVersionDefinition)
      (options : Options) (w w' : @World (MemStorage U)) (v : Z) :
  schemaVersionOf (storage w) = Some v ->
  (0 <= v <= Z.of_nat (length versions))%Z ->
  migrateDatabase (memExec engine) db versions options w = Returned tt w' ->
  schemaVersionOf (storage w') = Some (Z.of_nat (length versions))
  /\ is_Some (metadata (storage w')).
Proof.
  intros Hv Hrange Hrun.
  rewrite (migrateDatabase_run engine db versions options w v Hv) in Hrun.
  set (N := Z.of_nat (length versions)) in *.
  destruct (Z.eqb_spec v N) as [->|Hne].
  - inversion Hrun. subst w'. cbn [storage].
    rewrite schemaVersionOf_ensureMetadata. split; [exact Hv | cbn; eauto].
  - assert (Hloop : exists w1, migrateLoop (memExec engine) db versions
                                 (Z.to_nat (N - v)) v w1 = Returned tt w').
    { unfold bind in Hrun at 1.
      destruct (beforeMigration options) as [f|].
      - rewrite observe_outcome in Hrun.
        destruct (f (slice versions v N)); [discriminate|]. eauto.
      - unfold ret in Hrun at 1. eauto. }
    destruct Hloop as (w1 & Hloop).
    apply migrateLoop_returned in Hloop as (_ & _ & Hn); [|lia|lia].
    destruct Hn as [Hp _]; [lia|].
    split.
    + unfold schemaVersionOf. rewrite Hp. do 2 f_equal. lia.
    + eapply persisted_metadata. exact Hp.
Qed.

(** X11. A run of [migrateDatabase] that returned leaves a storage on which
    the next run, with the same migrations and whatever callbacks and
    options, does nothing: it reads the version and returns, without a call
    of [beforeMigration], of a hook or of the upsert, and the storage is
    the same. *)
Theorem migrateDatabase_again_changes_nothing db db'
        (versions : list MigrationVersionDefinition) (options options' : Options)
        (w w' : @World (MemStorage U)) (v : Z) :
  schemaVersionOf (storage w) = Some v ->
  (0 <= v <= Z.of_nat (length versions))%Z ->
  migrateDatabase (memExec engine) db versions options w = Returned tt w' ->
  migrateDatabase (memExec engine) db' versions options' w'
  = Returned tt (MkWorld (storage w') (trace w' ++ readEvents)).
Proof.
  intros Hv Hrange Hrun.
  destruct (migrateDatabase_returned_storage db versions options w w' v Hv Hrange Hrun)
    as [HN Hmeta].
  rewrite (migrateDatabase_run engine db' versions options' w' _ HN).
  rewrite Z.eqb_refl. now rewrite (ensureMetadata_present _ Hmeta).
Qed.

(** The storage a run that returns leaves, whatever the persisted version
    [v] was: [v] is not negative, and the storage holds the number of
    migrations, or [v] if that is more. *)
Lemma migrateDatabase_returned_version db (versions : list MigrationVersionDefinition)
      (options : Options) (w w' : @World (MemStorage U)) (v : Z) :
  schemaVersionOf (storage w) = Some v ->
  migrateDatabase (memExec engine) db versions options w = Returned tt w' ->
  (0 <= v)%Z
  /\ schemaVersionOf (storage w') = Some (Z.max v (Z.of_nat (length versions)))
  /\ is_Some (metadata (storage w')).
Proof.
  intros Hv Hrun.
  set (N := Z.of_nat (length versions)).
  destruct (Z.le_gt_cases v N) as [Hle|Hover];
    [destruct (Z.lt_ge_cases v 0) as [Hneg|Hpos]|].
  - exfalso.
    rewrite (migrateDatabase_run engine db versions options w v Hv) in Hrun.
    fold N in Hrun. rewrite (proj2 (Z.eqb_neq v N)) in Hrun by lia.
    replace (Z.to_nat (N - v)) with (S (Z.to_nat (N - v - 1))) in Hrun by lia.
    unfold bind in Hrun at 1.
    destruct (beforeMigration options) as [f|].
    + rewrite observe_outcome in Hrun.
      destruct (f (slice versions v N)); [discriminate|].
      rewrite migrateLoop_negative in Hrun by exact Hneg. discriminate.
    + unfold ret in Hrun at 1.
      rewrite migrateLoop_negative in Hrun by exact Hneg. discriminate.
  - split; [exact Hpos|]. rewrite Z.max_r by exact Hle.
    apply (migrateDatabase_returned_storage db versions options w w' v Hv); [lia|exact Hrun].
  - split; [unfold N in Hover; lia|]. rewrite Z.max_l by lia.
    rewrite (migrateDatabase_run engine db versions options w v Hv) in Hrun.
    fold N in Hrun. rewrite (proj2 (Z.eqb_neq v N)) in Hrun by lia.
    replace (Z.to_nat (N - v)) with 0%nat in Hrun by lia.
    unfold bind in Hrun at 1.
    assert (Hs : storage w' = ensureMetadata (storage w)).
    { destruct (beforeMigration options) as [f|].
      - rewrite observe_outcome in Hrun.
        destruct (f (slice versions v N)); [discriminate|].
        cbn in Hrun. unfold ret in Hrun. now inversion Hrun.
      - cbn in Hrun. unfold ret in Hrun. now inversion Hrun. }
    rewrite Hs, schemaVersionOf_ensureMetadata. split; [exact Hv | cbn; eauto].
Qed.

(** X12. After [wrapDatabase] returned with migrations on a storage whose
    persisted version [v] was readable, the wrapper has the callbacks of
    the options, [v] was not negative, and [getMigrationStatus] for the
    same [N] migrations reports that nothing is to apply: the list is
    empty and the target version is [N]. The current version is [N] when
    [v] was at most [N]; it is [v], above the target, when [v] was above
    [N]. The storage is the same after the status was read. *)
Theorem wrapDatabase_then_status_has_nothing_to_apply
        (versions : list MigrationVersionDefinition) (options : Options)
        (w w' : @World (MemStorage U)) (v : Z) (db : RootDatabaseWrapper) :
  migrations options = Some versions ->
  schemaVersionOf (storage w) = Some v ->
  wrapDatabase (memExec engine) (Some options) w = Returned db w' ->
  let N := Z.of_nat (length versions) in
  db = createWrapper (Some (callbacks options))
  /\ (0 <= v)%Z
  /\ getMigrationStatus (memExec engine) versions w'
     = Returned (MkStatus (if (v <=? N)%Z then N else v) N [])
                (MkWorld (storage w') (trace w' ++ readEvents)).
Proof.
  intros Hmig Hv Hwrap N.
  unfold wrapDatabase in Hwrap. cbn [fmap option_fmap option_map mbind option_bind] in Hwrap.
  rewrite Hmig in Hwrap. unfold bind, ret in Hwrap.
  destruct (migrateDatabase _ _ _ _ w) as [[] w1|e w1] eqn:Hrun; [|discriminate].
  inversion Hwrap. subst db w1. split; [reflexivity|].
  destruct (migrateDatabase_returned_version _ versions options w w' v Hv Hrun)
    as (Hpos & HN & Hmeta).
  split; [exact Hpos|]. fold N in HN.
  assert (Hmax : Z.max v N = if (v <=? N)%Z then N else v).
  { destruct (Z.leb_spec v N); lia. }
  rewrite Hmax in HN.
  rewrite (getMigrationStatus_run engine w' versions _ HN).
  rewrite (ensureMetadata_present _ Hmeta).
  do 2 f_equal.
  unfold sliceFrom, slice, sliceIndex. fold N.
  destruct (Z.ltb_spec N 0) as [Hneg|_]; [unfold N in Hneg; lia|].
  assert (Hcur : (N <= (if (v <=? N)%Z then N else v))%Z)
    by (destruct (Z.leb_spec v N); lia).
  destruct (Z.ltb_spec (if (v <=? N)%Z then N else v) 0) as [Hneg|_]; [lia|].
  unfold N in *. rewrite Nat2Z.id, Nat.min_id.
  rewrite Nat.min_r by lia. now rewrite Nat.sub_diag.
Qed.

(** X13. With a persisted version above the number of migrations, a run of
    [migrateDatabase] whose [beforeMigration] returns calls no hook and
    persists nothing: it returns after [beforeMigration] was called with
    the empty list. With a negative persisted version it throws the
    [TypeError] of reading [name] on [undefined], before any hook and
    before any upsert. In both cases the rows of the storage are as they
    were. *)
Theorem migrateDatabase_version_out_of_range db
        (versions : list MigrationVersionDefinition) (options : Options)
        (w : @World (MemStorage U)) (v : Z) :
  schemaVersionOf (storage w) = Some v ->
  observerReturns options ->
  let N := Z.of_nat (length versions) in
  let w' := MkWorld (ensureMetadata (storage w))
                    (trace w ++ readEvents ++ observerCalls options versions v) in
  ((N < v)%Z ->
   migrateDatabase (memExec engine) db versions options w = Returned tt w'
   /\ slice versions v N = [])
  /\ ((v < 0)%Z ->
      migrateDatabase (memExec engine) db versions options w
      = Threw (undefinedPropertyError "name") w')
  /\ persisted (storage w') = persisted (storage w)
  /\ userData (storage w') = userData (storage w).
Proof.
  intros Hv Hobs N w'.
  assert (Hrun : (v <> N)%Z ->
                 migrateDatabase (memExec engine) db versions options w
                 = migrateLoop (memExec engine) db versions (Z.to_nat (N - v)) v w').
  { intros Hne. rewrite (migrateDatabase_run engine db versions options w v Hv). fold N.
    rewrite (proj2 (Z.eqb_neq v N) Hne). unfold bind, w', observerCalls. fold N.
    rewrite (proj2 (Z.eqb_neq v N) Hne).
    destruct (beforeMigration options) as [f|] eqn:Hf.
    - rewrite observe_outcome, (Hobs f Hf). cbn [storage trace].
      now rewrite <- app_assoc.
    - unfold ret. now rewrite app_nil_r. }
  split; [|split; [|split]].
  - intros Hover. rewrite Hrun by lia.
    replace (Z.to_nat (N - v)) with 0%nat by lia. split; [reflexivity|].
    unfold slice, sliceIndex.
    rewrite (proj2 (Z.ltb_ge v 0)) by lia.
    rewrite (proj2 (Z.ltb_ge N 0)) by lia.
    unfold N. rewrite Nat2Z.id, Nat.min_id.
    rewrite Nat.min_r by lia. now rewrite Nat.sub_diag.
  - intros Hneg. rewrite Hrun by lia.
    replace (Z.to_nat (N - v)) with (S (Z.to_nat (N - v - 1))) by lia.
    now apply migrateLoop_negative.
  - apply persisted_ensureMetadata.
  - reflexivity.
Qed.

(** X14. On a storage whose version [v] is readable and not negative,
    [getMigrationStatus] lists as many migrations as the target version is
    above [v], none at or above the target, and the one at place [i] is
    migration [v + i]: the list is the steps [v], [v + 1], ... a run
    executes, and it is the list a run passes to [beforeMigration]. With a
    negative [v] the list is the last [-v] migrations. *)
Theorem getMigrationStatus_lists_the_pending_steps
        (versions : list MigrationVersionDefinition)
        (w : @World (MemStorage U)) (v : Z) :
  schemaVersionOf (storage w) = Some v ->
  let N := Z.of_nat (length versions) in
  exists status w',
    getMigrationStatus (memExec engine) versions w = Returned status w'
    /\ currentVersion status = v
    /\ targetVersion status = N
    /\ migrationsToApply status = slice versions v N
    /\ ((0 <= v)%Z ->
        length (migrationsToApply status) = Z.to_nat (N - v)
        /\ forall i : nat,
            migrationsToApply status !! i = at_index versions (v + Z.of_nat i))
    /\ ((v < 0)%Z ->
        migrationsToApply status = drop (Z.to_nat (N + v)) versions).
Proof.
  intros Hv N. eexists _, _.
  split; [apply getMigrationStatus_run; exact Hv|].
  cbn [currentVersion targetVersion migrationsToApply].
  split; [reflexivity|]. split; [reflexivity|]. split; [reflexivity|].
  unfold sliceFrom, slice, sliceIndex. fold N.
  rewrite (proj2 (Z.ltb_ge N 0)) by (unfold N; lia).
  unfold N. rewrite Nat2Z.id, Nat.min_id. fold N.
  split.
  - intros Hpos. rewrite (proj2 (Z.ltb_ge v 0)) by lia.
    rewrite take_ge by (rewrite length_drop; lia).
    split.
    + rewrite length_drop. unfold N. lia.
    + intros i. rewrite lookup_drop. unfold at_index.
      rewrite (proj2 (Z.ltb_ge (v + Z.of_nat i) 0)) by lia.
      destruct (Nat.le_gt_cases (Z.to_nat v) (length versions)) as [Hle|Hgt].
      * rewrite Nat.min_l by lia. f_equal. lia.
      * rewrite Nat.min_r by lia.
        rewrite !lookup_ge_None_2 by lia. reflexivity.
  - intros Hneg. rewrite (proj2 (Z.ltb_lt v 0)) by lia.
    rewrite take_ge by (rewrite length_drop; lia).
    f_equal. unfold N. lia.
Qed.
End MoreMigrations.

(** ** The runs of the examples, continued *)

Lemma beforeQuery_error_prevents_the_statement_witness :
  let db := createWrapper (Some refusing) in
  let w := MkWorld tt [] in
  wrapperCallbacks db = Some refusing
  /\ queryOne (answering [alice]) db (Fragment selectUsers) w
     = Threw notNow (MkWorld tt [EvBeforeQuery "SELECT * FROM users"]).
Proof.
  intros db w. split; [reflexivity|].
  exact (proj1 (proj2 (proj2 (beforeQuery_error_prevents_the_statement
                                (answering [alice]) db refusing (fun _ => Some notNow)
                                (Fragment selectUsers) notNow w
                                eq_refl eq_refl eq_refl)))).
Defined.

Lemma engine_rejection_propagates_unchanged_witness :
  let db := createWrapper None in
  let w := MkWorld (MkMem (U := unit) None tt) [] in
  callBeforeQuery db "SELECT * FROM users" w = Returned tt w
  /\ queryMany (memExec noEngine) db (Fragment selectUsers) w
     = Threw (MkError "Error" "unsupported statement: SELECT * FROM users" None)
             (MkWorld (MkMem None tt) [EvExec "SELECT * FROM users" []]).
Proof.
  intros db w.
  assert (Hbefore : callBeforeQuery db (query (built (Fragment selectUsers))) w
                    = Returned tt w) by reflexivity.
  split; [exact Hbefore|].
  exact (proj1 (proj2 (engine_rejection_propagates_unchanged
                         (memExec noEngine) db (Fragment selectUsers)
                         (MkError "Error" "unsupported statement: SELECT * FROM users" None)
                         w w Hbefore eq_refl))).
Defined.

Lemma queryMany_of_map_witness :
  let db := createWrapper None in
  let w := MkWorld tt [] in
  let w1 := MkWorld tt [EvExec "SELECT * FROM users" []] in
  queryMany (answering [alice; bob]) db (Fragment selectUsers) w
  = Returned [alice; bob] w1
  /\ queryMany (answering [alice; bob]) db
               (MappedFragment (map_fragment selectUsers nameOnly)) w
     = Returned [[("name", SVString "Alice")]; [("name", SVString "Bob")]]
                (MkWorld tt [EvExec "SELECT * FROM users" []; EvMapper alice; EvMapper bob]).
Proof.
  intros db w w1.
  assert (HR : queryMany (answering [alice; bob]) db (Fragment selectUsers) w
               = Returned [alice; bob] w1) by reflexivity.
  assert (Hg : Forall (fun row => nameOnly row = inr (nameColumn row)) [alice; bob])
    by (repeat constructor).
  split; [exact HR|].
  exact (proj2 (queryMany_of_map (answering [alice; bob]) db selectUsers
                  nameOnly nameColumn w w1 [alice; bob] HR Hg)).
Defined.

Lemma migrateDatabase_again_changes_nothing_witness :
  let versions := [createUsers; addPosts] in
  let db := createWrapper None in
  let w := MkWorld emptyStorage [] in
  let first := migrateDatabase (memExec noEngine) db versions (observedOptions versions) w in
  first = Returned tt (worldOf first)
  /\ migrateDatabase (memExec noEngine) db versions (observedOptions versions)
                     (worldOf first)
     = Returned tt (MkWorld (storage (worldOf first)) (trace (worldOf first) ++ readEvents)).
Proof.
  intros versions db w first.
  assert (Hv : schemaVersionOf (storage w) = Some 0%Z) by reflexivity.
  assert (Hrange : (0 <= 0 <= Z.of_nat (length versions))%Z) by (cbn; lia).
  assert (Hrun : first = Returned tt (worldOf first)) by (vm_compute; reflexivity).
  split; [exact Hrun|].
  exact (migrateDatabase_again_changes_nothing
           noEngine db db versions (observedOptions versions) (observedOptions versions)
           w (worldOf first) 0%Z Hv Hrange Hrun).
Defined.

Lemma wrapDatabase_then_status_has_nothing_to_apply_witness :
  let versions := [createUsers; addPosts] in
  let options := observedOptions versions in
  let w := MkWorld emptyStorage [] in
  let wrapped := wrapDatabase (memExec noEngine) (Some options) w in
  wrapped = Returned (createWrapper (Some noCallbacks)) (worldOf wrapped)
  /\ getMigrationStatus (memExec noEngine) versions (worldOf wrapped)
     = Returned (MkStatus 2 2 [])
                (MkWorld (storage (worldOf wrapped)) (trace (worldOf wrapped) ++ readEvents)).
Proof.
  intros versions options w wrapped.
  assert (Hmig : migrations options = Some versions) by reflexivity.
  assert (Hv : schemaVersionOf (storage w) = Some 0%Z) by reflexivity.
  assert (Hwrap : wrapped = Returned (createWrapper (Some noCallbacks)) (worldOf wrapped))
    by (vm_compute; reflexivity).
  split; [exact Hwrap|].
  exact (proj2 (proj2 (wrapDatabase_then_status_has_nothing_to_apply
                         noEngine versions options w (worldOf wrapped) 0%Z
                         (createWrapper (Some noCallbacks)) Hmig Hv Hwrap))).
Defined.

Lemma migrateDatabase_version_out_of_range_witness :
  let versions := [createUsers; addPosts] in
  let options := observedOptions versions in
  let w := MkWorld (storageAt (-1) []) [] in
  schemaVersionOf (storage w) = Some (-1)%Z
  /\ observerReturns options
  /\ migrateDatabase (memExec noEngine) (createWrapper None) versions options w
     = Threw (undefinedPropertyError "name")
             (MkWorld (ensureMetadata (storage w))
                      (trace w ++ readEvents ++ observerCalls options versions (-1))).
Proof.
  intros versions options w.
  assert (Hv : schemaVersionOf (storage w) = Some (-1)%Z) by reflexivity.
  assert (Hobs : observerReturns options).
  { intros f Hf ms. inversion Hf. reflexivity. }
  split; [exact Hv|]. split; [exact Hobs|].
  destruct (migrateDatabase_version_out_of_range
              noEngine (createWrapper None) versions options w (-1)%Z Hv Hobs)
    as (_ & Hneg & _).
  apply Hneg. lia.
Defined.

Lemma getMigrationStatus_lists_the_pending_steps_witness :
  let versions := [createUsers; addPosts] in
  let w := MkWorld (storageAt 1 ["users"]) [] in
  schemaVersionOf (storage w) = Some 1%Z
  /\ exists status w',
      getMigrationStatus (memExec noEngine) versions w = Returned status w'
      /\ migrationsToApply status = [addPosts].
Proof.
  intros versions w.
  assert (Hv : schemaVersionOf (storage w) = Some 1%Z) by reflexivity.
  split; [exact Hv|].
  destruct (getMigrationStatus_lists_the_pending_steps noEngine versions w 1%Z Hv)
    as (status & w' & Hrun & _ & _ & Hslice & _).
  exists status, w'. split; [exact Hrun|]. rewrite Hslice. reflexivity.
Defined.

Section MapperErrors.
Context {Storage : Type}.
Variable exec : string -> list Primitive -> Storage -> (JsError + SqlStorageCursor) * Storage.

(** X15. When the mapper of a mapped fragment throws on a row, [queryMany]
    throws that error: the rows before it were mapped, in order, the rows
    after it are not passed to the mapper, and what the statement did to
    the storage stays done. *)
Theorem queryMany_of_map_stops_at_the_failing_row db (fragment : SqlQueryFragment)
        (m : SqlRow -> JsError + SqlRow) (g : SqlRow -> SqlRow)
        (w w1 : @World Storage) (R1 : list SqlRow) (row : SqlRow) (R2 : list SqlRow)
        (e : JsError) :
  queryMany exec db (Fragment fragment) w = Returned (R1 ++ row :: R2) w1 ->
  Forall (fun r => m r = inr (g r)) R1 ->
  m row = inl e ->
  queryMany exec db (MappedFragment (map_fragment fragment m)) w
  = Threw e (MkWorld (storage w1) (trace w1 ++ (EvMapper <$> R1) ++ [EvMapper row])).
Proof.
  intros HR Hg He.
  assert (Hbuilt : built (MappedFragment (map_fragment fragment m)) = build fragment)
    by (destruct fragment; reflexivity).
  unfold queryMany in *.
  rewrite (queryCommon_mapped exec db (MappedFragment (map_fragment fragment m)) m w)
    by (destruct fragment; reflexivity).
  rewrite Hbuilt. unfold bind.
  change (queryCommon exec db (Statement (build fragment)) w)
    with (queryCommon exec db (Fragment fragment) w).
  rewrite HR. now apply mapRows_throws with (g := g).
Qed.
End MapperErrors.

Lemma queryMany_of_map_stops_at_the_failing_row_witness :
  let db := createWrapper None in
  let w := MkWorld tt [] in
  queryMany (answering [alice; bob]) db (Fragment selectUsers) w
  = Returned ([] ++ alice :: [bob]) (MkWorld tt [EvExec "SELECT * FROM users" []])
  /\ queryMany (answering [alice; bob]) db
               (MappedFragment (map_fragment selectUsers failingMapper)) w
     = Threw mapperError
             (MkWorld tt [EvExec "SELECT * FROM users" []; EvMapper alice]).
Proof.
  intros db w.
  assert (HR : queryMany (answering [alice; bob]) db (Fragment selectUsers) w
               = Returned ([] ++ alice :: [bob])
                          (MkWorld tt [EvExec "SELECT * FROM users" []]))
    by reflexivity.
  split; [exact HR|].
  exact (queryMany_of_map_stops_at_the_failing_row
           (answering [alice; bob]) db selectUsers failingMapper nameColumn
           w (MkWorld tt [EvExec "SELECT * FROM users" []]) [] alice [bob] mapperError
           HR (Forall_nil_2 _) eq_refl).
Defined.

(** ** The storage a run leaves, step by step *)

Section StepStorages.
Context {U : Type}.
Variable engine : string -> list Primitive -> MemStorage U
                  -> (JsError + SqlStorageCursor) * MemStorage U.
Variable db : RootDatabaseWrapper.

Lemma persisted_setVersion (t : Z) (s : MemStorage U) :
  is_Some (metadata s) -> persisted (setVersion t s) = Some (SVNumber t).
Proof.
  intros [m Hm]. unfold setVersion, persisted. rewrite Hm. cbn.
  apply lookup_insert_eq.
Qed.

(** The upsert, when [run] returns: the metadata relation was there and
    the storage is the one it had, with the row set. *)
Lemma run_upsert_storage (t : Z) (w w' : @World (MemStorage U)) (r : RunResult) :
  run (memExec engine) db (versionUpsert t) w = Returned r w' ->
  is_Some (metadata (storage w)) /\ storage w' = setVersion t (storage w).
Proof.
  unfold run, versionUpsert. cbn [built]. rewrite upsert_statement.
  cbn [query valuesOrEmpty values]. unfold bind.
  destruct (callBeforeQuery db upsertSql w) as [[] w1|e w1] eqn:Hb; [|discriminate].
  apply callBeforeQuery_returned in Hb as [Hs1 Hc1].
  unfold sqlExec.
  destruct (metadata (storage w1)) as [m|] eqn:Hm.
  - rewrite (memExec_upsert engine (storage w1) m t Hm). cbn [fst snd].
    destruct (callAfterQuery db _ _ _) as [[] w2|e w2] eqn:Ha; [|discriminate].
    apply callAfterQuery_returned in Ha as [Hs2 Htr2]. cbn [storage trace] in *.
    unfold ret. inversion 1. subst w'.
    rewrite Hs2. unfold setVersion. rewrite <- Hs1, Hm. eauto.
  - rewrite (memExec_upsert_no_table engine _ (storage w1) Hm). discriminate.
Qed.

(** One step that returns: both hooks returned, [migrate] on the storage
    [beforeMigrate] left, and the upsert ran on the storage [migrate]
    left. *)
Lemma migrateStep_returned_storage (versions : list MigrationVersionDefinition)
      (version : Z) (definition : MigrationVersionDefinition)
      (w w' : @World (MemStorage U)) :
  at_index versions version = Some definition ->
  migrateStep (memExec engine) db versions version w = Returned tt w' ->
  hooksReturn definition (storage w)
  /\ is_Some (metadata (storageAfterHooks definition (storage w)))
  /\ storage w' = applyStep definition version (storage w).
Proof.
  intros Hat. unfold migrateStep. rewrite Hat.
  unfold hooksReturn, beforeReturns, applyStep, storageAfterHooks, storageAfterBefore,
    consoleLog, callHook, bind, record, ret.
  cbn [storage trace].
  destruct (beforeMigrate definition) as [hook|].
  - cbn [storage trace].
    destruct (hook (storage w)).1 eqn:Hhook; [discriminate|].
    destruct (migrate definition _).1 eqn:Hmig; [discriminate|].
    destruct (run _ _ _ _) as [r w1|e w1] eqn:Hrun; [|discriminate].
    apply run_upsert_storage in Hrun as (Hmeta & Hs). cbn [storage] in *.
    inversion 1. subst w'. auto.
  - cbn [storage trace].
    destruct (migrate definition _).1 eqn:Hmig; [discriminate|].
    destruct (run _ _ _ _) as [r w1|e w1] eqn:Hrun; [|discriminate].
    apply run_upsert_storage in Hrun as (Hmeta & Hs). cbn [storage] in *.
    inversion 1. subst w'. auto.
Qed.

(** One step returns when its hooks return, [migrate] leaves the metadata
    relation in place and the query callbacks return. *)
Lemma migrateStep_returns (versions : list MigrationVersionDefinition)
      (version : Z) (definition : MigrationVersionDefinition)
      (w : @World (MemStorage U)) :
  callbacksReturn db ->
  at_index versions version = Some definition ->
  hooksReturn definition (storage w) ->
  is_Some (metadata (storageAfterHooks definition (storage w))) ->
  exists w', migrateStep (memExec engine) db versions version w = Returned tt w'.
Proof.
  intros Hcb Hat [Hbefore Hmigrate] Hmeta. unfold migrateStep. rewrite Hat.
  unfold beforeReturns, storageAfterHooks, storageAfterBefore in *.
  unfold consoleLog, callHook, bind, record, ret. cbn [storage trace].
  destruct (beforeMigrate definition) as [hook|].
  - cbn [storage trace]. rewrite Hbefore. cbn [storage trace]. rewrite Hmigrate.
    match goal with
    | |- context [run _ _ _ ?w2] =>
        destruct (run_upsert_returns engine db (version + 1) w2 Hcb) as (r & w3 & Hrun & _)
    end.
    { cbn [storage]. exact Hmeta. }
    rewrite Hrun. eauto.
  - cbn [storage trace]. rewrite Hmigrate.
    match goal with
    | |- context [run _ _ _ ?w2] =>
        destruct (run_upsert_returns engine db (version + 1) w2 Hcb) as (r & w3 & Hrun & _)
    end.
    { cbn [storage]. exact Hmeta. }
    rewrite Hrun. eauto.
Qed.

(** One step whose hook throws: the step throws the error of the hook, as
    it is, and nothing is called after the hook. *)
Lemma migrateStep_hook_throws (versions : list MigrationVersionDefinition)
      (version : Z) (definition : MigrationVersionDefinition)
      (w : @World (MemStorage U)) (e : JsError) (s' : MemStorage U) partial :
  at_index versions version = Some definition ->
  HookFailure definition version (storage w) e s' partial ->
  exists w',
    migrateStep (memExec engine) db versions version w = Threw e w'
    /\ storage w' = s'
    /\ calls (trace w') = calls (trace w) ++ partial
    /\ endsInHook (trace w') = true.
Proof.
  intros Hat HF. unfold migrateStep. rewrite Hat.
  unfold consoleLog, callHook, bind, record, ret. cbn [storage trace].
  destruct HF as [hook e Hb Hthrow | e Hret Hthrow].
  - rewrite Hb. cbn [storage trace]. rewrite Hthrow.
    eexists. split; [reflexivity|]. cbn [storage trace].
    split; [reflexivity|]. split.
    + rewrite !calls_app. cbn. now rewrite app_nil_r.
    + apply endsInHook_snoc.
  - unfold beforeReturns, storageAfterBefore, beforeCalls in *.
    destruct (beforeMigrate definition) as [hook|].
    + cbn [storage trace]. rewrite Hret. cbn [storage trace]. rewrite Hthrow.
      eexists. split; [reflexivity|]. cbn [storage trace].
      split; [reflexivity|]. split.
      * rewrite !calls_app. cbn. now rewrite app_nil_r, <- !app_assoc.
      * apply endsInHook_snoc.
    + cbn [storage trace]. rewrite Hthrow.
      eexists. split; [reflexivity|]. cbn [storage trace].
      split; [reflexivity|]. split.
      * rewrite !calls_app. cbn. now rewrite app_nil_r.
      * apply endsInHook_snoc.
Qed.

(** The loop, when it returns: every step was there, the hooks of each
    returned on the storage the step before left, and the storage is the
    one the steps leave in this order. *)
Lemma migrateLoop_returned_storage (versions : list MigrationVersionDefinition) (n : nat) :
  forall (version : Z) (w w' : @World (MemStorage U)),
    migrateLoop (memExec engine) db versions n version w = Returned tt w' ->
    stepsReturn versions n version (storage w)
    /\ storage w' = applySteps versions n version (storage w).
Proof.
  induction n as [|n IH]; intros version w w'.
  - cbn. unfold ret. inversion 1. auto.
  - cbn [migrateLoop stepsReturn applySteps]. unfold bind.
    destruct (at_index versions version) as [definition|] eqn:Hat.
    + destruct (migrateStep _ _ _ _ w) as [[] w1|e w1] eqn:Hstep; [|discriminate].
      apply (migrateStep_returned_storage versions version definition w w1 Hat) in Hstep
        as (Hhooks & Hmeta & Hs1).
      intros Hloop. apply IH in Hloop as (Hsteps & Hs).
      rewrite <- Hs1. auto.
    + unfold migrateStep. rewrite Hat. discriminate.
Qed.

(** The loop returns when the hooks of its steps return, one after the
    other, and the query callbacks return. *)
Lemma migrateLoop_steps_return (versions : list MigrationVersionDefinition) (n : nat) :
  callbacksReturn db ->
  forall (version : Z) (w : @World (MemStorage U)),
    stepsReturn versions n version (storage w) ->
    exists w', migrateLoop (memExec engine) db versions n version w = Returned tt w'.
Proof.
  intros Hcb. induction n as [|n IH]; intros version w.
  - intros _. eexists. reflexivity.
  - cbn [migrateLoop stepsReturn]. unfold bind at 1.
    destruct (at_index versions version) as [definition|] eqn:Hat; [|contradiction].
    intros (Hhooks & Hmeta & Hsteps).
    destruct (migrateStep_returns versions version definition w Hcb Hat Hhooks Hmeta)
      as (w1 & Hstep).
    rewrite Hstep.
    apply (migrateStep_returned_storage versions version definition w w1 Hat) in Hstep
      as (_ & _ & Hs1).
    apply IH. now rewrite Hs1.
Qed.

(** The row after at least one completed step. *)
Lemma applySteps_persisted (versions : list MigrationVersionDefinition) (k : nat) :
  forall (version : Z) (s : MemStorage U),
    stepsReturn versions k version s ->
    (0 < k)%nat ->
    persisted (applySteps versions k version s) = Some (SVNumber (version + Z.of_nat k)).
Proof.
  induction k as [|k IH]; intros version s; [lia|].
  cbn [stepsReturn applySteps].
  destruct (at_index versions version) as [definition|]; [|contradiction].
  intros (Hhooks & Hmeta & Hsteps) _.
  destruct k as [|k].
  - cbn [applySteps]. unfold applyStep. rewrite persisted_setVersion by exact Hmeta.
    do 2 f_equal; lia.
  - rewrite IH by (try exact Hsteps; lia). do 2 f_equal; lia.
Qed.

(** The loop, when the hooks of [k] steps return and a hook of the next
    step throws: the loop throws the error of that hook, as it is, after
    the calls of the completed steps and of the hooks up to the failing
    one; the storage is the one the failing hook left. *)
Lemma migrateLoop_hook_throws (versions : list MigrationVersionDefinition) :
  callbacksReturn db ->
  forall (k n : nat) (version : Z) (w : @World (MemStorage U))
         (definition : MigrationVersionDefinition) (e : JsError)
         (s' : MemStorage U) partial,
    (k < n)%nat ->
    stepsReturn versions k version (storage w) ->
    at_index versions (version + Z.of_nat k) = Some definition ->
    HookFailure definition (version + Z.of_nat k)
                (applySteps versions k version (storage w)) e s' partial ->
    exists w',
      migrateLoop (memExec engine) db versions n version w = Threw e w'
      /\ storage w' = s'
      /\ calls (trace w') = calls (trace w) ++ pendingCalls versions version k ++ partial
      /\ endsInHook (trace w') = true.
Proof.
  intros Hcb.
  induction k as [|k IH]; intros n version w definition e s' partial Hlt.
  - destruct n as [|n]; [lia|].
    rewrite Z.add_0_r. cbn [stepsReturn applySteps]. intros _ Hat HF.
    destruct (migrateStep_hook_throws versions version definition w e s' partial Hat HF)
      as (w' & Hstep & Hs & Hc & Hend).
    exists w'. cbn [migrateLoop]. unfold bind. rewrite Hstep.
    split; [reflexivity|]. split; [exact Hs|]. split; [exact Hc | exact Hend].
  - destruct n as [|n]; [lia|].
    cbn [stepsReturn applySteps].
    destruct (at_index versions version) as [first|] eqn:Hfirst; [|contradiction].
    intros (Hhooks & Hmeta & Hsteps) Hat HF.
    destruct (migrateStep_returns versions version first w Hcb Hfirst Hhooks Hmeta)
      as (w1 & Hstep).
    pose proof (migrateStep_returned_storage versions version first w w1 Hfirst Hstep)
      as (_ & _ & Hs1).
    pose proof (migrateStep_returned engine db versions version first w w1 Hfirst Hstep)
      as (Hc1 & _ & _).
    replace (version + Z.of_nat (S k))%Z with (version + 1 + Z.of_nat k)%Z in * by lia.
    rewrite <- Hs1 in Hsteps, HF.
    destruct (IH n (version + 1)%Z w1 definition e s' partial) as
      (w' & Hloop & Hs & Hc & Hend); [lia | exact Hsteps | exact Hat | exact HF |].
    exists w'. cbn [migrateLoop]. unfold bind. rewrite Hstep.
    split; [exact Hloop|]. split; [exact Hs|]. split; [|exact Hend].
    rewrite Hc, Hc1, pendingCalls_succ, <- !app_assoc.
    unfold stepCallsAt. now rewrite Hfirst.
Qed.

(** The loop of [migrateDatabase] starts on the storage [getSchemaVersion]
    left, after the call of [beforeMigration]. *)
Lemma migrateDatabase_loop_returned (versions : list MigrationVersionDefinition)
      (options : Options) (w w' : @World (MemStorage U)) (v : Z) :
  schemaVersionOf (storage w) = Some v ->
  v <> Z.of_nat (length versions) ->
  migrateDatabase (memExec engine) db versions options w = Returned tt w' ->
  exists w1,
    storage w1 = ensureMetadata (storage w)
    /\ migrateLoop (memExec engine) db versions
         (Z.to_nat (Z.of_nat (length versions) - v)) v w1 = Returned tt w'.
Proof.
  intros Hv Hne Hrun.
  rewrite (migrateDatabase_run engine db versions options w v Hv) in Hrun.
  rewrite (proj2 (Z.eqb_neq v _) Hne) in Hrun.
  unfold bind in Hrun at 1.
  destruct (beforeMigration options) as [f|].
  - rewrite observe_outcome in Hrun.
    destruct (f _); [discriminate|]. eexists. split; [|exact Hrun]. reflexivity.
  - unfold ret in Hrun at 1. eexists. split; [|exact Hrun]. reflexivity.
Qed.

(** C2. With [N] migrations and a persisted version [v], [0 <= v <= N]:

    a run of [migrateDatabase] that returns has run the pending steps [v],
    [v + 1], ..., [N - 1], in ascending order and each to its end. The
    hooks of each step returned on the storage the step before left (the
    first on the storage [getSchemaVersion] left); in each step [migrate]
    ran on the storage [beforeMigrate] left, if the step has one, and then
    the row ["schema_version"] was set to [index + 1] on the storage
    [migrate] left: the storage of the run is the one these steps leave,
    and it holds version [N]. The calls of the run are, in this order, the
    two statements that read the version, [beforeMigration] if there is
    one and [v < N], then for each step its [beforeMigrate] if it has one,
    its [migrate], and the upsert. When [v = N] the run only reads the
    version: no step is attempted;

    and the run does return when the hooks of the pending steps return,
    one after the other, and leave the metadata relation in place, and the
    query callbacks and [beforeMigration] return.

    The statement of the upsert is an insert that updates on conflict, and
    the row holds the value it binds. *)
Theorem migrateDatabase_applies_pending_steps
        (versions : list MigrationVersionDefinition) (options : Options)
        (w : @World (MemStorage U)) (v : Z) :
  schemaVersionOf (storage w) = Some v ->
  (0 <= v <= Z.of_nat (length versions))%Z ->
  let N := Z.of_nat (length versions) in
  let s0 := ensureMetadata (storage w) in
  let pending := Z.to_nat (N - v) in
  (forall w',
      migrateDatabase (memExec engine) db versions options w = Returned tt w' ->
      stepsReturn versions pending v s0
      /\ storage w' = applySteps versions pending v s0
      /\ calls (trace w')
         = calls (trace w) ++ readEvents ++ observerCalls options versions v
           ++ flat_map (stepCallsAt versions) (seqZ v (N - v))
      /\ schemaVersionOf (storage w') = Some N
      /\ (v = N -> w' = MkWorld s0 (trace w ++ readEvents)))
  /\ (callbacksReturn db ->
      observerReturns options ->
      stepsReturn versions pending v s0 ->
      exists w', migrateDatabase (memExec engine) db versions options w = Returned tt w')
  /\ mentions "ON CONFLICT(key) DO UPDATE SET value = ?" upsertSql = true
  /\ (forall (s : MemStorage U) m (t : Z),
        metadata s = Some m ->
        memExec engine upsertSql [PNumber t; PNumber t] s
        = (inr (MkCursor [] 0 1),
           MkMem (Some (<[schemaVersionKey := SVNumber t]> m)) (userData s))).
Proof.
  intros Hv Hrange N s0 pending.
  split; [|split; [|split; [reflexivity|]]].
  - intros w' Hrun.
    destruct (migrateDatabase_returned_calls engine db versions options w w' v
                Hv Hrange Hrun) as (Hcalls & Hversion & Hnoop & _).
    assert (Hstorage : stepsReturn versions pending v s0
                       /\ storage w' = applySteps versions pending v s0).
    { destruct (Z.eq_dec v N) as [Heq|Hne].
      - rewrite (Hnoop Heq). unfold pending.
        replace (Z.to_nat (N - v)) with 0%nat by lia. cbn. auto.
      - destruct (migrateDatabase_loop_returned versions options w w' v Hv Hne Hrun)
          as (w1 & Hs1 & Hloop).
        apply migrateLoop_returned_storage in Hloop. now rewrite Hs1 in Hloop. }
    destruct Hstorage as [Hsteps Hs].
    split; [exact Hsteps|]. split; [exact Hs|]. split; [exact Hcalls|].
    split; [exact Hversion | exact Hnoop].
  - intros Hcb Hobs Hsteps.
    rewrite (migrateDatabase_run engine db versions options w v Hv). fold N.
    destruct (v =? N)%Z; [eexists; reflexivity|].
    unfold bind at 1.
    destruct (beforeMigration options) as [f|] eqn:Hf.
    + rewrite observe_outcome, (Hobs f Hf).
      apply (migrateLoop_steps_return versions _ Hcb). exact Hsteps.
    + unfold ret at 1.
      apply (migrateLoop_steps_return versions _ Hcb). exact Hsteps.
  - intros s m t Hm. now apply memExec_upsert.
Qed.

(** C3, as the code has it. With a persisted version [v], when the steps
    [v], ..., [j - 1] complete (their hooks return, one after the other,
    and the query callbacks and [beforeMigration] return) and a hook of
    step [j] raises [e], its [beforeMigrate] or, [beforeMigrate] having
    returned, its [migrate], on the storage step [j - 1] left: the run
    throws, and it throws [e] itself. The error is not wrapped and carries
    no step name or target version (these were logged before the hooks
    ran). Nothing is called after the failing hook: no [migrate] after a
    failing [beforeMigrate], no upsert, no later step. The storage is the
    one the failing hook left and, the hooks of step [j] not touching the
    row themselves, it holds version [j], the target of the last completed
    step (or [v], if none completed). *)
Theorem hook_error_aborts_run_unchanged
        (versions : list MigrationVersionDefinition) (options : Options)
        (w : @World (MemStorage U)) (v j : Z)
        (definition : MigrationVersionDefinition) (e : JsError)
        (s' : MemStorage U) partial :
  schemaVersionOf (storage w) = Some v ->
  (0 <= v <= j)%Z ->
  callbacksReturn db ->
  observerReturns options ->
  let s0 := ensureMetadata (storage w) in
  let completed := Z.to_nat (j - v) in
  stepsReturn versions completed v s0 ->
  at_index versions j = Some definition ->
  HookFailure definition j (applySteps versions completed v s0) e s' partial ->
  exists w',
    migrateDatabase (memExec engine) db versions options w = Threw e w'
    /\ storage w' = s'
    /\ calls (trace w')
       = calls (trace w) ++ readEvents ++ observerCalls options versions v
         ++ flat_map (stepCallsAt versions) (seqZ v (j - v)) ++ partial
    /\ endsInHook (trace w') = true
    /\ (keepsVersion (migrate definition) ->
        (forall hook, beforeMigrate definition = Some hook -> keepsVersion hook) ->
        schemaVersionOf (storage w') = Some j).
Proof.
  intros Hv Hrange Hcb Hobs s0 completed Hsteps Hat HF.
  set (N := Z.of_nat (length versions)).
  assert (HjN : (j < N)%Z).
  { unfold at_index in Hat. destruct (j <? 0)%Z; [discriminate|].
    apply lookup_lt_Some in Hat. unfold N. lia. }
  rewrite (migrateDatabase_run engine db versions options w v Hv). fold N.
  rewrite (proj2 (Z.eqb_neq v N)) by lia.
  assert (Hj : (v + Z.of_nat completed)%Z = j) by (unfold completed; lia).
  assert (Hloop : forall w1 : @World (MemStorage U),
             storage w1 = s0 ->
             exists w',
               migrateLoop (memExec engine) db versions (Z.to_nat (N - v)) v w1 = Threw e w'
               /\ storage w' = s'
               /\ calls (trace w')
                  = calls (trace w1) ++ pendingCalls versions v completed ++ partial
               /\ endsInHook (trace w') = true).
  { intros w1 Hs1.
    apply (migrateLoop_hook_throws versions Hcb completed (Z.to_nat (N - v)) v w1
             definition e s' partial).
    - unfold completed. lia.
    - now rewrite Hs1.
    - now rewrite Hj.
    - now rewrite Hj, Hs1. }
  assert (Hpending : pendingCalls versions v completed
                     = flat_map (stepCallsAt versions) (seqZ v (j - v))).
  { unfold pendingCalls, completed. now rewrite Z2Nat.id by lia. }
  assert (Hrun : exists w',
             (match beforeMigration options with
              | Some f => observe (EvBeforeMigration (slice versions v N))
                                  (f (slice versions v N))
              | None => ret tt
              end ;;;
              migrateLoop (memExec engine) db versions (Z.to_nat (N - v)) v)
               (MkWorld s0 (trace w ++ readEvents)) = Threw e w'
             /\ storage w' = s'
             /\ calls (trace w')
                = calls (trace w) ++ readEvents ++ observerCalls options versions v
                  ++ flat_map (stepCallsAt versions) (seqZ v (j - v)) ++ partial
             /\ endsInHook (trace w') = true).
  { unfold bind at 1, observerCalls. fold N. rewrite (proj2 (Z.eqb_neq v N)) by lia.
    destruct (beforeMigration options) as [f|] eqn:Hf.
    - rewrite observe_outcome, (Hobs f Hf).
      match goal with
      | |- context [migrateLoop _ _ _ _ _ ?w1] =>
          destruct (Hloop w1 eq_refl) as (w' & Hthrow & Hs & Hc & Hend)
      end.
      exists w'. split; [exact Hthrow|]. split; [exact Hs|]. split; [|exact Hend].
      rewrite Hc, Hpending. cbn [trace]. rewrite !calls_app, calls_readEvents. cbn.
      now rewrite <- !app_assoc.
    - unfold ret at 1.
      destruct (Hloop (MkWorld s0 (trace w ++ readEvents)) eq_refl)
        as (w' & Hthrow & Hs & Hc & Hend).
      exists w'. split; [exact Hthrow|]. split; [exact Hs|]. split; [|exact Hend].
      rewrite Hc, Hpending. cbn [trace]. rewrite !calls_app, calls_readEvents. cbn.
      now rewrite <- !app_assoc. }
  destruct Hrun as (w' & Hthrow & Hs & Hc & Hend).
  exists w'. split; [exact Hthrow|]. split; [exact Hs|]. split; [exact Hc|].
  split; [exact Hend|].
  intros Hmigrate Hbefore.
  unfold schemaVersionOf.
  rewrite Hs, (hookFailure_keeps_version definition j _ s' e partial Hmigrate Hbefore HF).
  destruct (Z.eq_dec j v) as [->|Hjv].
  - unfold completed. rewrite Z.sub_diag.
    change (applySteps versions (Z.to_nat 0) v s0) with s0.
    unfold s0. rewrite persisted_ensureMetadata. exact Hv.
  - rewrite applySteps_persisted by (try exact Hsteps; unfold completed; lia).
    now rewrite Hj.
Qed.
End StepStorages.

(** ** The runs of the examples, step by step *)

Lemma migrateDatabase_applies_pending_steps_witness :
  let versions := [createUsers; addPosts] in
  let w := MkWorld emptyStorage [] in
  schemaVersionOf (storage w) = Some 0%Z
  /\ (0 <= 0 <= Z.of_nat (length versions))%Z
  /\ exists w',
      migrateDatabase (memExec noEngine) (createWrapper None) versions
                      (observedOptions versions) w = Returned tt w'
      /\ calls (trace w')
         = [EvExec createMetadataSql []; EvExec selectVersionSql [];
            EvBeforeMigration versions;
            EvMigrate 0; EvExec upsertSql [PNumber 1; PNumber 1];
            EvBeforeMigrate 1; EvMigrate 1; EvExec upsertSql [PNumber 2; PNumber 2]]
      /\ userData (storage w') = ["users"; "posts"]
      /\ persisted (storage w') = Some (SVNumber 2)
      /\ schemaVersionOf (storage w') = Some 2%Z.
Proof.
  intros versions w.
  assert (Hv : schemaVersionOf (storage w) = Some 0%Z) by reflexivity.
  assert (Hrange : (0 <= 0 <= Z.of_nat (length versions))%Z) by (cbn; lia).
  split; [exact Hv|]. split; [exact Hrange|].
  destruct (migrateDatabase_applies_pending_steps
              noEngine (createWrapper None) versions (observedOptions versions)
              w 0%Z Hv Hrange) as (Hreturned & Hreturns & _).
  destruct Hreturns as [w' Hrun].
  - intros cb Hnone. discriminate.
  - intros f Hf ms. inversion Hf. reflexivity.
  - cbn. split; [split; [exact I | reflexivity]|].
    split; [eexists; reflexivity|].
    split; [split; reflexivity|].
    split; [eexists; reflexivity | exact I].
  - exists w'. split; [exact Hrun|].
    destruct (Hreturned w' Hrun) as (_ & Hs & Hcalls & Hversion & _).
    split; [rewrite Hcalls; reflexivity|].
    split; [rewrite Hs; reflexivity|].
    split; [rewrite Hs; reflexivity | exact Hversion].
Defined.

Lemma hook_error_aborts_run_unchanged_witness :
  let versions := [createUsers; addPostsFailing] in
  let w := MkWorld emptyStorage [] in
  schemaVersionOf (storage w) = Some 0%Z
  /\ at_index versions 1 = Some addPostsFailing
  /\ (failingCreate (storageAt 1 ["users"])).1 = Some tableExists
  /\ exists w',
      migrateDatabase (memExec noEngine) (createWrapper None) versions
                      (observedOptions versions) w = Threw tableExists w'
      /\ userData (storage w') = ["users"; "posts_tmp"]
      /\ calls (trace w')
         = [EvExec createMetadataSql []; EvExec selectVersionSql [];
            EvBeforeMigration versions;
            EvMigrate 0; EvExec upsertSql [PNumber 1; PNumber 1];
            EvBeforeMigrate 1; EvMigrate 1]
      /\ schemaVersionOf (storage w') = Some 1%Z.
Proof.
  intros versions w.
  assert (Hv : schemaVersionOf (storage w) = Some 0%Z) by reflexivity.
  assert (Hat : at_index versions 1 = Some addPostsFailing) by reflexivity.
  split; [exact Hv|]. split; [exact Hat|]. split; [reflexivity|].
  assert (Hrange : (0 <= 0 <= 1)%Z) by lia.
  assert (Hcb : callbacksReturn (createWrapper None))
    by (intros cb Hnone; discriminate).
  assert (Hobs : observerReturns (observedOptions versions))
    by (intros f Hf ms; inversion Hf; reflexivity).
  assert (Hsteps : stepsReturn versions (Z.to_nat (1 - 0)) 0
                               (ensureMetadata (storage w))).
  { cbn. split; [split; [exact I | reflexivity]|].
    split; [eexists; reflexivity | exact I]. }
  assert (Hbefore : beforeReturns addPostsFailing
                      (applySteps versions (Z.to_nat (1 - 0)) 0
                                  (ensureMetadata (storage w))))
    by reflexivity.
  destruct (hook_error_aborts_run_unchanged
              noEngine (createWrapper None) versions (observedOptions versions)
              w 0%Z 1%Z addPostsFailing tableExists _ _
              Hv Hrange Hcb Hobs Hsteps Hat
              (MigrateFailed addPostsFailing 1 _ tableExists Hbefore eq_refl))
    as (w' & Hrun & Hs & Hcalls & _ & Hversion).
  exists w'. split; [exact Hrun|].
  split; [rewrite Hs; reflexivity|].
  split; [rewrite Hcalls; reflexivity|].
  apply Hversion.
  - intros s. reflexivity.
  - intros hook Hhook s. inversion Hhook. reflexivity.
Defined.
